(** * Sebze-Meyve receipt application: customer directory, pricing and
      receipt persistence of [sebze_meyve_fisi_quickwin_v2.py].

    The development embeds the Python source function by function.  Python
    strings are sequences of Unicode code points; the interpreter's text
    primitives ([unicodedata.normalize], [str.casefold], [str.lower],
    [str.capitalize]) are an interface ([unicode]) with an executable
    instance ([Ucd.py]) for the Turkish alphabet; [difflib] is embedded from
    CPython's [Lib/difflib.py]; amounts are IEEE binary64 values. *)

From Stdlib Require Import Ascii String.
From Stdlib Require Import List NArith ZArith QArith Bool Arith Lia.
From Stdlib Require Import Floats.
From Stdlib Require Import Permutation Sorted.
Import ListNotations.
Close Scope Q_scope.
Open Scope nat_scope.

(** ** Python strings *)

Module Str.

(** A code point, and a Python [str]. *)
Definition char := N.
Definition str := list char.

Fixpoint bytes_of (s : string) : list N :=
  match s with
  | EmptyString => []
  | String c s' => N_of_ascii c :: bytes_of s'
  end.

(** Decoding of the UTF-8 bytes of a literal of this file into code points. *)
Fixpoint utf8 (bs : list N) : str :=
  match bs with
  | [] => []
  | b0 :: r0 =>
    if (b0 <? 0x80)%N then b0 :: utf8 r0
    else match r0 with
    | [] => []
    | b1 :: r1 =>
      if (b0 <? 0xE0)%N then ((b0 - 0xC0) * 64 + (b1 - 0x80))%N :: utf8 r1
      else match r1 with
      | [] => []
      | b2 :: r2 =>
        if (b0 <? 0xF0)%N
        then ((b0 - 0xE0) * 4096 + (b1 - 0x80) * 64 + (b2 - 0x80))%N :: utf8 r2
        else match r2 with
        | [] => []
        | b3 :: r3 =>
          ((b0 - 0xF0) * 262144 + (b1 - 0x80) * 4096
           + (b2 - 0x80) * 64 + (b3 - 0x80))%N :: utf8 r3
        end
      end
    end
  end.

(** [u "..."] is the Python string written as the literal. *)
Definition u (s : string) : str := utf8 (bytes_of s).

(** [==] on strings. *)
Fixpoint eqb (s t : str) : bool :=
  match s, t with
  | [], [] => true
  | c :: s', d :: t' => (c =? d)%N && eqb s' t'
  | _, _ => false
  end.

(** [<] on strings: lexicographic order of the code points. *)
Fixpoint ltb (s t : str) : bool :=
  match s, t with
  | _, [] => false
  | [], _ :: _ => true
  | c :: s', d :: t' => (c <? d)%N || ((c =? d)%N && ltb s' t')
  end.

(** [str.isspace] of one character ([Py_UNICODE_ISSPACE]): the code points of
    bidirectional type WS, B or S and of category Zs. *)
Definition isspace (c : char) : bool :=
  ((0x09 <=? c) && (c <=? 0x0D) || (0x1C <=? c) && (c <=? 0x20)
   || (c =? 0x85) || (c =? 0xA0) || (c =? 0x1680)
   || (0x2000 <=? c) && (c <=? 0x200A)
   || (c =? 0x2028) || (c =? 0x2029) || (c =? 0x202F) || (c =? 0x205F)
   || (c =? 0x3000))%N.

(** [s.lstrip()], [s.rstrip()], [s.strip()]. *)
Fixpoint lstrip (s : str) : str :=
  match s with
  | c :: s' => if isspace c then lstrip s' else s
  | [] => []
  end.

Definition rstrip (s : str) : str := rev (lstrip (rev s)).

Definition strip (s : str) : str := rstrip (lstrip s).

(** [s.split()]: the maximal runs of characters that are not whitespace.
    [w] holds the characters of the current word, last one first. *)
Fixpoint split_from (w : str) (s : str) : list str :=
  match s with
  | [] => match w with [] => [] | _ => [rev w] end
  | c :: s' =>
    if isspace c
    then match w with [] => split_from [] s' | _ => rev w :: split_from [] s' end
    else split_from (c :: w) s'
  end.

Definition split (s : str) : list str := split_from [] s.

(** [sep.join(words)]. *)
Fixpoint join (sep : str) (words : list str) : str :=
  match words with
  | [] => []
  | [w] => w
  | w :: ws => w ++ sep ++ join sep ws
  end.

(** [s.startswith(p)]. *)
Fixpoint startswith (s p : str) : bool :=
  match p, s with
  | [], _ => true
  | d :: p', c :: s' => (c =? d)%N && startswith s' p'
  | _ :: _, [] => false
  end.

(** [s.replace(old, new)] for one-character [old] and [new]. *)
Definition replace1 (old new : char) (s : str) : str :=
  map (fun c => if (c =? old)%N then new else c) s.

End Str.
Import Str.

(** ** The interpreter's text primitives *)

(** What the program uses of the interpreter's Unicode support:
    [unicodedata.normalize("NFKC", s)], [s.lower()], [s.capitalize()] and
    [s.casefold()]. *)
Record unicode := {
  nfkc : str -> str;
  lower : str -> str;
  capitalize : str -> str;
  casefold : str -> str
}.

(** The primitives over the Unicode Character Database, restricted to a
    repertoire built around the Turkish alphabet: ASCII, the letters
    Ç ç Ğ ğ İ ı Ö ö Ş ş Ü ü Â â Î î Û û, the combining marks U+0302, U+0306,
    U+0307, U+0308 and U+0327, every white-space character, and every code
    point that lowercasing, titlecasing, case folding, decomposition or
    composition produces from these.  The tables list the database's
    entries for this repertoire; [covered] tells whether a string lies in
    it.  The contextual rule of [str.lower] concerns U+03A3 only, which is
    outside the repertoire. *)
Module Ucd.

(** The repertoire, as inclusive ranges of code points. *)
Definition repertoire : list (char * char) := [
  (0, 127); (133, 133); (160, 160); (194, 194); (196, 196); (199, 199);
  (202, 203); (206, 207); (212, 212); (214, 214); (219, 220); (226, 226);
  (228, 228); (231, 231); (234, 235); (238, 239); (244, 244); (246, 246);
  (251, 252); (255, 255); (258, 259); (264, 267); (276, 279); (284, 293);
  (300, 301); (304, 305); (308, 311); (315, 316); (325, 326); (334, 335);
  (342, 343); (348, 351); (354, 355); (364, 365); (372, 376); (379, 380);
  (550, 553); (558, 559); (770, 770); (774, 776); (807, 807); (5760, 5760);
  (7682, 7683); (7690, 7691); (7696, 7697); (7708, 7711); (7714, 7715);
  (7718, 7721); (7744, 7745); (7748, 7749); (7766, 7769); (7776, 7777);
  (7786, 7787); (7812, 7815); (7818, 7825); (7831, 7831); (8192, 8202);
  (8232, 8233); (8239, 8239); (8287, 8287); (12288, 12288)]%N.

(** Full lowercase mappings that are not the identity. *)
Definition lower_tbl : list (char * str) := [
  (65, [97]); (66, [98]); (67, [99]); (68, [100]); (69, [101]); (70, [102]);
  (71, [103]); (72, [104]); (73, [105]); (74, [106]); (75, [107]);
  (76, [108]); (77, [109]); (78, [110]); (79, [111]); (80, [112]);
  (81, [113]); (82, [114]); (83, [115]); (84, [116]); (85, [117]);
  (86, [118]); (87, [119]); (88, [120]); (89, [121]); (90, [122]);
  (194, [226]); (196, [228]); (199, [231]); (202, [234]); (203, [235]);
  (206, [238]); (207, [239]); (212, [244]); (214, [246]); (219, [251]);
  (220, [252]); (258, [259]); (264, [265]); (266, [267]); (276, [277]);
  (278, [279]); (284, [285]); (286, [287]); (288, [289]); (290, [291]);
  (292, [293]); (300, [301]); (304, [105; 775]); (308, [309]); (310, [311]);
  (315, [316]); (325, [326]); (334, [335]); (342, [343]); (348, [349]);
  (350, [351]); (354, [355]); (364, [365]); (372, [373]); (374, [375]);
  (376, [255]); (379, [380]); (550, [551]); (552, [553]); (558, [559]);
  (7682, [7683]); (7690, [7691]); (7696, [7697]); (7708, [7709]);
  (7710, [7711]); (7714, [7715]); (7718, [7719]); (7720, [7721]);
  (7744, [7745]); (7748, [7749]); (7766, [7767]); (7768, [7769]);
  (7776, [7777]); (7786, [7787]); (7812, [7813]); (7814, [7815]);
  (7818, [7819]); (7820, [7821]); (7822, [7823]); (7824, [7825])]%N.

(** Full titlecase mappings that are not the identity. *)
Definition title_tbl : list (char * str) := [
  (97, [65]); (98, [66]); (99, [67]); (100, [68]); (101, [69]); (102, [70]);
  (103, [71]); (104, [72]); (105, [73]); (106, [74]); (107, [75]);
  (108, [76]); (109, [77]); (110, [78]); (111, [79]); (112, [80]);
  (113, [81]); (114, [82]); (115, [83]); (116, [84]); (117, [85]);
  (118, [86]); (119, [87]); (120, [88]); (121, [89]); (122, [90]);
  (226, [194]); (228, [196]); (231, [199]); (234, [202]); (235, [203]);
  (238, [206]); (239, [207]); (244, [212]); (246, [214]); (251, [219]);
  (252, [220]); (255, [376]); (259, [258]); (265, [264]); (267, [266]);
  (277, [276]); (279, [278]); (285, [284]); (287, [286]); (289, [288]);
  (291, [290]); (293, [292]); (301, [300]); (305, [73]); (309, [308]);
  (311, [310]); (316, [315]); (326, [325]); (335, [334]); (343, [342]);
  (349, [348]); (351, [350]); (355, [354]); (365, [364]); (373, [372]);
  (375, [374]); (380, [379]); (551, [550]); (553, [552]); (559, [558]);
  (7683, [7682]); (7691, [7690]); (7697, [7696]); (7709, [7708]);
  (7711, [7710]); (7715, [7714]); (7719, [7718]); (7721, [7720]);
  (7745, [7744]); (7749, [7748]); (7767, [7766]); (7769, [7768]);
  (7777, [7776]); (7787, [7786]); (7813, [7812]); (7815, [7814]);
  (7819, [7818]); (7821, [7820]); (7823, [7822]); (7825, [7824]);
  (7831, [84; 776])]%N.

(** Full case foldings that are not the identity. *)
Definition fold_tbl : list (char * str) := [
  (65, [97]); (66, [98]); (67, [99]); (68, [100]); (69, [101]); (70, [102]);
  (71, [103]); (72, [104]); (73, [105]); (74, [106]); (75, [107]);
  (76, [108]); (77, [109]); (78, [110]); (79, [111]); (80, [112]);
  (81, [113]); (82, [114]); (83, [115]); (84, [116]); (85, [117]);
  (86, [118]); (87, [119]); (88, [120]); (89, [121]); (90, [122]);
  (194, [226]); (196, [228]); (199, [231]); (202, [234]); (203, [235]);
  (206, [238]); (207, [239]); (212, [244]); (214, [246]); (219, [251]);
  (220, [252]); (258, [259]); (264, [265]); (266, [267]); (276, [277]);
  (278, [279]); (284, [285]); (286, [287]); (288, [289]); (290, [291]);
  (292, [293]); (300, [301]); (304, [105; 775]); (308, [309]); (310, [311]);
  (315, [316]); (325, [326]); (334, [335]); (342, [343]); (348, [349]);
  (350, [351]); (354, [355]); (364, [365]); (372, [373]); (374, [375]);
  (376, [255]); (379, [380]); (550, [551]); (552, [553]); (558, [559]);
  (7682, [7683]); (7690, [7691]); (7696, [7697]); (7708, [7709]);
  (7710, [7711]); (7714, [7715]); (7718, [7719]); (7720, [7721]);
  (7744, [7745]); (7748, [7749]); (7766, [7767]); (7768, [7769]);
  (7776, [7777]); (7786, [7787]); (7812, [7813]); (7814, [7815]);
  (7818, [7819]); (7820, [7821]); (7822, [7823]); (7824, [7825]);
  (7831, [116; 776])]%N.

(** Full compatibility decompositions that are not the identity. *)
Definition kd_tbl : list (char * str) := [
  (160, [32]); (194, [65; 770]); (196, [65; 776]); (199, [67; 807]);
  (202, [69; 770]); (203, [69; 776]); (206, [73; 770]); (207, [73; 776]);
  (212, [79; 770]); (214, [79; 776]); (219, [85; 770]); (220, [85; 776]);
  (226, [97; 770]); (228, [97; 776]); (231, [99; 807]); (234, [101; 770]);
  (235, [101; 776]); (238, [105; 770]); (239, [105; 776]); (244, [111; 770]);
  (246, [111; 776]); (251, [117; 770]); (252, [117; 776]); (255, [121; 776]);
  (258, [65; 774]); (259, [97; 774]); (264, [67; 770]); (265, [99; 770]);
  (266, [67; 775]); (267, [99; 775]); (276, [69; 774]); (277, [101; 774]);
  (278, [69; 775]); (279, [101; 775]); (284, [71; 770]); (285, [103; 770]);
  (286, [71; 774]); (287, [103; 774]); (288, [71; 775]); (289, [103; 775]);
  (290, [71; 807]); (291, [103; 807]); (292, [72; 770]); (293, [104; 770]);
  (300, [73; 774]); (301, [105; 774]); (304, [73; 775]); (308, [74; 770]);
  (309, [106; 770]); (310, [75; 807]); (311, [107; 807]); (315, [76; 807]);
  (316, [108; 807]); (325, [78; 807]); (326, [110; 807]); (334, [79; 774]);
  (335, [111; 774]); (342, [82; 807]); (343, [114; 807]); (348, [83; 770]);
  (349, [115; 770]); (350, [83; 807]); (351, [115; 807]); (354, [84; 807]);
  (355, [116; 807]); (364, [85; 774]); (365, [117; 774]); (372, [87; 770]);
  (373, [119; 770]); (374, [89; 770]); (375, [121; 770]); (376, [89; 776]);
  (379, [90; 775]); (380, [122; 775]); (550, [65; 775]); (551, [97; 775]);
  (552, [69; 807]); (553, [101; 807]); (558, [79; 775]); (559, [111; 775]);
  (7682, [66; 775]); (7683, [98; 775]); (7690, [68; 775]);
  (7691, [100; 775]); (7696, [68; 807]); (7697, [100; 807]);
  (7708, [69; 807; 774]); (7709, [101; 807; 774]); (7710, [70; 775]);
  (7711, [102; 775]); (7714, [72; 775]); (7715, [104; 775]);
  (7718, [72; 776]); (7719, [104; 776]); (7720, [72; 807]);
  (7721, [104; 807]); (7744, [77; 775]); (7745, [109; 775]);
  (7748, [78; 775]); (7749, [110; 775]); (7766, [80; 775]);
  (7767, [112; 775]); (7768, [82; 775]); (7769, [114; 775]);
  (7776, [83; 775]); (7777, [115; 775]); (7786, [84; 775]);
  (7787, [116; 775]); (7812, [87; 776]); (7813, [119; 776]);
  (7814, [87; 775]); (7815, [119; 775]); (7818, [88; 775]);
  (7819, [120; 775]); (7820, [88; 776]); (7821, [120; 776]);
  (7822, [89; 775]); (7823, [121; 775]); (7824, [90; 770]);
  (7825, [122; 770]); (7831, [116; 776]); (8192, [32]); (8193, [32]);
  (8194, [32]); (8195, [32]); (8196, [32]); (8197, [32]); (8198, [32]);
  (8199, [32]); (8200, [32]); (8201, [32]); (8202, [32]); (8239, [32]);
  (8287, [32]); (12288, [32])]%N.

(** Canonical combining classes that are not zero. *)
Definition ccc_tbl : list (char * N) := [(770, 230); (774, 230); (775, 230); (776, 230); (807, 202)]%N.

(** Primary composites: first character, second character, composite. *)
Definition comp_tbl : list (char * char * char) := [
  (65, 770, 194); (65, 774, 258); (65, 775, 550); (65, 776, 196);
  (66, 775, 7682); (67, 770, 264); (67, 775, 266); (67, 807, 199);
  (68, 775, 7690); (68, 807, 7696); (69, 770, 202); (69, 774, 276);
  (69, 775, 278); (69, 776, 203); (69, 807, 552); (70, 775, 7710);
  (71, 770, 284); (71, 774, 286); (71, 775, 288); (71, 807, 290);
  (72, 770, 292); (72, 775, 7714); (72, 776, 7718); (72, 807, 7720);
  (73, 770, 206); (73, 774, 300); (73, 775, 304); (73, 776, 207);
  (74, 770, 308); (75, 807, 310); (76, 807, 315); (77, 775, 7744);
  (78, 775, 7748); (78, 807, 325); (79, 770, 212); (79, 774, 334);
  (79, 775, 558); (79, 776, 214); (80, 775, 7766); (82, 775, 7768);
  (82, 807, 342); (83, 770, 348); (83, 775, 7776); (83, 807, 350);
  (84, 775, 7786); (84, 807, 354); (85, 770, 219); (85, 774, 364);
  (85, 776, 220); (87, 770, 372); (87, 775, 7814); (87, 776, 7812);
  (88, 775, 7818); (88, 776, 7820); (89, 770, 374); (89, 775, 7822);
  (89, 776, 376); (90, 770, 7824); (90, 775, 379); (97, 770, 226);
  (97, 774, 259); (97, 775, 551); (97, 776, 228); (98, 775, 7683);
  (99, 770, 265); (99, 775, 267); (99, 807, 231); (100, 775, 7691);
  (100, 807, 7697); (101, 770, 234); (101, 774, 277); (101, 775, 279);
  (101, 776, 235); (101, 807, 553); (102, 775, 7711); (103, 770, 285);
  (103, 774, 287); (103, 775, 289); (103, 807, 291); (104, 770, 293);
  (104, 775, 7715); (104, 776, 7719); (104, 807, 7721); (105, 770, 238);
  (105, 774, 301); (105, 776, 239); (106, 770, 309); (107, 807, 311);
  (108, 807, 316); (109, 775, 7745); (110, 775, 7749); (110, 807, 326);
  (111, 770, 244); (111, 774, 335); (111, 775, 559); (111, 776, 246);
  (112, 775, 7767); (114, 775, 7769); (114, 807, 343); (115, 770, 349);
  (115, 775, 7777); (115, 807, 351); (116, 775, 7787); (116, 776, 7831);
  (116, 807, 355); (117, 770, 251); (117, 774, 365); (117, 776, 252);
  (119, 770, 373); (119, 775, 7815); (119, 776, 7813); (120, 775, 7819);
  (120, 776, 7821); (121, 770, 375); (121, 775, 7823); (121, 776, 255);
  (122, 770, 7825); (122, 775, 380); (552, 774, 7708); (553, 774, 7709)]%N.

Fixpoint assoc {B : Type} (c : char) (t : list (char * B)) : option B :=
  match t with
  | [] => None
  | (d, v) :: t' => if (c =? d)%N then Some v else assoc c t'
  end.

Definition in_repertoire (c : char) : bool :=
  existsb (fun r => (fst r <=? c)%N && (c <=? snd r)%N) repertoire.

Definition covered (s : str) : bool := forallb in_repertoire s.

Definition mapped (t : list (char * str)) (c : char) : str :=
  match assoc c t with Some v => v | None => [c] end.

(** [s.lower()], [s.capitalize()] and [s.casefold()]: the first character of
    [capitalize] takes its titlecase mapping, every other one its lowercase
    mapping. *)
Definition str_lower (s : str) : str := flat_map (mapped lower_tbl) s.

Definition str_capitalize (s : str) : str :=
  match s with
  | [] => []
  | c :: s' => mapped title_tbl c ++ str_lower s'
  end.

Definition str_casefold (s : str) : str := flat_map (mapped fold_tbl) s.

Definition ccc (c : char) : N :=
  match assoc c ccc_tbl with Some k => k | None => 0%N end.

Fixpoint composite (x c : char) (t : list (char * char * char)) : option char :=
  match t with
  | [] => None
  | (a, b, y) :: t' =>
    if ((x =? a) && (c =? b))%N then Some y else composite x c t'
  end.

(** Normalization form KC: compatibility decomposition, canonical ordering
    of the combining marks, canonical composition. *)
Definition decompose (s : str) : str := flat_map (mapped kd_tbl) s.

(** [out] is the ordered prefix, last character first: a mark moves before
    the marks of a greater class that precede it. *)
Fixpoint place (c : char) (out : str) : str :=
  match out with
  | x :: r =>
    if ((0 <? ccc c) && (ccc c <? ccc x))%N then x :: place c r else c :: out
  | [] => [c]
  end.

Definition canonical_order (s : str) : str :=
  rev (fold_left (fun out c => place c out) s []).

(** [done] is the finished output and [kept] the marks kept after the
    current starter [st], both last character first; [last] is the class of
    the last kept mark, 0 when there is none. *)
Fixpoint compose_from (done : str) (st : option char) (kept : str) (last : N)
  (s : str) : str :=
  match s with
  | [] =>
    rev (kept ++ match st with Some x => x :: done | None => done end)
  | c :: s' =>
    let k := ccc c in
    match st with
    | None =>
      if (k =? 0)%N then compose_from done (Some c) [] 0%N s'
      else compose_from (c :: done) None [] 0%N s'
    | Some x =>
      match (if ((last =? 0) || (last <? k))%N
             then composite x c comp_tbl else None) with
      | Some y => compose_from done (Some y) kept last s'
      | None =>
        if (k =? 0)%N then compose_from (kept ++ x :: done) (Some c) [] 0%N s'
        else compose_from done st (c :: kept) k s'
      end
    end
  end.

Definition compose (s : str) : str := compose_from [] None [] 0%N s.

Definition str_nfkc (s : str) : str :=
  compose (canonical_order (decompose s)).

Definition py : unicode :=
  {| nfkc := str_nfkc; lower := str_lower;
     capitalize := str_capitalize; casefold := str_casefold |}.

End Ucd.

(** ** Data model *)

(** [class Customer]: a dataclass of three strings. *)
Record Customer := {
  name : str;
  phone : str;
  address : str
}.

(** [Customer(name=n)]: the other fields take their default, the empty
    string. *)
Definition Customer_named (n : str) : Customer :=
  {| name := n; phone := []; address := [] |}.

Definition Customer_eqb (c d : Customer) : bool :=
  Str.eqb (name c) (name d) && Str.eqb (phone c) (phone d)
  && Str.eqb (address c) (address d).

(** ** Name normalization and display *)

Section Names.

Variable U : unicode.

(** [_normalize_for_comparison]. *)
Definition _normalize_for_comparison (n : str) : str :=
  let n := nfkc U n in
  let n := join (u " ") (split (strip n)) in
  casefold U n.

(** [turkish_title], the local function of [_format_for_display]:
    [w[1:]] is the tail of [w]. *)
Definition turkish_title (word : str) : str :=
  let w := lower U (strip word) in
  if startswith w (u "i") then u "İ" ++ tl w
  else capitalize U w.

(** [_format_for_display]. *)
Definition _format_for_display (n : str) : str :=
  join (u " ") (map turkish_title (split (strip n))).

End Names.

(** ** [difflib]

    [SequenceMatcher] and [get_close_matches] of CPython's [Lib/difflib.py],
    as [get_close_matches] uses them: [isjunk] is [None], so the junk set of
    [b] is empty, and [autojunk] is on.  A score is the exact value of
    [2.0 * matches / length]; the binary64 quotient the interpreter computes
    compares as the exact value does, with a cutoff and with another score,
    as long as the strings are shorter than [2 ^ 25] characters. *)
Module difflib.

Definition Match := (nat * nat * nat)%type.

Section SequenceMatcher.

(** [self.a] and [self.b]. *)
Variables a b : str.

(** [__chain_b]: [b2j] maps an element to its indices in [b], in
    increasing order; with [len(b) >= 200] the elements that occur more than
    [len(b) // 100 + 1] times are popular and lose their entry. *)
Fixpoint indices_from (j : nat) (elt : char) (s : str) : list nat :=
  match s with
  | [] => []
  | c :: s' =>
    if (c =? elt)%N then j :: indices_from (S j) elt s'
    else indices_from (S j) elt s'
  end.

Definition popular (elt : char) : bool :=
  (200 <=? length b) && (length b / 100 + 1 <? length (indices_from 0 elt b)).

(** [b2j.get(elt, nothing)]. *)
Definition b2j (elt : char) : list nat :=
  if popular elt then [] else indices_from 0 elt b.

(** [j2len.get(j, 0)] on a dictionary kept as its list of items. *)
Fixpoint get (j2len : list (nat * nat)) (j : nat) : nat :=
  match j2len with
  | [] => 0
  | (j', k) :: d => if j' =? j then k else get d j
  end.

(** [j2len.get(j-1, 0)]: the key [-1] is never present. *)
Definition get_pred (j2len : list (nat * nat)) (j : nat) : nat :=
  match j with
  | 0 => 0
  | S j' => get j2len j'
  end.

(** The inner loop of [find_longest_match], over the indices [js] of [a[i]]
    in [b]; the keys set in [newj2len] are distinct. *)
Fixpoint scan_j (blo bhi i : nat) (j2len : list (nat * nat)) (js : list nat)
  (newj2len : list (nat * nat)) (best : Match) : list (nat * nat) * Match :=
  match js with
  | [] => (newj2len, best)
  | j :: js' =>
    if j <? blo then scan_j blo bhi i j2len js' newj2len best
    else if bhi <=? j then (newj2len, best)
    else
      let k := get_pred j2len j + 1 in
      let best' :=
        if snd best <? k then (i + 1 - k, j + 1 - k, k) else best in
      scan_j blo bhi i j2len js' ((j, k) :: newj2len) best'
  end.

(** The outer loop, over [range(alo, ahi)]. *)
Fixpoint scan_i (blo bhi : nat) (rng : list nat) (j2len : list (nat * nat))
  (best : Match) : Match :=
  match rng with
  | [] => best
  | i :: rng' =>
    let r := scan_j blo bhi i j2len (b2j (nth i a 0%N)) [] best in
    scan_i blo bhi rng' (fst r) (snd r)
  end.

(** The two loops that extend the best match by elements that are not junk,
    backwards and forwards. *)
Fixpoint extend_back (alo blo besti bestj bestsize : nat) : Match :=
  match besti with
  | 0 => (besti, bestj, bestsize)
  | S i' =>
    if (alo <? besti) && (blo <? bestj)
       && (nth i' a 0 =? nth (bestj - 1) b 0)%N
    then extend_back alo blo i' (bestj - 1) (bestsize + 1)
    else (besti, bestj, bestsize)
  end.

Fixpoint extend_forward (n ahi bhi besti bestj bestsize : nat) : nat :=
  match n with
  | 0 => bestsize
  | S n' =>
    if (besti + bestsize <? ahi) && (bestj + bestsize <? bhi)
       && (nth (besti + bestsize) a 0 =? nth (bestj + bestsize) b 0)%N
    then extend_forward n' ahi bhi besti bestj (bestsize + 1)
    else bestsize
  end.

(** [find_longest_match(alo, ahi, blo, bhi)].  The last two loops of the
    source extend by junk elements and never run: the junk set is empty. *)
Definition find_longest_match (alo ahi blo bhi : nat) : Match :=
  let best := scan_i blo bhi (seq alo (ahi - alo)) [] (alo, blo, 0) in
  let '(besti, bestj, bestsize) :=
    extend_back alo blo (fst (fst best)) (snd (fst best)) (snd best) in
  (besti, bestj,
   extend_forward (ahi - (besti + bestsize)) ahi bhi besti bestj bestsize).

(** The loop of [get_matching_blocks]: [queue.pop()] takes the head of
    [queue]; [n] bounds the number of iterations. *)
Fixpoint blocks_loop (n : nat) (queue : list (nat * nat * nat * nat))
  (matching_blocks : list Match) : list Match :=
  match n with
  | 0 => matching_blocks
  | S n' =>
    match queue with
    | [] => matching_blocks
    | (alo, ahi, blo, bhi) :: queue' =>
      let '(i, j, k) := find_longest_match alo ahi blo bhi in
      if k =? 0 then blocks_loop n' queue' matching_blocks
      else
        let q1 :=
          if (alo <? i) && (blo <? j) then (alo, i, blo, j) :: queue'
          else queue' in
        let q2 :=
          if (i + k <? ahi) && (j + k <? bhi)
          then (i + k, ahi, j + k, bhi) :: q1 else q1 in
        blocks_loop n' q2 (matching_blocks ++ [(i, j, k)])
    end
  end.

(** [<=] on the triples, and [matching_blocks.sort()]. *)
Definition Match_leb (x y : Match) : bool :=
  let '(i1, j1, k1) := x in
  let '(i2, j2, k2) := y in
  (i1 <? i2) || ((i1 =? i2) && ((j1 <? j2) || ((j1 =? j2) && (k1 <=? k2)))).

Fixpoint insert_sorted (x : Match) (l : list Match) : list Match :=
  match l with
  | [] => [x]
  | y :: l' => if Match_leb x y then x :: l else y :: insert_sorted x l'
  end.

Definition sort (l : list Match) : list Match :=
  fold_right insert_sorted [] l.

(** The loop that collapses adjacent blocks; [cur] is [(i1, j1, k1)]. *)
Fixpoint collapse (cur : Match) (l : list Match) : list Match :=
  let '(i1, j1, k1) := cur in
  match l with
  | [] => if k1 =? 0 then [] else [cur]
  | (i2, j2, k2) :: l' =>
    if (i1 + k1 =? i2) && (j1 + k1 =? j2) then collapse (i1, j1, k1 + k2) l'
    else if k1 =? 0 then collapse (i2, j2, k2) l'
    else cur :: collapse (i2, j2, k2) l'
  end.

(** [get_matching_blocks()]. *)
Definition get_matching_blocks : list Match :=
  let la := length a in
  let lb := length b in
  let matching_blocks := blocks_loop (2 * la + 1) [(0, la, 0, lb)] [] in
  collapse (0, 0, 0) (sort matching_blocks) ++ [(la, lb, 0)].

(** [_calculate_ratio(matches, length)]. *)
Definition _calculate_ratio (matches length : nat) : Q :=
  match length with
  | 0 => 1%Q
  | S _ => Qmake (2 * Z.of_nat matches) (Pos.of_nat length)
  end.

(** [ratio()]. *)
Definition ratio : Q :=
  let matches := list_sum (map snd get_matching_blocks) in
  _calculate_ratio matches (length a + length b).

(** [quick_ratio()]: [fullbcount] counts the elements of [b]; [avail] is
    kept as its list of items, the latest first. *)
Fixpoint fullbcount (elt : char) (s : str) : Z :=
  match s with
  | [] => 0%Z
  | c :: s' => ((if (c =? elt)%N then 1 else 0) + fullbcount elt s')%Z
  end.

Fixpoint avail_get (avail : list (char * Z)) (elt : char) : option Z :=
  match avail with
  | [] => None
  | (c, n) :: d => if (c =? elt)%N then Some n else avail_get d elt
  end.

Fixpoint quick_loop (s : str) (avail : list (char * Z)) (matches : nat) : nat :=
  match s with
  | [] => matches
  | elt :: s' =>
    let numb :=
      match avail_get avail elt with
      | Some n => n
      | None => fullbcount elt b
      end in
    quick_loop s' ((elt, (numb - 1)%Z) :: avail)
      (if (0 <? numb)%Z then matches + 1 else matches)
  end.

Definition quick_ratio : Q :=
  _calculate_ratio (quick_loop a [] 0) (length a + length b).

(** [real_quick_ratio()]. *)
Definition real_quick_ratio : Q :=
  let la := length a in
  let lb := length b in
  _calculate_ratio (Nat.min la lb) (la + lb).

End SequenceMatcher.

(** [>] on the pairs [(score, x)]. *)
Definition scored_gtb (x y : Q * str) : bool :=
  if Qeq_bool (fst x) (fst y) then Str.ltb (snd y) (snd x)
  else negb (Qle_bool (fst x) (fst y)).

(** [max(it)]: the first of the greatest items. *)
Fixpoint max_from (maxitem : Q * str) (it : list (Q * str)) : Q * str :=
  match it with
  | [] => maxitem
  | item :: it' =>
    max_from (if scored_gtb item maxitem then item else maxitem) it'
  end.

(** [heapq.nlargest(1, result)]. *)
Definition nlargest1 (result : list (Q * str)) : list (Q * str) :=
  match result with
  | [] => []
  | item :: it => [max_from item it]
  end.

(** The test of one possibility [x] against [word]: [set_seq2(word)],
    [set_seq1(x)]. *)
Definition close_enough (word : str) (cutoff : Q) (x : str) : bool :=
  Qle_bool cutoff (real_quick_ratio x word)
  && Qle_bool cutoff (quick_ratio x word)
  && Qle_bool cutoff (ratio x word).

(** [get_close_matches(word, possibilities, n=1, cutoff)]. *)
Definition get_close_matches (word : str) (possibilities : list str)
  (cutoff : Q) : list str :=
  let result :=
    map (fun x => (ratio x word, x))
        (filter (close_enough word cutoff) possibilities) in
  map snd (nlargest1 result).

End difflib.

(** ** Customer lookup *)

Section Lookup.

Variable U : unicode.

(** A [dict] from normalized names to customers, kept as its list of items
    in insertion order: [d[k] = v] replaces the value of a key that is
    present and appends a new key. *)
Fixpoint dict_set (d : list (str * Customer)) (k : str) (v : Customer)
  : list (str * Customer) :=
  match d with
  | [] => [(k, v)]
  | (k', v') :: d' =>
    if Str.eqb k' k then (k', v) :: d' else (k', v') :: dict_set d' k v
  end.

Fixpoint dict_get (d : list (str * Customer)) (k : str) : option Customer :=
  match d with
  | [] => None
  | (k', v) :: d' => if Str.eqb k' k then Some v else dict_get d' k
  end.

(** [{ _normalize_for_comparison(c.name): c for c in customers }]. *)
Definition candidates_of (customers : list Customer) : list (str * Customer) :=
  fold_left (fun d c => dict_set d (_normalize_for_comparison U (name c)) c)
    customers [].

(** [_find_customer_by_name(customers, name)]; [None] is [None]. *)
Definition _find_customer_by_name (customers : list Customer) (nm : str)
  : option Customer :=
  match nm with
  | [] => None
  | _ :: _ =>
    let key := _normalize_for_comparison U nm in
    match find (fun c => Str.eqb (_normalize_for_comparison U (name c)) key)
            customers with
    | Some c => Some c
    | None =>
      let candidates := candidates_of customers in
      let close :=
        difflib.get_close_matches key (map fst candidates) (7 # 10) in
      match close with
      | k :: _ => dict_get candidates k
      | [] => None
      end
    end
  end.

End Lookup.

(** ** Files, log and dialogs *)

(** A [pathlib.Path]: the directory and the final component.  Equal paths
    are the same file. *)
Record Path := {
  parent : str;
  fname : str
}.

Definition Path_eqb (p q : Path) : bool :=
  Str.eqb (parent p) (parent q) && Str.eqb (fname p) (fname q).

(** [s.rfind(c)], positions counted from [i]; [None] is [-1]. *)
Fixpoint rfind (c : char) (s : str) (i : nat) : option nat :=
  match s with
  | [] => None
  | d :: s' =>
    match rfind c s' (S i) with
    | Some j => Some j
    | None => if (d =? c)%N then Some i else None
    end
  end.

(** [PurePath.suffix], of the final component [nm]. *)
Definition suffix (nm : str) : str :=
  match rfind 46%N nm 0 with
  | Some i => if (0 <? i) && (i <? length nm - 1) then skipn i nm else []
  | None => []
  end.

(** [path.with_suffix(sfx)] for a suffix such as [".tmp"]; [None] is the
    [ValueError] raised for a path with an empty name. *)
Definition with_suffix (p : Path) (sfx : str) : option Path :=
  match fname p with
  | [] => None
  | _ :: _ =>
    let old_suffix := suffix (fname p) in
    Some {| parent := parent p;
            fname :=
              match old_suffix with
              | [] => fname p ++ sfx
              | _ :: _ =>
                firstn (length (fname p) - length old_suffix) (fname p) ++ sfx
              end |}
  end.

(** [CUSTOMER_FILE = Path("customers.json")]. *)
Definition CUSTOMER_FILE : Path :=
  {| parent := u "."; fname := u "customers.json" |}.

(** A JSON document as [load_customers] inspects it: an array or not; an
    item that is an object, seen through its members ["name"], ["phone"] and
    ["address"] ([None] when the key is absent), or not an object.  The
    members are strings, as [to_dict] writes them. *)
Inductive jitem :=
| JObject (jname jphone jaddress : option str)
| JOther.

Inductive json :=
| JArray (items : list jitem)
| JNotArray.

(** The content of a file: a text that is no JSON document, a JSON document,
    or the first [n] characters of the serialization of one, too short to
    be a document. *)
Inductive file :=
| Text (content : str)
| Json (doc : json)
| JsonPrefix (doc : json) (n : nat).

Definition files := Path -> option file.

Definition write_file (fs : files) (p : Path) (f : file) : files :=
  fun q => if Path_eqb q p then Some f else fs q.

(** [os.replace(src, dst)]. *)
Definition replace_file (fs : files) (src dst : Path) : files :=
  fun q =>
    if Path_eqb q dst then fs src
    else if Path_eqb q src then None
    else fs q.

(** What the operating system makes of writing a file: everything is
    written, the file cannot be opened, or the write fails after [n]
    characters. *)
Inductive write_result :=
| Written
| OpenError
| WriteError (n : nat).

(** The outside of the program: the files, the records that
    [logging.exception] received, and the message boxes shown, as
    [(title, message)]. *)
Record Env := {
  disk : files;
  log : list str;
  shown : list (str * str)
}.

Definition set_disk (e : Env) (fs : files) : Env :=
  {| disk := fs; log := log e; shown := shown e |}.

Definition logging_exception (e : Env) (msg : str) : Env :=
  {| disk := disk e; log := log e ++ [msg]; shown := shown e |}.

Definition messagebox (e : Env) (title message : str) : Env :=
  {| disk := disk e; log := log e; shown := shown e ++ [(title, message)] |}.

(** ** Loading and saving the directory *)

(** [Customer.to_dict] and [Customer.from_dict]; [None] is the
    [AttributeError] of [data.get] on an item that is no object. *)
Definition to_dict (c : Customer) : jitem :=
  JObject (Some (name c)) (Some (phone c)) (Some (address c)).

Definition dict_get_default (v : option str) : str :=
  match v with Some s => s | None => [] end.

Definition from_dict (data : jitem) : option Customer :=
  match data with
  | JObject n p a =>
    Some {| name := dict_get_default n; phone := dict_get_default p;
            address := dict_get_default a |}
  | JOther => None
  end.

(** [[Customer.from_dict(item) for item in data]]. *)
Fixpoint from_dicts (data : list jitem) : option (list Customer) :=
  match data with
  | [] => Some []
  | item :: data' =>
    match from_dict item, from_dicts data' with
    | Some c, Some cs => Some (c :: cs)
    | _, _ => None
    end
  end.

(** [load_customers()]; [readable] tells whether opening the file
    succeeds. *)
Definition load_customers (readable : bool) (e : Env) : list Customer * Env :=
  match disk e CUSTOMER_FILE with
  | None => ([], e)
  | Some f =>
    let failed := ([], logging_exception e (u "load_customers failed")) in
    if readable then
      match f with
      | Json (JArray items) =>
        match from_dicts items with
        | Some cs => (cs, e)
        | None => failed
        end
      | Json JNotArray => ([], e)
      | Text _ | JsonPrefix _ _ => failed
      end
    else failed
  end.

(** [save_customers(customers)]. *)
Definition save_customers (customers : list Customer) (w : write_result)
  (e : Env) : Env :=
  let doc := JArray (map to_dict customers) in
  match w with
  | Written => set_disk e (write_file (disk e) CUSTOMER_FILE (Json doc))
  | OpenError => logging_exception e (u "save_customers failed")
  | WriteError n =>
    logging_exception
      (set_disk e (write_file (disk e) CUSTOMER_FILE (JsonPrefix doc n)))
      (u "save_customers failed")
  end.

(** ** The application object *)

(** The attributes of [ReceiptApp] that the handlers below read or write:
    the customer list, the values of the Tk variables, the rows of the
    list box with the index of the selected row, and [last_save_dir]
    ([None] while the attribute does not exist). *)
Record ReceiptApp := {
  customers : list Customer;
  customer_name_var : str;
  item_type_var : str;
  piece_count_var : str;
  weight_var : str;
  price_per_kg_var : str;
  total_var : str;
  role_var : str;
  new_customer_var : str;
  listbox : list str;
  curselection : option nat;
  last_save_dir : option str
}.

Definition set_customers (s : ReceiptApp) (cs : list Customer) : ReceiptApp :=
  {| customers := cs; customer_name_var := customer_name_var s;
     item_type_var := item_type_var s; piece_count_var := piece_count_var s;
     weight_var := weight_var s; price_per_kg_var := price_per_kg_var s;
     total_var := total_var s; role_var := role_var s;
     new_customer_var := new_customer_var s; listbox := listbox s;
     curselection := curselection s; last_save_dir := last_save_dir s |}.

Definition set_customer_name_var (s : ReceiptApp) (v : str) : ReceiptApp :=
  {| customers := customers s; customer_name_var := v;
     item_type_var := item_type_var s; piece_count_var := piece_count_var s;
     weight_var := weight_var s; price_per_kg_var := price_per_kg_var s;
     total_var := total_var s; role_var := role_var s;
     new_customer_var := new_customer_var s; listbox := listbox s;
     curselection := curselection s; last_save_dir := last_save_dir s |}.

Definition set_new_customer_var (s : ReceiptApp) (v : str) : ReceiptApp :=
  {| customers := customers s; customer_name_var := customer_name_var s;
     item_type_var := item_type_var s; piece_count_var := piece_count_var s;
     weight_var := weight_var s; price_per_kg_var := price_per_kg_var s;
     total_var := total_var s; role_var := role_var s;
     new_customer_var := v; listbox := listbox s;
     curselection := curselection s; last_save_dir := last_save_dir s |}.

(** The list box filled anew: its selection is gone. *)
Definition set_listbox (s : ReceiptApp) (rows : list str) : ReceiptApp :=
  {| customers := customers s; customer_name_var := customer_name_var s;
     item_type_var := item_type_var s; piece_count_var := piece_count_var s;
     weight_var := weight_var s; price_per_kg_var := price_per_kg_var s;
     total_var := total_var s; role_var := role_var s;
     new_customer_var := new_customer_var s; listbox := rows;
     curselection := None; last_save_dir := last_save_dir s |}.

Definition set_last_save_dir (s : ReceiptApp) (d : str) : ReceiptApp :=
  {| customers := customers s; customer_name_var := customer_name_var s;
     item_type_var := item_type_var s; piece_count_var := piece_count_var s;
     weight_var := weight_var s; price_per_kg_var := price_per_kg_var s;
     total_var := total_var s; role_var := role_var s;
     new_customer_var := new_customer_var s; listbox := listbox s;
     curselection := curselection s; last_save_dir := Some d |}.

(** The value a handler returns: Python's [None], or a boolean. *)
Inductive value :=
| PyNone
| PyBool (b : bool).

Section Directory.

Variable U : unicode.

(** [sorted(customers, key=lambda c: c.name.lower())]: a stable sort. *)
Fixpoint insert_by_key (c : Customer) (l : list Customer) : list Customer :=
  match l with
  | [] => [c]
  | d :: l' =>
    if Str.ltb (lower U (name c)) (lower U (name d)) then c :: l
    else d :: insert_by_key c l'
  end.

Definition sorted_by_key (l : list Customer) : list Customer :=
  fold_left (fun acc c => insert_by_key c acc) l [].

(** [_refresh_listbox]. *)
Definition _refresh_listbox (s : ReceiptApp) : ReceiptApp :=
  set_listbox s (map name (sorted_by_key (customers s))).

(** [_add_new_customer]: [w] is the outcome of writing the customers
    file. *)
Definition _add_new_customer (w : write_result) (s : ReceiptApp) (e : Env)
  : ReceiptApp * Env * value :=
  let raw := new_customer_var s in
  let normalized := _normalize_for_comparison U raw in
  match normalized with
  | [] => (s, messagebox e (u "Bilgi") (u "Müşteri adı boş olamaz."), PyNone)
  | _ :: _ =>
    let existing_keys :=
      map (fun c => _normalize_for_comparison U (name c)) (customers s) in
    if existsb (Str.eqb normalized) existing_keys
    then (s, messagebox e (u "Bilgi") (u "Bu müşteri zaten mevcut."), PyNone)
    else
      let display_name := _format_for_display U raw in
      let s := set_customers s (customers s ++ [Customer_named display_name]) in
      let e := save_customers (customers s) w e in
      let s := set_new_customer_var s [] in
      (_refresh_listbox s, e, PyNone)
  end.

(** [_remove_selected_customer]: [confirmed] is the answer to the
    question, [w] the outcome of writing the customers file.
    [listbox.get] of an index that is no row is the empty string. *)
Definition _remove_selected_customer (confirmed : bool) (w : write_result)
  (s : ReceiptApp) (e : Env) : ReceiptApp * Env * value :=
  match curselection s with
  | None =>
    (s, messagebox e (u "Uyarı") (u "Silmek için bir müşteri seçin."), PyNone)
  | Some sel0 =>
    let nm := nth sel0 (listbox s) [] in
    let e :=
      messagebox e (u "Sil")
        (u "'" ++ nm ++ u "' müşterisini silmek istiyor musunuz?") in
    if confirmed then
      let s :=
        set_customers s
          (filter
             (fun c =>
                negb (Str.eqb (_normalize_for_comparison U (name c))
                        (_normalize_for_comparison U nm)))
             (customers s)) in
      let e := save_customers (customers s) w e in
      let s := _refresh_listbox s in
      let s :=
        if Str.eqb (customer_name_var s) nm then set_customer_name_var s []
        else s in
      (s, e, PyNone)
    else (s, e, PyNone)
  end.

(** The part of [ReceiptApp.__init__] that sets up the directory:
    [load_customers()], then [save_customers]. *)
Definition init_customers (readable : bool) (w : write_result) (e : Env)
  : list Customer * Env :=
  let r := load_customers readable e in
  (fst r, save_customers (fst r) w (snd r)).

End Directory.

(** ** Amounts *)

(** [format(x, ".Nf")]: the decimal digits of the binary64 value [x],
    rounded to [prec] places, ties to even. *)
Fixpoint chars_of_uint (d : Decimal.uint) : str :=
  match d with
  | Decimal.Nil => []
  | Decimal.D0 d' => 48%N :: chars_of_uint d'
  | Decimal.D1 d' => 49%N :: chars_of_uint d'
  | Decimal.D2 d' => 50%N :: chars_of_uint d'
  | Decimal.D3 d' => 51%N :: chars_of_uint d'
  | Decimal.D4 d' => 52%N :: chars_of_uint d'
  | Decimal.D5 d' => 53%N :: chars_of_uint d'
  | Decimal.D6 d' => 54%N :: chars_of_uint d'
  | Decimal.D7 d' => 55%N :: chars_of_uint d'
  | Decimal.D8 d' => 56%N :: chars_of_uint d'
  | Decimal.D9 d' => 57%N :: chars_of_uint d'
  end.

(** [str(n)] for a natural number [n]. *)
Definition str_of_N (n : N) : str := chars_of_uint (N.to_uint n).

(** The digits of [scaled / 10 ^ prec]. *)
Definition fixed_point (prec : nat) (scaled : N) : str :=
  let unit := (10 ^ N.of_nat prec)%N in
  let frac := str_of_N (scaled mod unit) in
  str_of_N (scaled / unit)
  ++ match prec with
     | 0 => []
     | S _ => u "." ++ repeat 48%N (prec - length frac) ++ frac
     end.

(** [m * 2 ^ e * 10 ^ prec] rounded to an integer, ties to even. *)
Definition scale_round (prec : nat) (m : positive) (e : Z) : N :=
  let n := (Npos m * 10 ^ N.of_nat prec)%N in
  match e with
  | Zneg k =>
    let d := (2 ^ Npos k)%N in
    let q := (n / d)%N in
    let r := (n mod d)%N in
    if (d <? 2 * r)%N || ((d =? 2 * r)%N && N.odd q) then (q + 1)%N else q
  | _ => (n * 2 ^ Z.to_N e)%N
  end.

Definition format_f (prec : nat) (x : float) : str :=
  match Prim2SF x with
  | S754_nan => u "nan"
  | S754_infinity s => (if s then u "-" else []) ++ u "inf"
  | S754_zero s => (if s then u "-" else []) ++ fixed_point prec 0
  | S754_finite s m e =>
    (if s then u "-" else []) ++ fixed_point prec (scale_round prec m e)
  end.

(** [ROLE_VAT_MAP.get(role, 0.0)]: the rates are the binary64 values of
    [0.02] and [0.01]. *)
Definition ROLE_VAT_MAP_get (role : str) : float :=
  if Str.eqb role (u "Pazarcı Esnafı") then 0x1.47ae147ae147bp-6%float
  else if Str.eqb role (u "Hal İçi / Ortacı") then 0x1.47ae147ae147bp-7%float
  else 0%float.

(** The first three statements of [_generate_receipt_text]:
    [(net_total, vat_amount, total_with_vat)]. *)
Definition receipt_amounts (weight price vat_rate : float)
  : float * float * float :=
  let net_total := (weight * price)%float in
  let vat_amount := (net_total * vat_rate)%float in
  let total_with_vat := (net_total + vat_amount)%float in
  (net_total, vat_amount, total_with_vat).

(** [float(s)] on the plain decimal literals of at most 15 digits, with a
    point or without: the quotient of two integers that binary64 holds
    exactly is the correctly rounded value.  Other strings are not read
    ([None]). *)
Fixpoint digits_value (s : str) (acc : N) : option N :=
  match s with
  | [] => Some acc
  | c :: s' =>
    if ((48 <=? c) && (c <=? 57))%N then digits_value s' (acc * 10 + (c - 48))%N
    else None
  end.

Fixpoint before_point (s : str) : str * option str :=
  match s with
  | [] => ([], None)
  | c :: s' =>
    if (c =? 46)%N then ([], Some s')
    else (c :: fst (before_point s'), snd (before_point s'))
  end.

Definition float_of_N (n : N) : float :=
  PrimFloat.of_uint63 (Uint63.of_Z (Z.of_N n)).

Definition float_of_decimal (s : str) : option float :=
  let ip := fst (before_point s) in
  let fp := match snd (before_point s) with Some f => f | None => [] end in
  match length (ip ++ fp) with
  | 0 => None
  | S _ =>
    if length (ip ++ fp) <=? 15 then
      match digits_value (ip ++ fp) 0 with
      | Some n =>
        Some (float_of_N n / float_of_N (10 ^ N.of_nat (length fp)))%float
      | None => None
      end
    else None
  end.

(** ** Receipts *)

(** An exception that reaches the caller, or a normal return. *)
Inductive exn :=
| ValueError
| OSError.

Inductive outcome :=
| Returned
| Raised (x : exn).

(** [_write_receipt_atomic(path, content)]: [w] is the outcome of
    [tmp.write_text], [replaced] tells whether [tmp.replace(path)]
    succeeds.  [with_suffix] stands before the [try]. *)
Definition _write_receipt_atomic (w : write_result) (replaced : bool)
  (path : Path) (content : str) (e : Env) : Env * outcome :=
  match with_suffix path (u ".tmp") with
  | None => (e, Raised ValueError)
  | Some tmp =>
    let failed := u "Atomic write of receipt failed" in
    match w with
    | OpenError => (logging_exception e failed, Raised OSError)
    | WriteError n =>
      (logging_exception
         (set_disk e (write_file (disk e) tmp (Text (firstn n content))))
         failed,
       Raised OSError)
    | Written =>
      let e := set_disk e (write_file (disk e) tmp (Text content)) in
      if replaced
      then (set_disk e (replace_file (disk e) tmp path), Returned)
      else (logging_exception e failed, Raised OSError)
    end
  end.

(** [_do_print(file_path)]: [printed] tells whether the print command
    succeeds. *)
Definition _do_print (printed : bool) (e : Env) : Env :=
  if printed then e else logging_exception e (u "Printing failed").

Definition set_form_after_print (s : ReceiptApp) : ReceiptApp :=
  {| customers := customers s; customer_name_var := customer_name_var s;
     item_type_var := item_type_var s; piece_count_var := [];
     weight_var := []; price_per_kg_var := [];
     total_var := u "0.00"; role_var := role_var s;
     new_customer_var := new_customer_var s; listbox := listbox s;
     curselection := curselection s; last_save_dir := last_save_dir s |}.

Definition set_total_var (s : ReceiptApp) (v : str) : ReceiptApp :=
  {| customers := customers s; customer_name_var := customer_name_var s;
     item_type_var := item_type_var s; piece_count_var := piece_count_var s;
     weight_var := weight_var s; price_per_kg_var := price_per_kg_var s;
     total_var := v; role_var := role_var s;
     new_customer_var := new_customer_var s; listbox := listbox s;
     curselection := curselection s; last_save_dir := last_save_dir s |}.

(** What the user and the system answer while [print_receipt] runs: the
    answer to "save to the previous place?", the path picked in the save
    dialog ([None] when it is cancelled), the two renderings of
    [datetime.datetime.now()], and the outcomes of the file operations and
    of printing. *)
Record PrintAnswers := {
  use_prev : bool;
  chosen : option Path;
  now_text : str;
  now_file : str;
  tmp_written : write_result;
  tmp_replaced : bool;
  printed : bool
}.

Section Receipt.

Variable U : unicode.

(** [float(s)]: [None] is [ValueError]. *)
Variable float_of_str : str -> option float.

(** [str(path)]. *)
Variable str_of_Path : Path -> str.

(** [_parse_number(value)]. *)
Definition _parse_number (value : str) : float :=
  match value with
  | [] => 0%float
  | _ :: _ =>
    match float_of_str (replace1 44%N 46%N value) with
    | Some x => x
    | None => 0%float
    end
  end.

(** [calculate_total()]: setting [total_var] calls no trace. *)
Definition calculate_total (s : ReceiptApp) : ReceiptApp :=
  let weight := _parse_number (weight_var s) in
  let price := _parse_number (price_per_kg_var s) in
  let net_total := (weight * price)%float in
  let vat_rate := ROLE_VAT_MAP_get (role_var s) in
  let total_with_vat := (net_total + net_total * vat_rate)%float in
  set_total_var s
    (replace1 46%N 44%N (format_f 2 total_with_vat) ++ u " TL").

(** [_generate_receipt_text]; [now] is the rendering of the current time,
    [customer] may be [None]. *)
Definition _generate_receipt_text (s : ReceiptApp) (now : str)
  (customer : option Customer) (item_type piece_count : str)
  (weight price vat_rate : float) : str :=
  let '(net_total, vat_amount, total_with_vat) :=
    receipt_amounts weight price vat_rate in
  let nl := [10%N] in
  u "=== SEBZE-MEYVE FİŞİ ===" ++ nl
  ++ u "Tarih: " ++ now ++ nl
  ++ u "Müşteri Türü: " ++ role_var s ++ nl
  ++ u "Müşteri Adı: "
  ++ match customer with Some c => name c | None => [] end ++ nl
  ++ u "Malın Cinsi: " ++ item_type ++ nl
  ++ u "Parça Adedi: " ++ piece_count ++ nl
  ++ u "Kilo: " ++ format_f 2 weight ++ u " kg" ++ nl
  ++ u "Birim Fiyat: " ++ format_f 2 price ++ nl
  ++ u "Net Tutar: " ++ format_f 2 net_total ++ nl
  ++ u "KDV (%" ++ format_f 0 (vat_rate * 100)%float ++ u "): "
  ++ format_f 2 vat_amount ++ nl
  ++ u "Toplam: " ++ format_f 2 total_with_vat ++ nl.

(** [_clear_form_after_print]: the traces of [weight_var] and
    [price_per_kg_var] recompute [total_var], which is set last. *)
Definition _clear_form_after_print (s : ReceiptApp) : ReceiptApp :=
  set_form_after_print s.

(** The end of [print_receipt], from ["# Kaydet"] on, inside the handler's
    [try]. *)
Definition save_and_print (a : PrintAnswers) (save_path : Path)
  (receipt_text : str) (s : ReceiptApp) (e : Env) : ReceiptApp * Env * value :=
  match _write_receipt_atomic (tmp_written a) (tmp_replaced a) save_path
          receipt_text e with
  | (e, Returned) =>
    let e := _do_print (printed a) e in
    let e :=
      messagebox e (u "Tamam") (u "Fiş kaydedildi: " ++ str_of_Path save_path) in
    (_clear_form_after_print s, e, PyNone)
  | (e, Raised _) =>
    let e :=
      logging_exception e (u "print_receipt failed during overall process") in
    (s,
     messagebox e (u "Hata")
       (u "Fiş oluşturulurken beklenmedik bir hata oluştu. Lütfen tekrar deneyin."),
     PyNone)
  end.

(** The save dialog of [print_receipt]: the path picked becomes
    [save_path], its directory [last_save_dir]. *)
Definition ask_save_path (a : PrintAnswers) (receipt_text : str)
  (s : ReceiptApp) (e : Env) : ReceiptApp * Env * value :=
  match chosen a with
  | None => (s, e, PyNone)
  | Some save_path =>
    save_and_print a save_path receipt_text
      (set_last_save_dir s (parent save_path)) e
  end.

(** [print_receipt]. *)
Definition print_receipt (a : PrintAnswers) (s : ReceiptApp) (e : Env)
  : ReceiptApp * Env * value :=
  let customer_name := strip (customer_name_var s) in
  match customer_name with
  | [] => (s, messagebox e (u "Eksik") (u "Müşteri adı boş olamaz."), PyNone)
  | _ :: _ =>
    let weight := _parse_number (weight_var s) in
    let price := _parse_number (price_per_kg_var s) in
    if (weight <=? 0)%float
    then (s, messagebox e (u "Geçersiz") (u "Kilo pozitif bir sayı olmalı."),
          PyNone)
    else if (price <=? 0)%float
    then (s, messagebox e (u "Geçersiz")
               (u "Birim fiyat pozitif bir sayı olmalı."), PyNone)
    else
      let customer :=
        match _find_customer_by_name U (customers s) customer_name with
        | Some c => c
        | None => Customer_named (_format_for_display U customer_name)
        end in
      let vat_rate := ROLE_VAT_MAP_get (role_var s) in
      let receipt_text :=
        _generate_receipt_text s (now_text a) (Some customer)
          (item_type_var s) (piece_count_var s) weight price vat_rate in
      match last_save_dir s with
      | Some (d0 :: d) =>
        let e :=
          messagebox e (u "Kaydetme yeri")
            (u "Önceki konuma kaydetmek istiyor musunuz?" ++ [10%N] ++ d0 :: d) in
        if use_prev a then
          let filename := u "fis_" ++ now_file a ++ u ".txt" in
          save_and_print a {| parent := d0 :: d; fname := filename |}
            receipt_text s e
        else ask_save_path a receipt_text s e
      | _ => ask_save_path a receipt_text s e
      end
  end.

End Receipt.

(** ** Notions for the properties *)




(** The normalized names of a directory. *)
Definition keys (U : unicode) (cs : list Customer) : list str :=
  map (fun c => _normalize_for_comparison U (name c)) cs.


(** The application right after [__init__] found no customers file, and
    the outside with no file at all. *)
Definition fresh_app : ReceiptApp :=
  {| customers := []; customer_name_var := []; item_type_var := u "ŞEFTALİ";
     piece_count_var := []; weight_var := []; price_per_kg_var := [];
     total_var := u "0.00"; role_var := u "Pazarcı Esnafı";
     new_customer_var := []; listbox := []; curselection := None;
     last_save_dir := None |}.

Definition no_files : Env :=
  {| disk := fun _ => None; log := []; shown := [] |}.

(** The user types [raw] in the entry of the new customer and presses
    "Müşteri Ekle"; the customers file is written. *)
Definition add_customer (U : unicode) (raw : str) (st : ReceiptApp * Env)
  : ReceiptApp * Env :=
  fst (_add_new_customer U Written (set_new_customer_var (fst st) raw) (snd st)).

(** Display-casing keeps the key of [raw]. *)
Definition key_kept (U : unicode) (raw : str) : Prop :=
  _normalize_for_comparison U (_format_for_display U raw)
  = _normalize_for_comparison U raw.


(** The user selects row [i] of the list box. *)
Definition select_row (s : ReceiptApp) (i : nat) : ReceiptApp :=
  {| customers := customers s; customer_name_var := customer_name_var s;
     item_type_var := item_type_var s; piece_count_var := piece_count_var s;
     weight_var := weight_var s; price_per_kg_var := price_per_kg_var s;
     total_var := total_var s; role_var := role_var s;
     new_customer_var := new_customer_var s; listbox := listbox s;
     curselection := Some i; last_save_dir := last_save_dir s |}.

(** "Ali" is added to the empty directory; then the row of "Ali" is
    selected and removed. *)
Definition ali_added : ReceiptApp :=
  fst (fst (_add_new_customer Ucd.py Written
              (set_new_customer_var fresh_app (u "Ali")) no_files)).

Definition ali_removed : ReceiptApp :=
  fst (fst (_remove_selected_customer Ucd.py true Written
              (select_row ali_added 0) no_files)).

(** "Ali" is stored and shown in the list box; the user selects the row. *)
Definition ali_selected : ReceiptApp :=
  select_row (fst (add_customer Ucd.py (u "Ali") (fresh_app, no_files))) 0.

(** A receipt for "Zeynep", who is not stored, saved as "fis.txt" next to
    the customers file. *)
Definition zeynep_form : ReceiptApp * Env :=
  let st := add_customer Ucd.py (u "Ali") (fresh_app, no_files) in
  ({| customers := customers (fst st); customer_name_var := u "zeynep";
      item_type_var := u "ELMA"; piece_count_var := u "2";
      weight_var := u "12,5"; price_per_kg_var := u "5";
      total_var := u "63,75 TL"; role_var := u "Pazarcı Esnafı";
      new_customer_var := []; listbox := listbox (fst st);
      curselection := None; last_save_dir := None |}, snd st).

Definition zeynep_answers : PrintAnswers :=
  {| use_prev := false;
     chosen := Some {| parent := u "."; fname := u "fis.txt" |};
     now_text := u "2026-01-05 10:00:00"; now_file := u "20260105_100000";
     tmp_written := Written; tmp_replaced := true; printed := true |}.

(** ** Notions for the properties of [difflib] *)

(** The [k] elements of [a] from [i] are the [k] elements of [b] from
    [j]. *)
Definition same (a b : str) (i j k : nat) : Prop :=
  forall t, t < k -> nth (i + t) a 0%N = nth (j + t) b 0%N.

(** A block inside the window [a[alo:ahi]], [b[blo:bhi]]. *)
Definition block_ok (a b : str) (alo ahi blo bhi : nat) (m : difflib.Match)
  : Prop :=
  alo <= fst (fst m) /\ fst (fst m) + snd m <= ahi
  /\ blo <= snd (fst m) /\ snd (fst m) + snd m <= bhi
  /\ same a b (fst (fst m)) (snd (fst m)) (snd m).

(** An entry [(j, k)] of [j2len] for a match of length [k] that ends before
    [a[ei]] and with [b[j]]. *)
Definition ends_ok (a b : str) (alo blo bhi ei : nat) (x : nat * nat) : Prop :=
  1 <= snd x /\ snd x <= ei /\ snd x <= fst x + 1 /\ alo <= ei - snd x
  /\ blo <= fst x + 1 - snd x /\ fst x < bhi
  /\ same a b (ei - snd x) (fst x + 1 - snd x) (snd x).

(** The total size of a list of blocks. *)
Definition total (l : list difflib.Match) : nat := list_sum (map snd l).

(** A window of the queue lies in [a] and [b]. *)
Definition window_ok (a b : str) (w : nat * nat * nat * nat) : Prop :=
  let '(alo, ahi, blo, bhi) := w in
  alo <= ahi /\ ahi <= length a /\ blo <= bhi /\ bhi <= length b.

(** The iterations that a queue can still take. *)
Definition weight (queue : list (nat * nat * nat * nat)) : nat :=
  list_sum (map (fun '(alo, ahi, _, _) => 2 * (ahi - alo) + 1) queue).

(** [s[lo:hi]]. *)
Definition slice (s : str) (lo hi : nat) : str := firstn (hi - lo) (skipn lo s).

(** The occurrences of [c] in [s], and the elements that [x] and [y] have
    in common, counted over the alphabet [al]. *)
Definition count (s : str) (c : char) : nat := count_occ N.eq_dec s c.

Definition common (al : list char) (x y : str) : nat :=
  list_sum (map (fun c => Nat.min (count x c) (count y c)) al).

(** The alphabet of [a]. *)
Definition alphabet (a : str) : list char := nodup N.eq_dec a.

(** [numb] in [quick_ratio]. *)
Definition numb (b : str) (avail : list (char * Z)) (elt : char) : Z :=
  match difflib.avail_get avail elt with
  | Some n => n
  | None => difflib.fullbcount elt b
  end.

(** The number of matches of [ratio]. *)
Definition matches (a b : str) : nat :=
  list_sum (map snd (difflib.get_matching_blocks a b)).

(** ** The list box and the name entry *)

(** [_on_listbox_select]: the row selected goes to the name entry;
    [listbox.get] of an index that is no row is the empty string. *)
Definition _on_listbox_select (s : ReceiptApp) : ReceiptApp :=
  match curselection s with
  | None => s
  | Some sel0 => set_customer_name_var s (nth sel0 (listbox s) [])
  end.

(** ** Notions for the properties of [print_receipt] *)

(** The form passes the three tests of [print_receipt]: the name is not
    blank, and neither [weight <= 0] nor [price <= 0] holds. *)
Definition valid_form (float_of_str : str -> option float) (s : ReceiptApp)
  : Prop :=
  strip (customer_name_var s) <> []
  /\ (_parse_number float_of_str (weight_var s) <=? 0)%float = false
  /\ (_parse_number float_of_str (price_per_kg_var s) <=? 0)%float = false.

(** The customer of the receipt: the one looked up, or a record made for
    the display-cased name. *)
Definition receipt_customer (U : unicode) (s : ReceiptApp) : Customer :=
  match _find_customer_by_name U (customers s) (strip (customer_name_var s))
  with
  | Some c => c
  | None => Customer_named (_format_for_display U (strip (customer_name_var s)))
  end.

(** The text of the receipt for the form as it stands. *)
Definition receipt_text_of (U : unicode) (float_of_str : str -> option float)
  (s : ReceiptApp) (now : str) : str :=
  _generate_receipt_text s now (Some (receipt_customer U s))
    (item_type_var s) (piece_count_var s)
    (_parse_number float_of_str (weight_var s))
    (_parse_number float_of_str (price_per_kg_var s))
    (ROLE_VAT_MAP_get (role_var s)).

(** The file of the previous directory that a receipt goes to. *)
Definition previous_dir_path (a : PrintAnswers) (dir : str) : Path :=
  {| parent := dir; fname := u "fis_" ++ now_file a ++ u ".txt" |}.

(** The path the receipt is saved under, [None] when the save dialog is
    cancelled. *)
Definition save_path_of (a : PrintAnswers) (s : ReceiptApp) : option Path :=
  match last_save_dir s with
  | Some (d0 :: d) =>
    if use_prev a then Some (previous_dir_path a (d0 :: d)) else chosen a
  | _ => chosen a
  end.

(** [float(s)] on ["nan"] and on the plain decimal literals. *)
Definition float_of_literal (s : str) : option float :=
  if Str.eqb s (u "nan") then Some nan else float_of_decimal s.

(** The form of "Zeynep" with "nan" typed as the weight. *)
Definition nan_form : ReceiptApp :=
  {| customers := customers (fst zeynep_form); customer_name_var := u "zeynep";
     item_type_var := u "ELMA"; piece_count_var := u "2";
     weight_var := u "nan"; price_per_kg_var := u "5";
     total_var := u "nan TL"; role_var := u "Pazarcı Esnafı";
     new_customer_var := []; listbox := listbox (fst zeynep_form);
     curselection := None; last_save_dir := None |}.

(** ** Filtering the list box while a name is typed *)

(** [p in s] on strings. *)
Fixpoint contains (s p : str) : bool :=
  startswith s p
  || match s with
     | [] => false
     | _ :: s' => contains s' p
     end.

(** [heapq.nlargest(n, result)] on scored items that differ from one
    another, as the items of [get_close_matches] do when the possibilities
    are the keys of a dict: the [n] greatest, the greatest first. *)
Fixpoint insert_desc (item : Q * str) (l : list (Q * str)) : list (Q * str) :=
  match l with
  | [] => [item]
  | x :: l' =>
    if difflib.scored_gtb item x then item :: l else x :: insert_desc item l'
  end.

Definition nlargest (n : nat) (result : list (Q * str)) : list (Q * str) :=
  firstn n (fold_right insert_desc [] result).

(** [difflib.get_close_matches(word, possibilities, n, cutoff)]. *)
Definition get_close_matches_n (word : str) (possibilities : list str)
  (n : nat) (cutoff : Q) : list str :=
  let result :=
    map (fun x => (difflib.ratio x word, x))
        (filter (difflib.close_enough word cutoff) possibilities) in
  map snd (nlargest n result).

Section Typing.

Variable U : unicode.

(** The order in which a [set] gives its elements, as a function of the
    elements added, in the order of the additions: the interpreter fixes
    it by hash values. *)
Variable set_order : list str -> list str.

(** [sorted(matches, key=lambda x: x.lower())]: a stable sort. *)
Fixpoint insert_by_lower (x : str) (l : list str) : list str :=
  match l with
  | [] => [x]
  | y :: l' =>
    if Str.ltb (lower U x) (lower U y) then x :: l
    else y :: insert_by_lower x l'
  end.

Definition sorted_by_lower (l : list str) : list str :=
  fold_left (fun acc x => insert_by_lower x acc) l [].

(** [_on_name_typing]: [normalized_map] is the dict of
    [_find_customer_by_name] with the name of the customer in place of the
    customer; its keys are the possibilities, so each key of [close] has a
    value. *)
Definition _on_name_typing (s : ReceiptApp) : ReceiptApp :=
  let typed_raw := customer_name_var s in
  let norm_typed := _normalize_for_comparison U typed_raw in
  let substring :=
    match norm_typed with
    | [] => []
    | _ :: _ =>
      map name
        (filter
           (fun c => contains (_normalize_for_comparison U (name c)) norm_typed)
           (customers s))
    end in
  let normalized_map := candidates_of U (customers s) in
  let close :=
    match norm_typed with
    | [] => []
    | _ :: _ =>
      get_close_matches_n norm_typed (map fst normalized_map) 10 (6 # 10)
    end in
  let fuzzy :=
    flat_map
      (fun key =>
         match dict_get normalized_map key with
         | Some c => [name c]
         | None => []
         end)
      close in
  let matches := set_order (substring ++ fuzzy) in
  let s := set_listbox s (sorted_by_lower matches) in
  match typed_raw with
  | [] => _refresh_listbox U s
  | _ :: _ => s
  end.

End Typing.

(** The elements of a set in the order of their first addition: one of the
    orders that [set_order] can be. *)
Definition first_added (l : list str) : list str :=
  rev (nodup (list_eq_dec N.eq_dec) (rev l)).

(** ** Names whose key display-casing keeps *)

(** The plain characters: ASCII and the letters
    Ç ç Ğ ğ ı Ö ö Ş ş Ü ü Â â Î î Û û. *)
Definition plain_letters : list char :=
  [199; 231; 286; 287; 305; 214; 246; 350; 351; 220; 252; 194; 226; 206; 238;
   219; 251]%N.

Definition plain_chars : list char :=
  map N.of_nat (seq 0 128) ++ plain_letters.

Definition plain (c : char) : bool :=
  (c <? 128)%N || existsb (N.eqb c) plain_letters.

(** The word starts with "i", "I" or "ı". *)
Definition initial_i (w : str) : bool :=
  match w with
  | c :: _ => ((c =? 105) || (c =? 73) || (c =? 305))%N
  | [] => false
  end.

(** A name of plain characters in which no word starts with "i", "I" or
    "ı". *)
Definition plain_name (raw : str) : bool :=
  forallb plain raw && forallb (fun w => negb (initial_i w)) (split raw).

(** The mapping of a character whose entry in a table is one character. *)
Definition map1 (t : list (char * str)) (c : char) : char :=
  match Ucd.mapped t c with
  | [x] => x
  | _ => c
  end.

(** What the tables say of a plain character: its lowercase, titlecase and
    folded forms are one character each, the first two plain and no
    white space unless the character is; folding undoes lowercasing, and
    titlecasing but for "ı"; only "i" and "I" have the lowercase form "i";
    the character is its own decomposition and a starter, or decomposes
    into a starter and a mark that compose to it. *)
Definition plain_facts (c : char) : bool :=
  let lo := map1 Ucd.lower_tbl in
  let ti := map1 Ucd.title_tbl in
  let fo := map1 Ucd.fold_tbl in
  Str.eqb (Ucd.mapped Ucd.lower_tbl c) [lo c] && plain (lo c)
  && Str.eqb (Ucd.mapped Ucd.title_tbl c) [ti c] && plain (ti c)
  && Str.eqb (Ucd.mapped Ucd.fold_tbl c) [fo c]
  && (fo (lo (lo c)) =? fo c)%N
  && ((c =? 305) || (fo (ti (lo c)) =? fo c))%N
  && Bool.eqb (lo c =? 105)%N ((c =? 105) || (c =? 73))%N
  && (isspace c || negb (isspace (lo c)) && negb (isspace (ti c)))
  && (Ucd.ccc c =? 0)%N
  && match Ucd.mapped Ucd.kd_tbl c with
     | [x] => (x =? c)%N
     | [b; m] =>
       (Ucd.ccc b =? 0)%N && (0 <? Ucd.ccc m)%N
       && match Ucd.composite b m Ucd.comp_tbl with
          | Some y => (y =? c)%N
          | None => false
          end
     | _ => false
     end.


(** * Properties *)

(** ** Examples of the embedded functions *)

Example utf8_dotted_I : u "İı" = [304; 305]%N.
Proof. reflexivity. Qed.

Example split_example : split (u "  Ali   Veli ") = [u "Ali"; u "Veli"].
Proof. reflexivity. Qed.

Example normalize_istanbul :
  _normalize_for_comparison Ucd.py (u "  İSTANBUL   Hali ") = u "i̇stanbul hali".
Proof. vm_compute. reflexivity. Qed.

Example display_istanbul :
  _format_for_display Ucd.py (u "istanbul  HALİ") = u "İstanbul Hali̇".
Proof. vm_compute. reflexivity. Qed.

Example find_exact :
  _find_customer_by_name Ucd.py
    [Customer_named (u "Ahmet"); Customer_named (u "Ahmed")] (u " AHMED ")
  = Some (Customer_named (u "Ahmed")).
Proof. vm_compute. reflexivity. Qed.

Example find_fuzzy :
  _find_customer_by_name Ucd.py
    [Customer_named (u "Mehmet"); Customer_named (u "Ahmet")] (u "ahmed")
  = Some (Customer_named (u "Ahmet")).
Proof. vm_compute. reflexivity. Qed.

Example find_none :
  _find_customer_by_name Ucd.py
    [Customer_named (u "Mehmet"); Customer_named (u "Ahmet")] (u "Zeynep")
  = None.
Proof. vm_compute. reflexivity. Qed.

Example format_examples :
  map (format_f 2)
    [0x1.9p+3; 0x1.3333333333333p+0; 0x1.0147ae147ae14p+0; 0x1.8p-8;
     0x1.47ae147ae147bp-6; 0x1.4p-7; (-0x1p-10); 0x1.869fffeb851ecp+16]%float
  = [u "12.50"; u "1.20"; u "1.00"; u "0.01"; u "0.02"; u "0.01"; u "-0.00";
     u "100000.00"]
  /\ map (format_f 0) [0x1p+1; 0x1.4p+1; 0x1.cp+1; 0x1p-1; 0x1.8p+0]%float
     = [u "2"; u "2"; u "4"; u "0"; u "2"].
Proof. vm_compute. split; reflexivity. Qed.

Example decimal_examples :
  map float_of_decimal [u "12.5"; u "0.02"; u "5"; u "."; u "1.2.3"; u ".5"]
  = [Some 0x1.9p+3; Some 0x1.47ae147ae147bp-6; Some 0x1.4p+2; None; None;
     Some 0x1p-1]%float.
Proof. vm_compute. reflexivity. Qed.

(** ** Strings *)

Lemma eqb_eq (s t : str) : Str.eqb s t = true <-> s = t.
Proof.
  revert t. induction s as [|c s IH]; intros [|d t]; simpl;
    try (split; [discriminate | discriminate]); try tauto.
  rewrite andb_true_iff, N.eqb_eq, IH. split.
  - intros [-> ->]. reflexivity.
  - intros H. injection H as -> ->. auto.
Qed.

Lemma eqb_refl (s : str) : Str.eqb s s = true.
Proof. apply eqb_eq. reflexivity. Qed.

Lemma eqb_neq (s t : str) : Str.eqb s t = false <-> s <> t.
Proof.
  rewrite <- eqb_eq. destruct (Str.eqb s t); split; congruence.
Qed.

Lemma eqb_sym (s t : str) : Str.eqb s t = Str.eqb t s.
Proof.
  destruct (Str.eqb t s) eqn:E.
  - apply eqb_eq in E. subst. apply eqb_refl.
  - apply eqb_neq. apply eqb_neq in E. congruence.
Qed.



Lemma join_cons (sep w : str) (ws : list str) :
  join sep (w :: ws)
  = match ws with [] => w | _ :: _ => w ++ sep ++ join sep ws end.
Proof. destruct ws; reflexivity. Qed.


Lemma split_from_spaces (w t : str) :
  forallb isspace t = true ->
  split_from w t = match w with [] => [] | _ :: _ => [rev w] end.
Proof.
  revert w. induction t as [|c t IH]; intros w H; simpl in *; [reflexivity|].
  apply andb_true_iff in H as [-> H].
  destruct w; rewrite IH by exact H; reflexivity.
Qed.

Lemma split_from_app_spaces (w s t : str) :
  forallb isspace t = true -> split_from w (s ++ t) = split_from w s.
Proof.
  intros H. revert w. induction s as [|c s IH]; intros w; simpl.
  - rewrite split_from_spaces by exact H. reflexivity.
  - destruct (isspace c); [destruct w|]; now rewrite IH.
Qed.

Lemma lstrip_spec (s : str) :
  exists t, s = t ++ lstrip s /\ forallb isspace t = true.
Proof.
  induction s as [|c s (t & E & H)]; simpl.
  - exists []. auto.
  - destruct (isspace c) eqn:Ec.
    + exists (c :: t). simpl. rewrite Ec, H. split; [congruence | reflexivity].
    + exists []. auto.
Qed.

Lemma rstrip_spec (s : str) :
  exists t, s = rstrip s ++ t /\ forallb isspace t = true.
Proof.
  unfold rstrip. destruct (lstrip_spec (rev s)) as (t & E & H).
  exists (rev t). split.
  - rewrite <- rev_app_distr, <- E. now rewrite rev_involutive.
  - rewrite forallb_forall in *. intros x Hx. apply H. now apply in_rev.
Qed.

Lemma split_lstrip (s : str) : split (lstrip s) = split s.
Proof.
  unfold split. induction s as [|c s IH]; simpl; [reflexivity|].
  destruct (isspace c) eqn:E; [exact IH|]. simpl. now rewrite E.
Qed.

Lemma split_rstrip (s : str) : split (rstrip s) = split s.
Proof.
  destruct (rstrip_spec s) as (t & E & H). unfold split.
  rewrite E at 2. now rewrite split_from_app_spaces.
Qed.

Lemma split_strip (s : str) : split (strip s) = split s.
Proof. unfold strip. now rewrite split_rstrip, split_lstrip. Qed.


(** ** The directory: keys, adding and removing *)

Lemma existsb_eqb_In (k : str) (l : list str) :
  existsb (Str.eqb k) l = true <-> In k l.
Proof.
  rewrite existsb_exists. split.
  - intros (x & Hx & E). apply eqb_eq in E. now subst.
  - intros H. exists k. split; [exact H | apply eqb_refl].
Qed.

Lemma customers_refresh (U : unicode) (s : ReceiptApp) :
  customers (_refresh_listbox U s) = customers s.
Proof. reflexivity. Qed.


Lemma add_duplicate (U : unicode) w s e :
  _normalize_for_comparison U (new_customer_var s) <> [] ->
  In (_normalize_for_comparison U (new_customer_var s)) (keys U (customers s)) ->
  _add_new_customer U w s e
  = (s, messagebox e (u "Bilgi") (u "Bu müşteri zaten mevcut."), PyNone).
Proof.
  intros Hne Hin. unfold _add_new_customer.
  destruct (_normalize_for_comparison U (new_customer_var s)) eqn:E;
    [congruence|].
  apply existsb_eqb_In in Hin. unfold keys in Hin. now rewrite Hin.
Qed.

Lemma add_fresh (U : unicode) w s e :
  _normalize_for_comparison U (new_customer_var s) <> [] ->
  ~ In (_normalize_for_comparison U (new_customer_var s))
       (keys U (customers s)) ->
  let cs :=
    customers s
    ++ [Customer_named (_format_for_display U (new_customer_var s))] in
  customers (fst (fst (_add_new_customer U w s e))) = cs
  /\ new_customer_var (fst (fst (_add_new_customer U w s e))) = []
  /\ snd (fst (_add_new_customer U w s e)) = save_customers cs w e
  /\ snd (_add_new_customer U w s e) = PyNone.
Proof.
  intros Hne Hin cs. unfold _add_new_customer.
  destruct (_normalize_for_comparison U (new_customer_var s)) eqn:E;
    [congruence|].
  destruct (existsb _ _) eqn:Ex.
  - exfalso. apply Hin. apply existsb_eqb_In. exact Ex.
  - simpl. auto.
Qed.

Lemma save_written cs e :
  disk (save_customers cs Written e) CUSTOMER_FILE
  = Some (Json (JArray (map to_dict cs))).
Proof. reflexivity. Qed.

Lemma from_dicts_to_dict cs : from_dicts (map to_dict cs) = Some cs.
Proof.
  induction cs as [|c cs IH]; simpl; [reflexivity|].
  rewrite IH. destruct c. reflexivity.
Qed.

Lemma keys_app U cs ds : keys U (cs ++ ds) = keys U cs ++ keys U ds.
Proof. apply map_app. Qed.




(** C3 (the code at the failing input): the display form of "istanbul" is
    "İstanbul", whose normalized key is "i" followed by U+0307 and
    "stanbul", while the key of "istanbul" is "istanbul": display-casing
    changes the key. *)
Theorem display_changes_key :
  _format_for_display Ucd.py (u "istanbul") = u "İstanbul"
  /\ _normalize_for_comparison Ucd.py
       (_format_for_display Ucd.py (u "istanbul"))
     = [105; 775]%N ++ u "stanbul"
  /\ _normalize_for_comparison Ucd.py (u "istanbul") = u "istanbul"
  /\ Str.eqb
       (_normalize_for_comparison Ucd.py
          (_format_for_display Ucd.py (u "istanbul")))
       (_normalize_for_comparison Ucd.py (u "istanbul")) = false.
Proof. vm_compute. repeat split; reflexivity. Qed.

(** C5 (the code at the failing input): adding "istanbul" twice stores two
    customers, both named "İstanbul", shows no notice, and writes both to
    the customers file. *)
Theorem add_twice_stores_two :
  let st := add_customer Ucd.py (u "istanbul")
              (add_customer Ucd.py (u "istanbul") (fresh_app, no_files)) in
  customers (fst st)
  = [Customer_named (u "İstanbul"); Customer_named (u "İstanbul")]
  /\ shown (snd st) = []
  /\ disk (snd st) CUSTOMER_FILE
     = Some (Json (JArray [to_dict (Customer_named (u "İstanbul"));
                           to_dict (Customer_named (u "İstanbul"))])).
Proof. vm_compute. repeat split; reflexivity. Qed.

(** What does hold for names whose key display-casing keeps: the second of
    two adds that differ by case and spacing only is refused. *)
Example add_twice_ali :
  let st := add_customer Ucd.py (u "  ALI   veli")
              (add_customer Ucd.py (u "Ali Veli") (fresh_app, no_files)) in
  customers (fst st) = [Customer_named (u "Ali Veli")]
  /\ shown (snd st) = [(u "Bilgi", u "Bu müşteri zaten mevcut.")].
Proof. vm_compute. repeat split; reflexivity. Qed.

(** Two adds that differ by composition only: "Şule" with U+015E, then
    with S followed by U+0327. *)
Example add_twice_composed :
  let st := add_customer Ucd.py ([83; 807]%N ++ u "ule")
              (add_customer Ucd.py (u "Şule") (fresh_app, no_files)) in
  customers (fst st) = [Customer_named (u "Şule")]
  /\ shown (snd st) = [(u "Bilgi", u "Bu müşteri zaten mevcut.")].
Proof. vm_compute. repeat split; reflexivity. Qed.

(** Similarity plays no part in adding: "Ahmed" is added next to "Ahmet",
    which the lookup finds for "ahmed" while "Ahmed" is not stored. *)
Example add_similar :
  let st := add_customer Ucd.py (u "Ahmet") (fresh_app, no_files) in
  _find_customer_by_name Ucd.py (customers (fst st)) (u "ahmed")
  = Some (Customer_named (u "Ahmet"))
  /\ customers (fst (add_customer Ucd.py (u "Ahmed") st))
     = [Customer_named (u "Ahmet"); Customer_named (u "Ahmed")].
Proof. vm_compute. repeat split; reflexivity. Qed.

(** ** Normalization *)




Example normalize_examples :
  map (_normalize_for_comparison Ucd.py)
    [u "  Ali   VELİ "; [12288; 65; 160; 66; 9]%N; [83; 807]%N ++ u "ULE"]
  = [u "ali veli" ++ [775]%N; u "a b"; u "şule"].
Proof. vm_compute. reflexivity. Qed.

(** ** The invariant of the directory *)

Lemma load_takes_entries readable e items cs :
  disk e CUSTOMER_FILE = Some (Json (JArray items)) ->
  from_dicts items = Some cs ->
  readable = true ->
  load_customers readable e = (cs, e).
Proof.
  intros Hd Hf ->. unfold load_customers. now rewrite Hd, Hf.
Qed.


Lemma remove_customers (U : unicode) confirmed w s e :
  customers (fst (fst (_remove_selected_customer U confirmed w s e)))
  = match curselection s with
    | Some i =>
      if confirmed then
        filter
          (fun c =>
             negb (Str.eqb (_normalize_for_comparison U (name c))
                     (_normalize_for_comparison U (nth i (listbox s) []))))
          (customers s)
      else customers s
    | None => customers s
    end.
Proof.
  unfold _remove_selected_customer.
  destruct (curselection s); [|reflexivity].
  destruct confirmed; [|reflexivity]. simpl.
  match goal with |- context [if ?b then _ else _] => destruct b end;
    reflexivity.
Qed.






Example ali_added_removed :
  customers ali_added = [Customer_named (u "Ali")]
  /\ customers ali_removed = [].
Proof. vm_compute. split; reflexivity. Qed.

(** ** Removing *)



Lemma remove_env (U : unicode) w s e i :
  curselection s = Some i ->
  snd (fst (_remove_selected_customer U true w s e))
  = save_customers
      (customers (fst (fst (_remove_selected_customer U true w s e)))) w
      (messagebox e (u "Sil")
         (u "'" ++ nth i (listbox s) []
          ++ u "' müşterisini silmek istiyor musunuz?")).
Proof.
  intros H. unfold _remove_selected_customer. rewrite H. simpl.
  match goal with |- context [if ?b then _ else _] => destruct b end;
    reflexivity.
Qed.



(** ** Amounts *)




Example total_shown :
  total_var
    (calculate_total float_of_decimal
       {| customers := []; customer_name_var := []; item_type_var := [];
          piece_count_var := []; weight_var := u "10"; price_per_kg_var := u "5";
          total_var := []; role_var := u "Pazarcı Esnafı";
          new_customer_var := []; listbox := []; curselection := None;
          last_save_dir := None |})
  = u "51,00 TL".
Proof. vm_compute. reflexivity. Qed.

(** ** Reading numbers *)

(** C8: two strings that differ only in [","] against ["."] are read as
    the same number, so ["12,5"] is read as ["12.5"] is, which the decimal
    reader gives as 12.5; the empty string and every string that [float]
    refuses are read as 0.0, and no error results. *)
Theorem parse_number_spec (float_of_str : str -> option float) (v v' : str) :
  (replace1 44%N 46%N v = replace1 44%N 46%N v' ->
   _parse_number float_of_str v = _parse_number float_of_str v')
  /\ _parse_number float_of_str (u "12,5")
     = _parse_number float_of_str (u "12.5")
  /\ _parse_number float_of_decimal (u "12,5") = 0x1.9p+3%float
  /\ _parse_number float_of_str [] = 0%float
  /\ (float_of_str (replace1 44%N 46%N v) = None ->
      _parse_number float_of_str v = 0%float)
  /\ (forall x, v <> [] -> float_of_str (replace1 44%N 46%N v) = Some x ->
      _parse_number float_of_str v = x).
Proof.
  repeat split.
  - intros E. unfold _parse_number.
    destruct v as [|c v], v' as [|c' v']; try reflexivity;
      try discriminate E.
    now rewrite E.
  - intros H. unfold _parse_number. destruct v; [reflexivity|].
    now rewrite H.
  - intros x Hv H. unfold _parse_number. destruct v; [congruence|].
    now rewrite H.
Qed.

Example parse_examples :
  map (_parse_number float_of_decimal)
    [u "12,5"; u "12.5"; []; u "abc"; u "1,234.5"; u "0,02"]
  = [0x1.9p+3; 0x1.9p+3; 0; 0; 0; 0x1.47ae147ae147bp-6]%float.
Proof. vm_compute. reflexivity. Qed.

(** ** Writing a receipt *)

Lemma Path_eqb_eq (p q : Path) : Path_eqb p q = true <-> p = q.
Proof.
  unfold Path_eqb. rewrite andb_true_iff, !eqb_eq.
  destruct p, q; simpl. split.
  - intros [-> ->]. reflexivity.
  - intros H. injection H. auto.
Qed.

Lemma Path_eqb_refl (p : Path) : Path_eqb p p = true.
Proof. now apply Path_eqb_eq. Qed.

Lemma Path_eqb_neq (p q : Path) : p <> q -> Path_eqb p q = false.
Proof.
  intros H. destruct (Path_eqb p q) eqn:E; [|reflexivity].
  apply Path_eqb_eq in E. contradiction.
Qed.

Lemma write_file_other fs p f q : q <> p -> write_file fs p f q = fs q.
Proof. intros H. unfold write_file. now rewrite Path_eqb_neq. Qed.

Lemma write_file_same fs p f : write_file fs p f p = Some f.
Proof. unfold write_file. now rewrite Path_eqb_refl. Qed.

Lemma replace_file_other fs src dst q :
  q <> src -> q <> dst -> replace_file fs src dst q = fs q.
Proof.
  intros H1 H2. unfold replace_file. now rewrite !Path_eqb_neq.
Qed.

Lemma replace_file_dst fs src dst : replace_file fs src dst dst = fs src.
Proof. unfold replace_file. now rewrite Path_eqb_refl. Qed.

(** A file that is neither the target nor the temporary file is left
    alone. *)
Lemma write_receipt_other w replaced path content e tmp q :
  with_suffix path (u ".tmp") = Some tmp ->
  q <> path -> q <> tmp ->
  disk (fst (_write_receipt_atomic w replaced path content e)) q = disk e q.
Proof.
  intros Ht H1 H2. unfold _write_receipt_atomic. rewrite Ht.
  destruct w; simpl; [destruct replaced; simpl| |].
  - now rewrite replace_file_other, write_file_other.
  - now rewrite write_file_other.
  - reflexivity.
  - now rewrite write_file_other.
Qed.

(** For a target that is not its own temporary file: the target holds its
    previous content or the whole new content; a failure leaves the
    previous content, is logged and is raised. *)
Lemma write_receipt_atomic_other_suffix w replaced path content e tmp :
  with_suffix path (u ".tmp") = Some tmp ->
  tmp <> path ->
  let r := _write_receipt_atomic w replaced path content e in
  (snd r = Returned /\ disk (fst r) path = Some (Text content)
   /\ log (fst r) = log e)
  \/ (snd r = Raised OSError /\ disk (fst r) path = disk e path
      /\ log (fst r) = log e ++ [u "Atomic write of receipt failed"]).
Proof.
  intros Ht Hne r. unfold r, _write_receipt_atomic. rewrite Ht.
  assert (Hne' : path <> tmp) by congruence.
  destruct w; simpl; [destruct replaced; simpl| |].
  - left. now rewrite replace_file_dst, write_file_same.
  - right. now rewrite write_file_other.
  - right. auto.
  - right. now rewrite write_file_other.
Qed.

(** C2 (the code at the failing input): the target "fis.tmp" is its own
    temporary file; a write that fails after four characters leaves these
    four characters in the target, in place of the previous receipt. *)
Theorem write_receipt_partial :
  let path := {| parent := u "."; fname := u "fis.tmp" |} in
  let e := set_disk no_files
             (write_file (disk no_files) path (Text (u "Toplam: 51.00"))) in
  let r := _write_receipt_atomic (WriteError 4) true path
             (u "Toplam: 99.00") e in
  with_suffix path (u ".tmp") = Some path
  /\ disk e path = Some (Text (u "Toplam: 51.00"))
  /\ disk (fst r) path = Some (Text (u "Topl"))
  /\ snd r = Raised OSError
  /\ log (fst r) = [u "Atomic write of receipt failed"].
Proof. vm_compute. repeat split; reflexivity. Qed.

Example with_suffix_examples :
  map (fun n => with_suffix {| parent := u "."; fname := n |} (u ".tmp"))
    [u "fis.txt"; u "fis"; u ".gizli"; u "a.b.txt"; u "fis."; []]
  = [Some {| parent := u "."; fname := u "fis.tmp" |};
     Some {| parent := u "."; fname := u "fis.tmp" |};
     Some {| parent := u "."; fname := u ".gizli.tmp" |};
     Some {| parent := u "."; fname := u "a.b.tmp" |};
     Some {| parent := u "."; fname := u "fis..tmp" |};
     None].
Proof. vm_compute. reflexivity. Qed.

(** ** Printing a receipt leaves the directory alone *)










Example zeynep_receipt :
  let r := print_receipt Ucd.py float_of_decimal fname zeynep_answers
             (fst zeynep_form) (snd zeynep_form) in
  customers (fst (fst r)) = [Customer_named (u "Ali")]
  /\ shown (snd (fst r)) = [(u "Tamam", u "Fiş kaydedildi: fis.txt")]
  /\ disk (snd (fst r)) {| parent := u "."; fname := u "fis.txt" |}
     = Some (Text
         (u "=== SEBZE-MEYVE FİŞİ ===" ++ [10%N]
          ++ u "Tarih: 2026-01-05 10:00:00" ++ [10%N]
          ++ u "Müşteri Türü: Pazarcı Esnafı" ++ [10%N]
          ++ u "Müşteri Adı: Zeynep" ++ [10%N]
          ++ u "Malın Cinsi: ELMA" ++ [10%N]
          ++ u "Parça Adedi: 2" ++ [10%N]
          ++ u "Kilo: 12.50 kg" ++ [10%N]
          ++ u "Birim Fiyat: 5.00" ++ [10%N]
          ++ u "Net Tutar: 62.50" ++ [10%N]
          ++ u "KDV (%2): 1.25" ++ [10%N]
          ++ u "Toplam: 63.75" ++ [10%N])).
Proof. vm_compute. repeat split; reflexivity. Qed.

(** ** [difflib]: the blocks found lie in their window and match *)

Ltac conj := repeat match goal with |- _ /\ _ => split end.

Section Blocks.

Variables a b : str.

Ltac by_idx H :=
  match type of H with
  | nth ?i _ _ = nth ?j _ _ =>
    match goal with
    | |- nth ?x _ _ = nth ?y _ _ =>
      replace x with i by lia; replace y with j by lia; exact H
    end
  end.

Ltac ok := unfold ends_ok, block_ok in *; cbn [fst snd] in *.

Lemma indices_from_spec j0 elt s j :
  In j (difflib.indices_from j0 elt s) ->
  j0 <= j /\ j < j0 + length s /\ nth (j - j0) s 0%N = elt.
Proof.
  revert j0. induction s as [|c s IH]; intros j0; simpl; [tauto|].
  destruct (c =? elt)%N eqn:E.
  - intros [<-|H].
    + rewrite Nat.sub_diag. apply N.eqb_eq in E. split; [lia|]. split; [lia|].
      exact E.
    + apply IH in H as (H1 & H2 & H3). split; [lia|]. split; [lia|].
      replace (j - j0) with (S (j - S j0)) by lia. exact H3.
  - intros H. apply IH in H as (H1 & H2 & H3). split; [lia|]. split; [lia|].
    replace (j - j0) with (S (j - S j0)) by lia. exact H3.
Qed.

Lemma b2j_spec elt j : In j (difflib.b2j b elt) -> nth j b 0%N = elt.
Proof.
  unfold difflib.b2j. destruct (difflib.popular b elt); [intros []|].
  intros H. apply indices_from_spec in H as (_ & _ & H).
  now rewrite Nat.sub_0_r in H.
Qed.

Lemma get_in d j : difflib.get d j = 0 \/ In (j, difflib.get d j) d.
Proof.
  induction d as [|[j' k] d IH]; simpl; [auto|].
  destruct (j' =? j) eqn:E.
  - apply Nat.eqb_eq in E. subst. auto.
  - destruct IH; auto.
Qed.

Lemma ends_ok_next alo blo bhi i j j2len :
  Forall (ends_ok a b alo blo bhi i) j2len ->
  alo <= i -> blo <= j -> j < bhi -> nth i a 0%N = nth j b 0%N ->
  ends_ok a b alo blo bhi (i + 1) (j, difflib.get_pred j2len j + 1).
Proof.
  intros Hd Hi Hj Hb E. unfold difflib.get_pred.
  assert (Z : ends_ok a b alo blo bhi (i + 1) (j, 0 + 1)).
  { ok. conj; try lia. intros t Ht.
    by_idx E. }
  destruct j as [|j']; [exact Z|].
  destruct (get_in j2len j') as [->|Hin]; [exact Z|].
  rewrite Forall_forall in Hd. specialize (Hd _ Hin).
  set (k := difflib.get j2len j') in *. ok.
  destruct Hd as (H1 & H2 & H3 & H4 & H5 & H6 & H7).
  conj; try lia. intros t Ht.
  destruct (Nat.eq_dec t k) as [->|Hne]; [by_idx E|].
  assert (Ht' : t < k) by lia. specialize (H7 t Ht'). by_idx H7.
Qed.

Lemma block_of_entry alo blo bhi i j k :
  ends_ok a b alo blo bhi (i + 1) (j, k) ->
  block_ok a b alo (i + 1) blo bhi (i + 1 - k, j + 1 - k, k).
Proof.
  ok. intros (H1 & H2 & H3 & H4 & H5 & H6 & H7). conj; try lia.
  exact H7.
Qed.

Lemma block_ok_wider alo ahi ahi' blo bhi m :
  block_ok a b alo ahi blo bhi m -> ahi <= ahi' -> block_ok a b alo ahi' blo bhi m.
Proof.
  destruct m as [[i j] k]. ok. intros (H1 & H2 & H3 & H4 & H5) H.
  conj; try lia. exact H5.
Qed.

Lemma scan_j_ok alo blo bhi i j2len js :
  Forall (ends_ok a b alo blo bhi i) j2len ->
  alo <= i ->
  (forall j, In j js -> nth i a 0%N = nth j b 0%N) ->
  forall newj2len best,
    Forall (ends_ok a b alo blo bhi (i + 1)) newj2len ->
    block_ok a b alo (i + 1) blo bhi best ->
    Forall (ends_ok a b alo blo bhi (i + 1))
      (fst (difflib.scan_j blo bhi i j2len js newj2len best))
    /\ block_ok a b alo (i + 1) blo bhi
         (snd (difflib.scan_j blo bhi i j2len js newj2len best)).
Proof.
  intros Hd Hi. induction js as [|j js IH]; intros Hjs newj2len best Hn Hb;
    simpl; [auto|].
  destruct (j <? blo) eqn:E1.
  - apply IH; auto. intros. apply Hjs. now right.
  - destruct (bhi <=? j) eqn:E2; [auto|].
    apply Nat.ltb_ge in E1. apply Nat.leb_gt in E2.
    assert (He : ends_ok a b alo blo bhi (i + 1)
                   (j, difflib.get_pred j2len j + 1)).
    { apply ends_ok_next; auto. apply Hjs. now left. }
    apply IH.
    + intros. apply Hjs. now right.
    + constructor; assumption.
    + destruct (snd best <? difflib.get_pred j2len j + 1); [|exact Hb].
      now apply block_of_entry.
Qed.

Lemma scan_i_ok alo blo bhi n :
  forall i j2len best,
    alo <= i ->
    Forall (ends_ok a b alo blo bhi i) j2len ->
    block_ok a b alo i blo bhi best ->
    block_ok a b alo (i + n) blo bhi
      (difflib.scan_i a b blo bhi (seq i n) j2len best).
Proof.
  induction n as [|n IH]; intros i j2len best Hi Hd Hb; simpl.
  - now rewrite Nat.add_0_r.
  - replace (i + S n) with (S i + n) by lia.
    destruct (scan_j_ok alo blo bhi i j2len (difflib.b2j b (nth i a 0%N)) Hd Hi)
      with (newj2len := @nil (nat * nat)) (best := best) as [H1 H2].
    + intros j Hj. symmetry. now apply b2j_spec.
    + constructor.
    + apply block_ok_wider with (ahi := i); [exact Hb | lia].
    + replace (i + 1) with (S i) in * by lia. apply IH; [lia | exact H1 | exact H2].
Qed.

Lemma extend_back_ok alo ahi blo bhi besti :
  forall bestj bestsize,
    block_ok a b alo ahi blo bhi (besti, bestj, bestsize) ->
    block_ok a b alo ahi blo bhi
      (difflib.extend_back a b alo blo besti bestj bestsize).
Proof.
  induction besti as [|i' IH]; intros bestj bestsize Hb; simpl; [exact Hb|].
  destruct ((alo <? S i') && (blo <? bestj) &&
            (nth i' a 0 =? nth (bestj - 1) b 0)%N) eqn:E; [|exact Hb].
  apply andb_true_iff in E as [E E3]. apply andb_true_iff in E as [E1 E2].
  apply Nat.ltb_lt in E1, E2. apply N.eqb_eq in E3.
  apply IH. ok. destruct Hb as (H1 & H2 & H3 & H4 & H5).
  conj; try lia. intros t Ht. destruct t as [|t]; [by_idx E3|].
  assert (Ht' : t < bestsize) by lia. specialize (H5 t Ht'). by_idx H5.
Qed.

Lemma extend_forward_ok alo ahi blo bhi besti bestj n :
  forall bestsize,
    block_ok a b alo ahi blo bhi (besti, bestj, bestsize) ->
    block_ok a b alo ahi blo bhi
      (besti, bestj,
       difflib.extend_forward a b n ahi bhi besti bestj bestsize).
Proof.
  induction n as [|n IH]; intros bestsize Hb; simpl; [exact Hb|].
  destruct ((besti + bestsize <? ahi) && (bestj + bestsize <? bhi) &&
            (nth (besti + bestsize) a 0 =? nth (bestj + bestsize) b 0)%N)
    eqn:E; [|exact Hb].
  apply andb_true_iff in E as [E E3]. apply andb_true_iff in E as [E1 E2].
  apply Nat.ltb_lt in E1, E2. apply N.eqb_eq in E3.
  apply IH. ok. destruct Hb as (H1 & H2 & H3 & H4 & H5).
  conj; try lia. intros t Ht.
  destruct (Nat.eq_dec t bestsize) as [->|Hne]; [exact E3|]. apply H5. lia.
Qed.

Lemma find_longest_match_ok alo ahi blo bhi :
  alo <= ahi -> blo <= bhi ->
  block_ok a b alo ahi blo bhi (difflib.find_longest_match a b alo ahi blo bhi).
Proof.
  intros Ha Hb. unfold difflib.find_longest_match.
  pose proof (scan_i_ok alo blo bhi (ahi - alo) alo [] (alo, blo, 0)) as H.
  replace (alo + (ahi - alo)) with ahi in H by lia.
  set (best := difflib.scan_i a b blo bhi (seq alo (ahi - alo)) [] (alo, blo, 0))
    in *.
  assert (Hbest : block_ok a b alo ahi blo bhi best).
  { apply H; [lia | constructor |]. ok. conj; try lia.
    intros t Ht. lia. }
  destruct best as [[i j] k]. simpl fst. simpl snd.
  pose proof (extend_back_ok alo ahi blo bhi i j k Hbest) as Hback.
  destruct (difflib.extend_back a b alo blo i j k) as [[i' j'] k'].
  now apply extend_forward_ok.
Qed.

End Blocks.

(** ** [difflib]: the number of matches *)

Lemma total_app l l' : total (l ++ l') = total l + total l'.
Proof. unfold total. now rewrite map_app, list_sum_app. Qed.

Lemma total_single i j k : total [(i, j, k)] = k.
Proof. unfold total. simpl. lia. Qed.

Lemma total_insert_sorted x l :
  total (difflib.insert_sorted x l) = snd x + total l.
Proof.
  induction l as [|y l IH]; simpl; [reflexivity|].
  destruct (difflib.Match_leb x y); [reflexivity|].
  unfold total in *. simpl. rewrite IH. lia.
Qed.

Lemma total_sort l : total (difflib.sort l) = total l.
Proof.
  induction l as [|x l IH]; simpl; [reflexivity|].
  rewrite total_insert_sorted. unfold total in *. simpl. lia.
Qed.

Lemma total_collapse l :
  forall cur, total (difflib.collapse cur l) = snd cur + total l.
Proof.
  induction l as [|[[i2 j2] k2] l IH]; intros [[i1 j1] k1]; simpl.
  - destruct (k1 =? 0) eqn:E; unfold total; simpl.
    + apply Nat.eqb_eq in E. lia.
    + lia.
  - destruct ((i1 + k1 =? i2) && (j1 + k1 =? j2)).
    + rewrite IH. unfold total. simpl. lia.
    + destruct (k1 =? 0) eqn:E.
      * rewrite IH. apply Nat.eqb_eq in E. unfold total. simpl. lia.
      * unfold total in *. simpl. rewrite IH. simpl. lia.
Qed.

Section Loop.

Variables a b : str.

Lemma weight_cons alo ahi blo bhi queue :
  weight ((alo, ahi, blo, bhi) :: queue) = 2 * (ahi - alo) + 1 + weight queue.
Proof. reflexivity. Qed.

(** With a bound that covers the weight of the queue, the loop of
    [get_matching_blocks] ends on an empty queue: a greater bound gives
    the same blocks. *)
Lemma blocks_loop_enough n :
  forall queue acc m,
    Forall (window_ok a b) queue -> weight queue <= n ->
    difflib.blocks_loop a b (n + m) queue acc
    = difflib.blocks_loop a b n queue acc.
Proof.
  induction n as [|n IH]; intros queue acc m Hq Hw.
  - destruct queue as [|[[[alo ahi] blo] bhi] queue].
    + destruct m; reflexivity.
    + rewrite weight_cons in Hw. lia.
  - simpl. destruct queue as [|[[[alo ahi] blo] bhi] queue]; [reflexivity|].
    inversion Hq as [|? ? Hwin Hq']; subst. simpl in Hwin.
    destruct Hwin as (H1 & H2 & H3 & H4).
    pose proof (find_longest_match_ok a b alo ahi blo bhi H1 H3) as Hb.
    destruct (difflib.find_longest_match a b alo ahi blo bhi) as [[i j] k].
    unfold block_ok in Hb. cbn [fst snd] in Hb.
    destruct Hb as (B1 & B2 & B3 & B4 & _).
    rewrite weight_cons in Hw.
    destruct (k =? 0) eqn:Ek.
    + apply IH; [exact Hq' | lia].
    + apply Nat.eqb_neq in Ek. apply IH.
      * destruct ((i + k <? ahi) && (j + k <? bhi));
          destruct ((alo <? i) && (blo <? j));
          repeat (constructor; [simpl; lia|]); exact Hq'.
      * destruct ((i + k <? ahi) && (j + k <? bhi));
          destruct ((alo <? i) && (blo <? j));
          rewrite ?weight_cons; lia.
Qed.

(** A measure [P] of the windows that a block splits: the block and the
    two windows beside it weigh no more than the window. *)
Section Potential.

Variable P : nat * nat * nat * nat -> nat.

Hypothesis P_split :
  forall alo ahi blo bhi i j k,
    window_ok a b (alo, ahi, blo, bhi) ->
    block_ok a b alo ahi blo bhi (i, j, k) ->
    k + P (alo, i, blo, j) + P (i + k, ahi, j + k, bhi)
    <= P (alo, ahi, blo, bhi).

Lemma sum_cons w queue :
  list_sum (map P (w :: queue)) = P w + list_sum (map P queue).
Proof. reflexivity. Qed.

Lemma blocks_loop_bound n :
  forall queue acc,
    Forall (window_ok a b) queue ->
    total (difflib.blocks_loop a b n queue acc)
    <= total acc + list_sum (map P queue).
Proof.
  induction n as [|n IH]; intros queue acc Hq; simpl; [lia|].
  destruct queue as [|[[[alo ahi] blo] bhi] queue]; [simpl; lia|].
  inversion Hq as [|? ? Hwin Hq']; subst.
  pose proof Hwin as Hwin'. simpl in Hwin'.
  destruct Hwin' as (H1 & H2 & H3 & H4).
  pose proof (find_longest_match_ok a b alo ahi blo bhi H1 H3) as Hb.
  pose proof (P_split alo ahi blo bhi) as Hs.
  destruct (difflib.find_longest_match a b alo ahi blo bhi) as [[i j] k].
  specialize (Hs i j k Hwin Hb).
  unfold block_ok in Hb. cbn [fst snd] in Hb.
  destruct Hb as (B1 & B2 & B3 & B4 & _).
  destruct (k =? 0) eqn:Ek.
  - specialize (IH queue acc Hq'). rewrite sum_cons. lia.
  - match goal with
    | |- total (difflib.blocks_loop _ _ _ ?q ?acc') <= _ =>
      assert (Hq2 : Forall (window_ok a b) q);
        [|specialize (IH q acc' Hq2); rewrite total_app in IH;
          rewrite total_single in IH;
          assert (list_sum (map P q)
                  <= P (alo, i, blo, j) + P (i + k, ahi, j + k, bhi)
                     + list_sum (map P queue))]
    end.
    + destruct ((i + k <? ahi) && (j + k <? bhi));
        destruct ((alo <? i) && (blo <? j));
        repeat (constructor; [simpl; lia|]); exact Hq'.
    + destruct ((i + k <? ahi) && (j + k <? bhi));
        destruct ((alo <? i) && (blo <? j)); rewrite ?sum_cons; lia.
    + rewrite sum_cons. lia.
Qed.

End Potential.

(** The matches are at most the shorter length. *)
Lemma blocks_loop_min n :
  total (difflib.blocks_loop a b n [(0, length a, 0, length b)] [])
  <= Nat.min (length a) (length b).
Proof.
  pose proof (blocks_loop_bound
    (fun '(alo, ahi, blo, bhi) => Nat.min (ahi - alo) (bhi - blo))) as H.
  specialize (H ltac:(intros alo ahi blo bhi i j k Hw Hb;
    unfold block_ok in Hb; cbn [fst snd] in Hb; cbv beta iota; lia) n
    [(0, length a, 0, length b)] []).
  cbv beta iota in H. cbn [map list_sum fold_right] in H.
  change (total []) with 0 in H.
  rewrite !Nat.sub_0_r, Nat.add_0_r in H. apply H.
  constructor; [simpl; lia | constructor].
Qed.

End Loop.

(** The bound that [get_matching_blocks] gives its loop is enough. *)
Lemma matching_blocks_bound_enough (a b : str) (m : nat) :
  difflib.blocks_loop a b (2 * length a + 1 + m)
    [(0, length a, 0, length b)] []
  = difflib.blocks_loop a b (2 * length a + 1)
      [(0, length a, 0, length b)] [].
Proof.
  apply blocks_loop_enough.
  - constructor; [|constructor]. unfold window_ok. lia.
  - rewrite weight_cons. unfold weight. simpl. lia.
Qed.

(** ** [difflib]: the matches and the elements in common *)

Lemma firstn_plus {A : Type} (n m : nat) (l : list A) :
  firstn (n + m) l = firstn n l ++ firstn m (skipn n l).
Proof.
  revert l. induction n as [|n IH]; intros l; simpl; [reflexivity|].
  destruct l as [|x l]; simpl.
  - now rewrite firstn_nil.
  - now rewrite IH.
Qed.

Lemma slice_split s lo mid hi :
  lo <= mid -> mid <= hi -> slice s lo hi = slice s lo mid ++ slice s mid hi.
Proof.
  intros H1 H2. unfold slice.
  replace (hi - lo) with ((mid - lo) + (hi - mid)) by lia.
  rewrite firstn_plus, skipn_skipn.
  now replace (mid - lo + lo) with mid by lia.
Qed.

Lemma slice_all s : slice s 0 (length s) = s.
Proof. unfold slice. rewrite Nat.sub_0_r. simpl. apply firstn_all. Qed.

Lemma length_slice s lo hi : hi <= length s -> length (slice s lo hi) = hi - lo.
Proof.
  intros H. unfold slice. rewrite length_firstn, length_skipn. lia.
Qed.

Lemma nth_slice s lo hi t :
  t < hi - lo -> nth t (slice s lo hi) 0%N = nth (lo + t) s 0%N.
Proof.
  intros H. unfold slice. rewrite nth_firstn, nth_skipn.
  destruct (t <? hi - lo) eqn:E; [reflexivity|].
  apply Nat.ltb_ge in E. lia.
Qed.

Lemma slice_same a b i j k :
  same a b i j k -> i + k <= length a -> j + k <= length b ->
  slice a i (i + k) = slice b j (j + k).
Proof.
  intros Hs Ha Hb. apply nth_ext with (d := 0%N) (d' := 0%N).
  - rewrite !length_slice by assumption. lia.
  - intros t Ht. rewrite length_slice in Ht by assumption.
    rewrite !nth_slice by lia. apply Hs. lia.
Qed.

Lemma In_firstn {A : Type} (x : A) n l : In x (firstn n l) -> In x l.
Proof.
  revert l. induction n as [|n IH]; intros [|y l]; simpl; try tauto.
  intros [H|H]; [now left | right; now apply IH].
Qed.

Lemma In_skipn {A : Type} (x : A) n l : In x (skipn n l) -> In x l.
Proof.
  revert l. induction n as [|n IH]; intros [|y l]; simpl; try tauto.
  intros H. right. now apply IH.
Qed.

Lemma slice_incl s lo hi x : In x (slice s lo hi) -> In x s.
Proof.
  unfold slice. intros H. apply In_firstn in H. revert H. apply In_skipn.
Qed.

Lemma count_app x y c : count (x ++ y) c = count x c + count y c.
Proof. apply count_occ_app. Qed.

Lemma count_cons_eq x s : count (x :: s) x = S (count s x).
Proof. now apply count_occ_cons_eq. Qed.

Lemma count_cons_neq x s c : x <> c -> count (x :: s) c = count s c.
Proof. intros H. now apply count_occ_cons_neq. Qed.

Lemma count_nil c : count [] c = 0.
Proof. reflexivity. Qed.

Lemma sum_map_cons (f : char -> nat) c al :
  list_sum (map f (c :: al)) = f c + list_sum (map f al).
Proof. reflexivity. Qed.

Lemma common_app al x1 x2 y1 y2 :
  common al x1 y1 + common al x2 y2 <= common al (x1 ++ x2) (y1 ++ y2).
Proof.
  unfold common. induction al as [|c al IH]; [simpl; lia|].
  rewrite !sum_map_cons, !count_app. lia.
Qed.

Lemma sum_ext_in (f g : char -> nat) al :
  (forall c, In c al -> f c = g c) ->
  list_sum (map f al) = list_sum (map g al).
Proof.
  induction al as [|c al IH]; intros H; simpl; [reflexivity|].
  rewrite H by now left. rewrite IH; [reflexivity|].
  intros. apply H. now right.
Qed.

(** Two functions that differ at [x] only, by [d]. *)
Lemma sum_point (f g : char -> nat) x d al :
  NoDup al -> In x al ->
  (forall c, c <> x -> g c = f c) -> g x = f x + d ->
  list_sum (map g al) = list_sum (map f al) + d.
Proof.
  intros Hn Hin Hne Hx. induction al as [|c al IH]; [destruct Hin|].
  inversion Hn as [|? ? Hc Hn']; subst. simpl.
  destruct (N.eq_dec c x) as [->|Hcx].
  - rewrite Hx. rewrite (sum_ext_in g f); [lia|].
    intros c Hc'. apply Hne. intros ->. contradiction.
  - destruct Hin as [->|Hin]; [congruence|].
    rewrite Hne by exact Hcx. rewrite IH by assumption. lia.
Qed.

Lemma sum_zero (f : char -> nat) al :
  (forall c, f c = 0) -> list_sum (map f al) = 0.
Proof.
  intros H. induction al as [|c al IH]; simpl; [reflexivity|].
  rewrite H, IH. reflexivity.
Qed.

Lemma sum_count al m :
  NoDup al -> incl m al -> list_sum (map (count m) al) = length m.
Proof.
  intros Hn. induction m as [|x m IH]; intros Hi.
  - apply sum_zero. reflexivity.
  - rewrite (sum_point (count m) (count (x :: m)) x 1 al Hn).
    + rewrite IH; [simpl; lia|]. intros c Hc. apply Hi. now right.
    + apply Hi. now left.
    + intros c Hc. apply count_cons_neq. congruence.
    + rewrite count_cons_eq. lia.
Qed.

Lemma common_same al m : NoDup al -> incl m al -> common al m m = length m.
Proof.
  intros Hn Hi. rewrite <- (sum_count al m Hn Hi). unfold common.
  apply sum_ext_in. intros. lia.
Qed.

Section Quick.

Variables a b : str.

Lemma matches_le_common :
  total (difflib.blocks_loop a b (2 * length a + 1)
           [(0, length a, 0, length b)] [])
  <= common (alphabet a) a b.
Proof.
  pose proof (blocks_loop_bound a b
    (fun '(alo, ahi, blo, bhi) =>
       common (alphabet a) (slice a alo ahi) (slice b blo bhi))) as H.
  assert (Hs : forall alo ahi blo bhi i j k,
             window_ok a b (alo, ahi, blo, bhi) ->
             block_ok a b alo ahi blo bhi (i, j, k) ->
             k + common (alphabet a) (slice a alo i) (slice b blo j)
             + common (alphabet a) (slice a (i + k) ahi) (slice b (j + k) bhi)
             <= common (alphabet a) (slice a alo ahi) (slice b blo bhi)).
  { intros alo ahi blo bhi i j k Hw Hb. simpl in Hw.
    unfold block_ok in Hb. cbn [fst snd] in Hb.
    destruct Hw as (W1 & W2 & W3 & W4).
    destruct Hb as (B1 & B2 & B3 & B4 & B5).
    rewrite (slice_split a alo i ahi), (slice_split a i (i + k) ahi) by lia.
    rewrite (slice_split b blo j bhi), (slice_split b j (j + k) bhi) by lia.
    rewrite <- (slice_same a b i j k B5) by lia.
    eapply Nat.le_trans; [|apply common_app].
    eapply Nat.le_trans;
      [|apply Nat.add_le_mono_l; apply common_app].
    rewrite common_same.
    - rewrite length_slice by lia. lia.
    - apply NoDup_nodup.
    - intros x Hx. apply nodup_In. eapply slice_incl. exact Hx. }
  specialize (H Hs (2 * length a + 1) [(0, length a, 0, length b)] []).
  cbv beta iota in H. cbn [map list_sum fold_right] in H.
  change (total []) with 0 in H. rewrite !slice_all in H.
  rewrite Nat.add_0_r in H. apply H.
  constructor; [simpl; lia | constructor].
Qed.

Lemma fullbcount_count elt s :
  difflib.fullbcount elt s = Z.of_nat (count s elt).
Proof.
  induction s as [|c s IH]; [reflexivity|].
  cbn [difflib.fullbcount]. rewrite IH. destruct (c =? elt)%N eqn:E.
  - apply N.eqb_eq in E. subst. rewrite count_cons_eq. lia.
  - apply N.eqb_neq in E. rewrite count_cons_neq by exact E. lia.
Qed.

Lemma quick_loop_common al s :
  NoDup al -> incl s al ->
  forall seen avail matches,
    (forall elt, numb b avail elt
                 = (Z.of_nat (count b elt) - Z.of_nat (count seen elt))%Z) ->
    difflib.quick_loop b s avail matches + common al seen b
    = matches + common al (seen ++ s) b.
Proof.
  intros Hn. induction s as [|x s IH]; intros Hi seen avail matches Hav.
  - simpl. now rewrite app_nil_r.
  - simpl. fold (numb b avail x). rewrite Hav.
    replace (seen ++ x :: s) with ((seen ++ [x]) ++ s)
      by now rewrite <- app_assoc.
    assert (Hx : In x al) by (apply Hi; now left).
    assert (Hi' : incl s al) by (intros c Hc; apply Hi; now right).
    set (d := if (0 <? Z.of_nat (count b x) - Z.of_nat (count seen x))%Z
              then 1 else 0).
    assert (Hp : common al (seen ++ [x]) b = common al seen b + d).
    { unfold common. apply sum_point with (x := x); try assumption.
      - intros c Hc. rewrite count_app, count_cons_neq by congruence.
        rewrite count_nil. now rewrite Nat.add_0_r.
      - rewrite count_app, count_cons_eq, count_nil. unfold d.
        destruct (0 <? _)%Z eqn:E.
        + apply Z.ltb_lt in E. lia.
        + apply Z.ltb_ge in E. lia. }
    match goal with
    | |- difflib.quick_loop _ _ ?av ?m + _ = _ =>
      specialize (IH Hi' (seen ++ [x]) av m)
    end.
    rewrite Hp in IH.
    assert (Hav' : forall elt,
               numb b ((x, (Z.of_nat (count b x) - Z.of_nat (count seen x) - 1)%Z)
                     :: avail) elt
               = (Z.of_nat (count b elt)
                  - Z.of_nat (count (seen ++ [x]) elt))%Z).
    { intros elt. unfold numb. cbn [difflib.avail_get]. rewrite count_app.
      destruct (x =? elt)%N eqn:E.
      - apply N.eqb_eq in E. subst. rewrite count_cons_eq, count_nil. lia.
      - apply N.eqb_neq in E. rewrite count_cons_neq, count_nil by exact E.
        specialize (Hav elt). unfold numb in Hav. rewrite Hav. lia. }
    specialize (IH Hav'). unfold d in IH.
    destruct (0 <? Z.of_nat (count b x) - Z.of_nat (count seen x))%Z; lia.
Qed.

Lemma quick_loop_is_common : difflib.quick_loop b a [] 0 = common (alphabet a) a b.
Proof.
  pose proof (quick_loop_common (alphabet a) a (NoDup_nodup _ _)) as H.
  specialize (H ltac:(intros x Hx; now apply nodup_In) [] [] 0).
  simpl app in H. rewrite Nat.add_0_l in H.
  assert (Hz : common (alphabet a) [] b = 0).
  { unfold common. apply sum_zero. reflexivity. }
  rewrite Hz, Nat.add_0_r in H. apply H.
  intros elt. unfold numb. cbn [difflib.avail_get].
  rewrite fullbcount_count, count_nil. lia.
Qed.

Lemma matches_total :
  matches a b
  = total (difflib.blocks_loop a b (2 * length a + 1)
             [(0, length a, 0, length b)] []).
Proof.
  unfold matches, difflib.get_matching_blocks.
  fold (total (difflib.collapse (0, 0, 0)
                 (difflib.sort
                    (difflib.blocks_loop a b (2 * length a + 1)
                       [(0, length a, 0, length b)] []))
               ++ [(length a, length b, 0)])).
  rewrite total_app, total_collapse, total_sort, total_single. simpl. lia.
Qed.

Lemma matches_le_min : matches a b <= Nat.min (length a) (length b).
Proof. rewrite matches_total. apply blocks_loop_min. Qed.

Lemma matches_le_quick : matches a b <= difflib.quick_loop b a [] 0.
Proof.
  rewrite matches_total, quick_loop_is_common. apply matches_le_common.
Qed.

End Quick.

(** ** [difflib]: the three ratios and the closest match *)

Lemma calculate_ratio_mono m1 m2 len :
  m1 <= m2 ->
  (difflib._calculate_ratio m1 len <= difflib._calculate_ratio m2 len)%Q.
Proof.
  intros H. destruct len as [|len]; [apply Qle_refl|].
  unfold difflib._calculate_ratio, Qle. cbn [Qnum Qden].
  apply Z.mul_le_mono_nonneg_r; lia.
Qed.

Lemma ratio_matches a b :
  difflib.ratio a b
  = difflib._calculate_ratio (matches a b) (length a + length b).
Proof. reflexivity. Qed.

(** [quick_ratio] and [real_quick_ratio] are upper bounds of [ratio]. *)
Lemma ratio_le_quick a b : (difflib.ratio a b <= difflib.quick_ratio a b)%Q.
Proof.
  rewrite ratio_matches. apply calculate_ratio_mono, matches_le_quick.
Qed.

Lemma ratio_le_real_quick a b :
  (difflib.ratio a b <= difflib.real_quick_ratio a b)%Q.
Proof.
  rewrite ratio_matches. apply calculate_ratio_mono, matches_le_min.
Qed.

(** The three tests of [get_close_matches] come to the last one. *)
Lemma close_enough_ratio word cutoff x :
  difflib.close_enough word cutoff x
  = Qle_bool cutoff (difflib.ratio x word).
Proof.
  unfold difflib.close_enough.
  destruct (Qle_bool cutoff (difflib.ratio x word)) eqn:E;
    [|apply andb_false_r].
  apply Qle_bool_iff in E.
  assert (H1 : Qle_bool cutoff (difflib.real_quick_ratio x word) = true).
  { apply Qle_bool_iff. eapply Qle_trans; [exact E|].
    apply ratio_le_real_quick. }
  assert (H2 : Qle_bool cutoff (difflib.quick_ratio x word) = true).
  { apply Qle_bool_iff. eapply Qle_trans; [exact E|]. apply ratio_le_quick. }
  now rewrite H1, H2.
Qed.

Lemma scored_gtb_le item maxitem :
  let m' := if difflib.scored_gtb item maxitem then item else maxitem in
  (fst item <= fst m')%Q /\ (fst maxitem <= fst m')%Q.
Proof.
  unfold difflib.scored_gtb.
  destruct (Qeq_bool (fst item) (fst maxitem)) eqn:E.
  - apply Qeq_bool_iff in E.
    destruct (Str.ltb (snd maxitem) (snd item)); simpl; split;
      try apply Qle_refl; rewrite E; apply Qle_refl.
  - destruct (Qle_bool (fst item) (fst maxitem)) eqn:L; simpl; split;
      try apply Qle_refl.
    + now apply Qle_bool_iff.
    + apply Qlt_le_weak, Qnot_le_lt. intros H.
      apply Qle_bool_iff in H. congruence.
Qed.

Lemma max_from_spec it :
  forall maxitem,
    In (difflib.max_from maxitem it) (maxitem :: it)
    /\ forall y, In y (maxitem :: it) ->
                 (fst y <= fst (difflib.max_from maxitem it))%Q.
Proof.
  induction it as [|item it IH]; intros maxitem; simpl.
  - split; [now left|]. intros y [<-|[]]. apply Qle_refl.
  - destruct (IH (if difflib.scored_gtb item maxitem then item else maxitem))
      as [Hin Hle].
    destruct (scored_gtb_le item maxitem) as [L1 L2].
    split.
    + destruct Hin as [Hin|Hin]; [|now right; right].
      rewrite <- Hin.
      destruct (difflib.scored_gtb item maxitem); [right; now left | now left].
    + intros y [<-|[<-|Hy]].
      * eapply Qle_trans; [exact L2|]. apply Hle. now left.
      * eapply Qle_trans; [exact L1|]. apply Hle. now left.
      * apply Hle. now right.
Qed.

(** [get_close_matches] with [n=1]: no match when every possibility is
    below the cutoff, else one possibility, at least as close as the cutoff
    asks and as every other possibility. *)
Lemma get_close_matches_spec word possibilities cutoff :
  match difflib.get_close_matches word possibilities cutoff with
  | [] =>
    forall x, In x possibilities -> (difflib.ratio x word < cutoff)%Q
  | k :: rest =>
    rest = [] /\ In k possibilities
    /\ (cutoff <= difflib.ratio k word)%Q
    /\ forall x, In x possibilities ->
                 (difflib.ratio x word <= difflib.ratio k word)%Q
  end.
Proof.
  unfold difflib.get_close_matches.
  set (close := filter (difflib.close_enough word cutoff) possibilities).
  assert (Hc : forall x, In x close <->
                 In x possibilities /\ (cutoff <= difflib.ratio x word)%Q).
  { intros x. unfold close. rewrite filter_In, close_enough_ratio.
    now rewrite Qle_bool_iff. }
  destruct close as [|x0 close'] eqn:E; simpl.
  - intros x Hx. apply Qnot_le_lt. intros H.
    apply (proj2 (Hc x)); auto.
  - set (best := difflib.max_from (difflib.ratio x0 word, x0)
                   (map (fun x => (difflib.ratio x word, x)) close')).
    destruct (max_from_spec
                (map (fun x => (difflib.ratio x word, x)) close')
                (difflib.ratio x0 word, x0)) as [Hin Hle].
    fold best in Hin, Hle.
    assert (Hb : In (snd best) (x0 :: close')
                 /\ fst best = difflib.ratio (snd best) word).
    { change ((difflib.ratio x0 word, x0)
              :: map (fun x => (difflib.ratio x word, x)) close')
        with (map (fun x => (difflib.ratio x word, x)) (x0 :: close')) in Hin.
      apply in_map_iff in Hin as (x & Ex & Hx). rewrite <- Ex. auto. }
    destruct Hb as [Hb1 Hb2]. apply Hc in Hb1 as [Hb1 Hb3].
    repeat split; try assumption.
    intros x Hx.
    destruct (Qlt_le_dec (difflib.ratio x word) cutoff) as [Hlt|Hge].
    + eapply Qle_trans; [apply Qlt_le_weak; exact Hlt | exact Hb3].
    + rewrite <- Hb2.
      apply (Hle (difflib.ratio x word, x)).
      change ((difflib.ratio x0 word, x0)
              :: map (fun x => (difflib.ratio x word, x)) close')
        with (map (fun x => (difflib.ratio x word, x)) (x0 :: close')).
      apply in_map_iff. exists x. split; [reflexivity|]. apply Hc. auto.
Qed.

(** ** Customer lookup *)

Lemma dict_get_set d k v k' :
  dict_get (dict_set d k v) k'
  = if Str.eqb k k' then Some v else dict_get d k'.
Proof.
  induction d as [|[k0 v0] d IH]; simpl.
  - reflexivity.
  - destruct (Str.eqb k0 k) eqn:E; simpl.
    + apply eqb_eq in E. subst. destruct (Str.eqb k k'); reflexivity.
    + destruct (Str.eqb k0 k') eqn:E'; [|exact IH].
      apply eqb_eq in E'. subst. now rewrite eqb_sym, E.
Qed.

Lemma dict_keys_set d k v k' :
  In k' (map fst (dict_set d k v)) <-> k' = k \/ In k' (map fst d).
Proof.
  induction d as [|[k0 v0] d IH]; simpl.
  - intuition congruence.
  - destruct (Str.eqb k0 k) eqn:E; simpl.
    + apply eqb_eq in E. subst. intuition congruence.
    + rewrite IH. intuition congruence.
Qed.

Lemma dict_get_keys d k :
  In k (map fst d) -> exists v, dict_get d k = Some v.
Proof.
  induction d as [|[k0 v0] d IH]; simpl; [intros []|].
  intros [->|H].
  - rewrite eqb_refl. eauto.
  - destruct (Str.eqb k0 k); eauto.
Qed.

(** The dictionary of candidates holds, under the key of every customer,
    a customer of that key. *)
Lemma candidates_spec U cs :
  forall d pre,
    (forall k c, dict_get d k = Some c ->
                 In c pre /\ _normalize_for_comparison U (name c) = k) ->
    (forall k, In k (map fst d) <-> In k (keys U pre)) ->
    let d' :=
      fold_left
        (fun d c => dict_set d (_normalize_for_comparison U (name c)) c)
        cs d in
    (forall k c, dict_get d' k = Some c ->
                 In c (pre ++ cs) /\ _normalize_for_comparison U (name c) = k)
    /\ (forall k, In k (map fst d') <-> In k (keys U (pre ++ cs))).
Proof.
  induction cs as [|c0 cs IH]; intros d pre Hg Hk; simpl.
  - rewrite app_nil_r. auto.
  - replace (pre ++ c0 :: cs) with ((pre ++ [c0]) ++ cs)
      by now rewrite <- app_assoc.
    apply IH.
    + intros k c. rewrite dict_get_set.
      destruct (Str.eqb (_normalize_for_comparison U (name c0)) k) eqn:E.
      * intros H. injection H as <-. apply eqb_eq in E.
        split; [apply in_or_app; right; now left | exact E].
      * intros H. apply Hg in H as [H1 H2].
        split; [apply in_or_app; now left | exact H2].
    + intros k. rewrite dict_keys_set, keys_app, in_app_iff, Hk. simpl.
      intuition congruence.
Qed.

Lemma candidates_of_spec U cs :
  (forall k c, dict_get (candidates_of U cs) k = Some c ->
               In c cs /\ _normalize_for_comparison U (name c) = k)
  /\ (forall k, In k (map fst (candidates_of U cs)) <-> In k (keys U cs)).
Proof.
  apply (candidates_spec U cs [] []).
  - intros k c H. discriminate.
  - intros k. reflexivity.
Qed.

Lemma find_first {A : Type} (f : A -> bool) before c after :
  f c = true -> (forall d, In d before -> f d = false) ->
  find f (before ++ c :: after) = Some c.
Proof.
  intros Hc. induction before as [|d before IH]; intros H; simpl.
  - now rewrite Hc.
  - rewrite H by now left. apply IH. intros. apply H. now right.
Qed.

Lemma find_nothing {A : Type} (f : A -> bool) l :
  (forall d, In d l -> f d = false) -> find f l = None.
Proof.
  induction l as [|d l IH]; intros H; simpl; [reflexivity|].
  rewrite H by now left. apply IH. intros. apply H. now right.
Qed.

(** C1 (counterexample): a customer whose name is empty has the key of the
    empty query, and the lookup of the empty query finds nobody. *)
Lemma find_empty_query :
  Str.eqb (_normalize_for_comparison Ucd.py (name (Customer_named [])))
    (_normalize_for_comparison Ucd.py []) = true
  /\ _find_customer_by_name Ucd.py [Customer_named []] [] = None.
Proof. vm_compute. split; reflexivity. Qed.

(** C1 (amended): for a query that is not empty, the lookup returns the
    first customer in list order whose normalized name is the normalized
    query, whatever the similarity of the others; when no customer has that
    key, it returns a customer whose normalized name is the most similar to
    the normalized query, by the ratio of [difflib], if that ratio is at
    least 0.7, and nobody if every ratio is below 0.7. *)
Theorem find_customer_spec (U : unicode) (customers : list Customer)
  (nm : str) :
  nm <> [] ->
  let key := _normalize_for_comparison U nm in
  let sim c := difflib.ratio (_normalize_for_comparison U (name c)) key in
  (forall before c after,
     customers = before ++ c :: after ->
     _normalize_for_comparison U (name c) = key ->
     (forall d, In d before -> _normalize_for_comparison U (name d) <> key) ->
     _find_customer_by_name U customers nm = Some c)
  /\ ((forall c, In c customers ->
                 _normalize_for_comparison U (name c) <> key) ->
      (forall c, _find_customer_by_name U customers nm = Some c ->
                 In c customers /\ (7 # 10 <= sim c)%Q
                 /\ forall d, In d customers -> (sim d <= sim c)%Q)
      /\ (_find_customer_by_name U customers nm = None
          <-> forall c, In c customers -> (sim c < 7 # 10)%Q)).
Proof.
  intros Hnm key sim. destruct nm as [|c0 nm0] eqn:En; [congruence|].
  rewrite <- En in *. clear Hnm.
  assert (Hf : _find_customer_by_name U customers nm
               = match find (fun c => Str.eqb
                               (_normalize_for_comparison U (name c)) key)
                         customers with
                 | Some c => Some c
                 | None =>
                   match difflib.get_close_matches key
                           (map fst (candidates_of U customers)) (7 # 10) with
                   | k :: _ => dict_get (candidates_of U customers) k
                   | [] => None
                   end
                 end).
  { rewrite En. reflexivity. }
  rewrite Hf. clear Hf. split.
  - intros before c after -> Hc Hb.
    rewrite (find_first _ before c after); [reflexivity | |].
    + now apply eqb_eq.
    + intros d Hd. apply eqb_neq. now apply Hb.
  - intros Hno. rewrite find_nothing
      by (intros d Hd; apply eqb_neq; now apply Hno).
    destruct (candidates_of_spec U customers) as [Hg Hk].
    pose proof (get_close_matches_spec key
                  (map fst (candidates_of U customers)) (7 # 10)) as Hm.
    assert (Hin : forall c, In c customers ->
              In (_normalize_for_comparison U (name c))
                 (map fst (candidates_of U customers))).
    { intros c Hc. apply Hk. unfold keys. apply in_map_iff. eauto. }
    destruct (difflib.get_close_matches key
                (map fst (candidates_of U customers)) (7 # 10)) as [|k rest].
    + split; [intros c H; discriminate|].
      split; [|reflexivity].
      intros _ c Hc. apply Hm. now apply Hin.
    + destruct Hm as (_ & Hkin & Hcut & Hmax).
      destruct (dict_get_keys _ _ Hkin) as [c Hc]. rewrite Hc.
      destruct (Hg k c Hc) as [Hc1 Hc2].
      split.
      * intros c' E. injection E as <-. unfold sim. rewrite Hc2.
        split; [exact Hc1|]. split; [exact Hcut|].
        intros d Hd. apply Hmax. now apply Hin.
      * split; [discriminate|]. intros H. exfalso.
        specialize (H c Hc1). unfold sim in H. rewrite Hc2 in H.
        apply (Qlt_not_le _ _ H). exact Hcut.
Qed.

Lemma find_customer_spec_witness :
  u "ahmed" <> []
  /\ (forall c,
        _find_customer_by_name Ucd.py
          [Customer_named (u "Mehmet"); Customer_named (u "Ahmet")]
          (u "ahmed") = Some c ->
        In c [Customer_named (u "Mehmet"); Customer_named (u "Ahmet")]
        /\ (7 # 10
            <= difflib.ratio (_normalize_for_comparison Ucd.py (name c))
                 (_normalize_for_comparison Ucd.py (u "ahmed")))%Q).
Proof.
  assert (H : u "ahmed" <> []) by discriminate.
  split; [exact H|].
  intros c Hc.
  destruct (find_customer_spec Ucd.py
              [Customer_named (u "Mehmet"); Customer_named (u "Ahmet")]
              (u "ahmed") H) as [_ Hf].
  assert (Hno : forall c0,
            In c0 [Customer_named (u "Mehmet"); Customer_named (u "Ahmet")] ->
            _normalize_for_comparison Ucd.py (name c0)
            <> _normalize_for_comparison Ucd.py (u "ahmed")).
  { intros c0 [<-|[<-|[]]]; vm_compute; discriminate. }
  destruct (Hf Hno) as [Hs _]. destruct (Hs c Hc) as (H1 & H2 & _).
  split; assumption.
Defined.

(** ** More on loading and saving *)

(** X1: a directory that was saved loads as it was: the same customers, in
    the same order, with the same names, phones and addresses. *)
Theorem save_load_round_trip (cs : list Customer) (e : Env) :
  load_customers true (save_customers cs Written e)
  = (cs, save_customers cs Written e).
Proof.
  unfold load_customers. rewrite save_written, from_dicts_to_dict.
  reflexivity.
Qed.


Lemma load_customers_env readable e :
  snd (load_customers readable e) = e
  \/ fst (load_customers readable e) = []
     /\ snd (load_customers readable e)
        = logging_exception e (u "load_customers failed").
Proof.
  unfold load_customers. destruct (disk e CUSTOMER_FILE) as [f|]; [|now left].
  destruct readable; [|now right].
  destruct f as [t|[items|]|doc n]; simpl; auto.
  destruct (from_dicts items); simpl; auto.
Qed.

Lemma load_customers_disk readable e :
  disk (snd (load_customers readable e)) = disk e.
Proof.
  destruct (load_customers_env readable e) as [->|[_ ->]]; reflexivity.
Qed.


(** X3: after the start of the application, with the customers file
    written, the file exists and holds the directory in memory with all
    three members of every entry, so that loading it again gives the same
    directory; a file that did not load has been replaced by an empty
    array. *)
Theorem init_customers_fixed_point (readable : bool) (e : Env) :
  let r := init_customers readable Written e in
  disk (snd r) CUSTOMER_FILE = Some (Json (JArray (map to_dict (fst r))))
  /\ load_customers true (snd r) = (fst r, snd r)
  /\ (forall q, q <> CUSTOMER_FILE -> disk (snd r) q = disk e q)
  /\ (fst (load_customers readable e) = [] ->
      disk (snd r) CUSTOMER_FILE = Some (Json (JArray []))).
Proof.
  unfold init_customers. cbn [fst snd].
  split; [apply save_written|]. split; [|split].
  - unfold load_customers at 1. rewrite save_written, from_dicts_to_dict.
    reflexivity.
  - intros q Hq. cbn [save_customers set_disk disk].
    rewrite write_file_other by exact Hq. now rewrite load_customers_disk.
  - intros ->. apply save_written.
Qed.

(** ** The order of strings and the list box *)

Lemma ltb_irrefl (x : str) : Str.ltb x x = false.
Proof.
  induction x as [|c x IH]; simpl; [reflexivity|].
  rewrite N.ltb_irrefl, N.eqb_refl, IH. reflexivity.
Qed.

Lemma ltb_trans (x y z : str) :
  Str.ltb x y = true -> Str.ltb y z = true -> Str.ltb x z = true.
Proof.
  revert y z. induction x as [|a x IH]; intros [|b y] [|c z]; simpl;
    try discriminate; auto.
  rewrite !orb_true_iff, !andb_true_iff, !N.ltb_lt, !N.eqb_eq.
  intros [H1|[H1 H1']] [H2|[H2 H2']].
  - left. lia.
  - left. lia.
  - left. lia.
  - right. split; [lia|]. eapply IH; eassumption.
Qed.

Lemma ltb_total (x y : str) :
  Str.ltb x y = false -> Str.ltb y x = false -> x = y.
Proof.
  revert y. induction x as [|a x IH]; intros [|b y]; simpl;
    try discriminate; auto.
  rewrite !orb_false_iff, !andb_false_iff, !N.ltb_ge, !N.eqb_neq.
  intros [H1 H1'] [H2 H2'].
  assert (a = b) by lia. subst. f_equal. apply IH.
  - destruct H1'; [congruence | assumption].
  - destruct H2'; [congruence | assumption].
Qed.

Lemma ltb_asym (x y : str) : Str.ltb x y = true -> Str.ltb y x = false.
Proof.
  intros H. destruct (Str.ltb y x) eqn:E; [|reflexivity].
  rewrite <- (ltb_irrefl x). symmetry. eapply ltb_trans; eassumption.
Qed.

Lemma leb_trans (x y z : str) :
  Str.ltb y x = false -> Str.ltb z y = false -> Str.ltb z x = false.
Proof.
  intros H1 H2. destruct (Str.ltb z x) eqn:E; [|reflexivity].
  destruct (Str.ltb x y) eqn:E'.
  - rewrite <- H2. symmetry. eapply ltb_trans; eassumption.
  - assert (x = y) by now apply ltb_total. subst. congruence.
Qed.

Lemma insert_by_key_perm U c l : Permutation (insert_by_key U c l) (c :: l).
Proof.
  induction l as [|d l IH]; simpl; [reflexivity|].
  destruct (Str.ltb _ _); [reflexivity|].
  rewrite IH. apply perm_swap.
Qed.

Lemma sorted_by_key_perm U l : Permutation (sorted_by_key U l) l.
Proof.
  unfold sorted_by_key.
  assert (H : forall acc,
            Permutation (fold_left (fun acc c => insert_by_key U c acc) l acc)
              (acc ++ l)).
  { induction l as [|c l IH]; intros acc; simpl.
    - now rewrite app_nil_r.
    - rewrite IH, insert_by_key_perm. simpl.
      now rewrite Permutation_middle. }
  apply (H []).
Qed.

Lemma insert_by_key_sorted U c l :
  StronglySorted
    (fun x y => Str.ltb (lower U (name y)) (lower U (name x)) = false) l ->
  StronglySorted
    (fun x y => Str.ltb (lower U (name y)) (lower U (name x)) = false)
    (insert_by_key U c l).
Proof.
  induction 1 as [|d l Hs IH Hf]; simpl.
  - repeat constructor.
  - destruct (Str.ltb (lower U (name c)) (lower U (name d))) eqn:E.
    + constructor; [now constructor|].
      constructor; [now apply ltb_asym|].
      rewrite Forall_forall in *. intros x Hx.
      eapply leb_trans; [|apply Hf; exact Hx]. now apply ltb_asym.
    + constructor; [exact IH|].
      rewrite (insert_by_key_perm U c l). constructor; assumption.
Qed.

Lemma sorted_by_key_sorted U l :
  StronglySorted
    (fun x y => Str.ltb (lower U (name y)) (lower U (name x)) = false)
    (sorted_by_key U l).
Proof.
  unfold sorted_by_key.
  assert (H : forall acc,
            StronglySorted
              (fun x y => Str.ltb (lower U (name y)) (lower U (name x)) = false)
              acc ->
            StronglySorted
              (fun x y => Str.ltb (lower U (name y)) (lower U (name x)) = false)
              (fold_left (fun acc c => insert_by_key U c acc) l acc)).
  { induction l as [|c l IH]; intros acc Ha; simpl; [exact Ha|].
    apply IH. now apply insert_by_key_sorted. }
  apply H. constructor.
Qed.

Lemma StronglySorted_map {A B : Type} (f : A -> B) (R : B -> B -> Prop) l :
  StronglySorted (fun x y => R (f x) (f y)) l -> StronglySorted R (map f l).
Proof.
  induction 1 as [|x l Hs IH Hf]; simpl; constructor; [exact IH|].
  rewrite Forall_forall in *. intros y Hy.
  apply in_map_iff in Hy as (z & <- & Hz). now apply Hf.
Qed.

Lemma refresh_listbox_rows U s :
  Permutation (listbox (_refresh_listbox U s)) (map name (customers s))
  /\ StronglySorted (fun x y => Str.ltb (lower U y) (lower U x) = false)
       (listbox (_refresh_listbox U s)).
Proof.
  unfold _refresh_listbox. cbn [listbox set_listbox]. split.
  - apply Permutation_map, sorted_by_key_perm.
  - apply StronglySorted_map, sorted_by_key_sorted.
Qed.

(** X4: the list box filled anew shows the names of the customers, each
    as often as it is stored, in ascending order of their lowercased form;
    no row is selected and the directory is as before. *)
Theorem refresh_listbox_sorted (U : unicode) (s : ReceiptApp) :
  Permutation (listbox (_refresh_listbox U s)) (map name (customers s))
  /\ StronglySorted (fun x y => Str.ltb (lower U y) (lower U x) = false)
       (listbox (_refresh_listbox U s))
  /\ curselection (_refresh_listbox U s) = None
  /\ customers (_refresh_listbox U s) = customers s.
Proof.
  destruct (refresh_listbox_rows U s) as [H1 H2].
  split; [exact H1|]. split; [exact H2|]. split; reflexivity.
Qed.

Example listbox_example :
  listbox (_refresh_listbox Ucd.py
             (set_customers fresh_app
                [Customer_named (u "Veli"); Customer_named (u "ali");
                 Customer_named (u "Çiğdem"); Customer_named (u "Ayşe")]))
  = [u "ali"; u "Ayşe"; u "Veli"; u "Çiğdem"].
Proof. vm_compute. reflexivity. Qed.

(** ** Adding, looking up and removing *)

(** X5: when the customers file cannot be written, adding a customer still
    puts it in the directory in memory and shows no message; the failure is
    only logged.  If the file cannot be opened it stays as it was; if the
    write fails midway, the file is left cut short, the next start loads an
    empty directory from it and writes the empty directory back. *)
Theorem add_save_failure (U : unicode) (s : ReceiptApp) (e : Env) (n : nat) :
  _normalize_for_comparison U (new_customer_var s) <> [] ->
  ~ In (_normalize_for_comparison U (new_customer_var s))
       (keys U (customers s)) ->
  let cs :=
    customers s
    ++ [Customer_named (_format_for_display U (new_customer_var s))] in
  let r1 := _add_new_customer U OpenError s e in
  let r2 := _add_new_customer U (WriteError n) s e in
  (customers (fst (fst r1)) = cs
   /\ disk (snd (fst r1)) = disk e
   /\ shown (snd (fst r1)) = shown e
   /\ log (snd (fst r1)) = log e ++ [u "save_customers failed"])
  /\ (customers (fst (fst r2)) = cs
      /\ shown (snd (fst r2)) = shown e
      /\ log (snd (fst r2)) = log e ++ [u "save_customers failed"]
      /\ fst (load_customers true (snd (fst r2))) = []
      /\ disk (snd (init_customers true Written (snd (fst r2)))) CUSTOMER_FILE
         = Some (Json (JArray []))).
Proof.
  intros Hne Hin cs r1 r2.
  destruct (add_fresh U OpenError s e Hne Hin) as (E1 & _ & E1' & _).
  destruct (add_fresh U (WriteError n) s e Hne Hin) as (E2 & _ & E2' & _).
  fold cs in E1, E1', E2, E2'. fold r1 in E1, E1'. fold r2 in E2, E2'.
  rewrite E1, E1', E2, E2'. repeat split; reflexivity.
Qed.

Lemma add_save_failure_witness :
  let s := set_new_customer_var fresh_app (u "veli") in
  customers (fst (fst (_add_new_customer Ucd.py OpenError s no_files)))
  = [Customer_named (u "Veli")]
  /\ log (snd (fst (_add_new_customer Ucd.py OpenError s no_files)))
     = [u "save_customers failed"]
  /\ fst (load_customers true
            (snd (fst (_add_new_customer Ucd.py (WriteError 7) s no_files))))
     = [].
Proof.
  intros s.
  assert (H1 : _normalize_for_comparison Ucd.py (new_customer_var s) <> [])
    by (vm_compute; discriminate).
  assert (H2 : ~ In (_normalize_for_comparison Ucd.py (new_customer_var s))
                    (keys Ucd.py (customers s)))
    by (intros []).
  destruct (add_save_failure Ucd.py s no_files 7 H1 H2)
    as ((A & _ & _ & B) & (_ & _ & _ & C & _)).
  split; [exact A|]. split; [exact B | exact C].
Defined.

Lemma find_app_none {A : Type} (f : A -> bool) l l' :
  find f l = None -> find f (l ++ l') = find f l'.
Proof.
  induction l as [|x l IH]; simpl; [reflexivity|].
  destruct (f x); [discriminate | exact IH].
Qed.

Lemma keys_not_in U cs k :
  ~ In k (keys U cs) ->
  forall c, In c cs -> Str.eqb (_normalize_for_comparison U (name c)) k = false.
Proof.
  intros H c Hc. apply eqb_neq. intros E. apply H. unfold keys.
  apply in_map_iff. exists c. auto.
Qed.

(** X6: a customer that was added is found: after a name is added whose
    key is that of no entry and is kept by display-casing, the lookup of
    every query with that key returns the entry added, the display-cased
    name, whether or not the customers file could be written. *)
Theorem add_then_find (U : unicode) (w : write_result) (s : ReceiptApp)
  (e : Env) (nm : str) :
  _normalize_for_comparison U (new_customer_var s) <> [] ->
  ~ In (_normalize_for_comparison U (new_customer_var s))
       (keys U (customers s)) ->
  key_kept U (new_customer_var s) ->
  nm <> [] ->
  _normalize_for_comparison U nm
  = _normalize_for_comparison U (new_customer_var s) ->
  _find_customer_by_name U
    (customers (fst (fst (_add_new_customer U w s e)))) nm
  = Some (Customer_named (_format_for_display U (new_customer_var s))).
Proof.
  intros Hne Hin Hk Hnm Hq.
  destruct (add_fresh U w s e Hne Hin) as (-> & _).
  destruct nm as [|c0 nm0] eqn:En; [congruence|]. rewrite <- En in *.
  unfold _find_customer_by_name. rewrite En at 1. cbv zeta.
  rewrite (find_first _ (customers s) _ []); [reflexivity| |].
  - apply eqb_eq. cbn [name Customer_named]. rewrite Hq. exact Hk.
  - intros d Hd. rewrite Hq. apply (keys_not_in U (customers s)); assumption.
Qed.

Lemma add_then_find_witness :
  _find_customer_by_name Ucd.py
    (customers
       (fst (fst (_add_new_customer Ucd.py Written
                    (set_new_customer_var fresh_app (u "ayşe  kaya"))
                    no_files))))
    (u "AYŞE KAYA ")
  = Some (Customer_named
            (_format_for_display Ucd.py
               (new_customer_var
                  (set_new_customer_var fresh_app (u "ayşe  kaya"))))).
Proof.
  apply (add_then_find Ucd.py Written
           (set_new_customer_var fresh_app (u "ayşe  kaya")) no_files
           (u "AYŞE KAYA ")).
  - vm_compute. discriminate.
  - intros [].
  - vm_compute. reflexivity.
  - discriminate.
  - vm_compute. reflexivity.
Defined.

Lemma find_nonempty U cs nm :
  nm <> [] ->
  _find_customer_by_name U cs nm
  = match find (fun c => Str.eqb (_normalize_for_comparison U (name c))
                           (_normalize_for_comparison U nm)) cs with
    | Some c => Some c
    | None =>
      match difflib.get_close_matches (_normalize_for_comparison U nm)
              (map fst (candidates_of U cs)) (7 # 10) with
      | k :: _ => dict_get (candidates_of U cs) k
      | [] => None
      end
    end.
Proof. destruct nm; [congruence | reflexivity]. Qed.

Lemma filter_all {A : Type} (f : A -> bool) l :
  (forall x, In x l -> f x = true) -> filter f l = l.
Proof.
  induction l as [|x l IH]; intros H; simpl; [reflexivity|].
  rewrite H by now left. f_equal. apply IH. intros. apply H. now right.
Qed.

Lemma listbox_refresh_In U s nm :
  In nm (listbox (_refresh_listbox U s)) <-> In nm (map name (customers s)).
Proof.
  unfold _refresh_listbox. cbn [listbox set_listbox].
  split; apply Permutation_in.
  - apply Permutation_map, sorted_by_key_perm.
  - apply Permutation_sym, Permutation_map, sorted_by_key_perm.
Qed.

Lemma add_fresh_listbox U w s e :
  _normalize_for_comparison U (new_customer_var s) <> [] ->
  ~ In (_normalize_for_comparison U (new_customer_var s))
       (keys U (customers s)) ->
  forall nm,
    In nm (listbox (fst (fst (_add_new_customer U w s e))))
    <-> In nm (map name (customers s))
        \/ nm = _format_for_display U (new_customer_var s).
Proof.
  intros Hne Hin nm. unfold _add_new_customer.
  destruct (_normalize_for_comparison U (new_customer_var s)) eqn:E;
    [congruence|].
  destruct (existsb _ _) eqn:Ex.
  - exfalso. apply Hin. apply existsb_eqb_In. exact Ex.
  - cbn [fst]. rewrite listbox_refresh_In.
    cbn [customers set_new_customer_var set_customers].
    rewrite map_app, in_app_iff. simpl. intuition.
Qed.

(** X7: adding and then removing gives the directory back: after a name is
    added whose key is that of no entry and is kept by display-casing, the
    list box has a row with the display-cased name, and removing that row
    leaves the customers that were there before, in their order. *)
Theorem add_then_remove (U : unicode) (w : write_result) (s : ReceiptApp)
  (e : Env) :
  _normalize_for_comparison U (new_customer_var s) <> [] ->
  ~ In (_normalize_for_comparison U (new_customer_var s))
       (keys U (customers s)) ->
  key_kept U (new_customer_var s) ->
  let s1 := fst (fst (_add_new_customer U w s e)) in
  (exists i, i < length (listbox s1)
             /\ nth i (listbox s1) []
                = _format_for_display U (new_customer_var s))
  /\ (forall i w' e',
        nth i (listbox s1) [] = _format_for_display U (new_customer_var s) ->
        customers
          (fst (fst (_remove_selected_customer U true w' (select_row s1 i) e')))
        = customers s).
Proof.
  intros Hne Hin Hk s1. split.
  - assert (H : In (_format_for_display U (new_customer_var s)) (listbox s1)).
    { apply add_fresh_listbox; auto. }
    apply (In_nth _ _ []) in H as (i & Hi & E). eauto.
  - intros i w' e' Hi. rewrite remove_customers.
    cbn [curselection select_row listbox customers]. rewrite Hi.
    unfold s1. destruct (add_fresh U w s e Hne Hin) as (-> & _).
    rewrite filter_app. simpl. rewrite eqb_refl. simpl. rewrite app_nil_r.
    apply filter_all. intros c Hc. apply negb_true_iff.
    rewrite Hk. apply (keys_not_in U (customers s)); assumption.
Qed.

Lemma add_then_remove_witness :
  customers
    (fst (fst (_remove_selected_customer Ucd.py true Written
                 (select_row
                    (fst (fst (_add_new_customer Ucd.py Written
                                 (set_new_customer_var
                                    (set_customers fresh_app
                                       [Customer_named (u "Veli");
                                        Customer_named (u "Ayşe")])
                                    (u "mehmet")) no_files))) 1) no_files)))
  = customers
      (set_new_customer_var
         (set_customers fresh_app
            [Customer_named (u "Veli"); Customer_named (u "Ayşe")])
         (u "mehmet")).
Proof.
  apply (proj2 (add_then_remove Ucd.py Written
                  (set_new_customer_var
                     (set_customers fresh_app
                        [Customer_named (u "Veli"); Customer_named (u "Ayşe")])
                     (u "mehmet")) no_files
                  ltac:(vm_compute; discriminate)
                  ltac:(vm_compute; intros [H|[H|[]]]; discriminate)
                  ltac:(vm_compute; reflexivity))).
  vm_compute. reflexivity.
Defined.

Lemma candidates_of_snoc U cs c :
  candidates_of U (cs ++ [c])
  = dict_set (candidates_of U cs) (_normalize_for_comparison U (name c)) c.
Proof. unfold candidates_of. now rewrite fold_left_app. Qed.

Lemma candidates_of_last U cs :
  forall k c,
    dict_get (candidates_of U cs) k = Some c ->
    exists before after,
      cs = before ++ c :: after
      /\ _normalize_for_comparison U (name c) = k
      /\ forall d, In d after -> _normalize_for_comparison U (name d) <> k.
Proof.
  induction cs as [|c0 cs IH] using rev_ind; intros k c.
  - discriminate.
  - rewrite candidates_of_snoc, dict_get_set.
    destruct (Str.eqb (_normalize_for_comparison U (name c0)) k) eqn:E.
    + intros H. injection H as <-. apply eqb_eq in E.
      exists cs, []. split; [reflexivity|]. split; [exact E|]. intros d [].
    + intros H. apply IH in H as (before & after & -> & Hk & Ha).
      exists before, (after ++ [c0]). split; [now rewrite <- app_assoc|].
      split; [exact Hk|]. intros d Hd. apply in_app_iff in Hd as [Hd|[<-|[]]].
      * now apply Ha.
      * now apply eqb_neq.
Qed.

(** X8: the lookup returns stored customers only, and of the customers
    that share a key the exact match returns the first, the close match
    the last: a customer returned has the key of the query and is the
    first in the list with that key, or no customer has the key of the
    query and the customer returned is the last in the list with its own
    key. *)
Theorem find_returns_stored (U : unicode) (cs : list Customer) (nm : str)
  (c : Customer) :
  _find_customer_by_name U cs nm = Some c ->
  nm <> []
  /\ exists before after,
       cs = before ++ c :: after
       /\ ((_normalize_for_comparison U (name c)
            = _normalize_for_comparison U nm
            /\ forall d, In d before ->
                 _normalize_for_comparison U (name d)
                 <> _normalize_for_comparison U nm)
           \/ ((forall d, In d cs ->
                  _normalize_for_comparison U (name d)
                  <> _normalize_for_comparison U nm)
               /\ forall d, In d after ->
                    _normalize_for_comparison U (name d)
                    <> _normalize_for_comparison U (name c))).
Proof.
  unfold _find_customer_by_name. destruct nm as [|c0 nm0]; [discriminate|].
  set (key := _normalize_for_comparison U (c0 :: nm0)). cbv zeta.
  intros H. split; [discriminate|].
  destruct (find _ cs) as [c'|] eqn:Ef.
  - injection H as <-.
    assert (G : forall l, find (fun c => Str.eqb
                                 (_normalize_for_comparison U (name c)) key) l
                          = Some c' ->
                exists before after,
                  l = before ++ c' :: after
                  /\ _normalize_for_comparison U (name c') = key
                  /\ forall d, In d before ->
                       _normalize_for_comparison U (name d) <> key).
    { induction l as [|x l IH]; simpl; [discriminate|].
      destruct (Str.eqb (_normalize_for_comparison U (name x)) key) eqn:E.
      - intros H. injection H as ->. apply eqb_eq in E.
        exists [], l. split; [reflexivity|]. split; [exact E|]. intros d [].
      - intros H. apply IH in H as (before & after & -> & Hk & Hb).
        exists (x :: before), after. split; [reflexivity|].
        split; [exact Hk|]. intros d [<-|Hd]; [now apply eqb_neq | auto]. }
    apply G in Ef as (before & after & -> & Hk & Hb).
    exists before, after. split; [reflexivity|]. left. auto.
  - destruct (difflib.get_close_matches _ _ _) as [|k rest]; [discriminate|].
    apply candidates_of_last in H as (before & after & -> & Hk & Ha).
    exists before, after. split; [reflexivity|]. right. split.
    + intros d Hd. apply eqb_neq. eapply List.find_none in Ef; eauto.
    + intros d Hd. rewrite Hk. now apply Ha.
Qed.

Lemma find_returns_stored_witness :
  exists before after,
    [{| name := u "Ahmet"; phone := u "111"; address := [] |};
     {| name := u "AHMET"; phone := u "222"; address := [] |}]
    = before ++ {| name := u "AHMET"; phone := u "222"; address := [] |}
        :: after
    /\ (forall d, In d after ->
          _normalize_for_comparison Ucd.py (name d) <> u "ahmet").
Proof.
  destruct (find_returns_stored Ucd.py
              [{| name := u "Ahmet"; phone := u "111"; address := [] |};
               {| name := u "AHMET"; phone := u "222"; address := [] |}]
              (u "ahmed")
              {| name := u "AHMET"; phone := u "222"; address := [] |}
              ltac:(vm_compute; reflexivity))
    as (_ & before & after & E & [[H _]|[_ H]]).
  - vm_compute in H. discriminate.
  - exists before, after. split; [exact E | exact H].
Defined.

Example find_shared_key :
  let cs := [{| name := u "Ahmet"; phone := u "111"; address := [] |};
             {| name := u "AHMET"; phone := u "222"; address := [] |}] in
  option_map phone (_find_customer_by_name Ucd.py cs (u "ahmet"))
  = Some (u "111")
  /\ option_map phone (_find_customer_by_name Ucd.py cs (u "ahmed"))
     = Some (u "222").
Proof. vm_compute. split; reflexivity. Qed.

(** X9: a row of the list box, once selected, is looked up among the
    customers: for a list box filled from the directory, selecting a row
    puts its name in the name entry, and the lookup of a name that is not
    empty returns a stored customer with the key of that name. *)
Theorem listbox_row_found (U : unicode) (s : ReceiptApp) (i : nat) :
  i < length (customers s) ->
  let s' := _on_listbox_select (select_row (_refresh_listbox U s) i) in
  In (customer_name_var s') (map name (customers s))
  /\ customers s' = customers s
  /\ (customer_name_var s' <> [] ->
      exists c,
        _find_customer_by_name U (customers s') (customer_name_var s') = Some c
        /\ In c (customers s)
        /\ _normalize_for_comparison U (name c)
           = _normalize_for_comparison U (customer_name_var s')).
Proof.
  intros Hi s'.
  assert (Hrow : In (customer_name_var s') (map name (customers s))).
  { apply (listbox_refresh_In U s). unfold s', _on_listbox_select.
    cbn [curselection select_row customer_name_var set_customer_name_var
         listbox].
    apply nth_In.
    rewrite (Permutation_length (proj1 (refresh_listbox_rows U s))).
    now rewrite length_map. }
  split; [exact Hrow|]. split; [reflexivity|].
  intros Hne. change (customers s') with (customers s).
  rewrite find_nonempty by exact Hne.
  destruct (find _ (customers s)) as [c|] eqn:Ef.
  - exists c. apply find_some in Ef as [H1 H2]. apply eqb_eq in H2. auto.
  - exfalso. apply in_map_iff in Hrow as (c & E & Hc).
    eapply List.find_none in Ef; [|exact Hc]. cbv beta in Ef.
    rewrite E, eqb_refl in Ef. discriminate.
Qed.

Lemma listbox_row_found_witness :
  In (customer_name_var
        (_on_listbox_select
           (select_row
              (_refresh_listbox Ucd.py
                 (set_customers fresh_app
                    [Customer_named (u "Veli"); Customer_named (u "Ayşe")]))
              0)))
     (map name
        (customers
           (set_customers fresh_app
              [Customer_named (u "Veli"); Customer_named (u "Ayşe")]))).
Proof.
  apply (listbox_row_found Ucd.py
           (set_customers fresh_app
              [Customer_named (u "Veli"); Customer_named (u "Ayşe")]) 0).
  simpl. lia.
Defined.

(** ** Printing a receipt *)

Lemma set_last_save_dir_same s d :
  last_save_dir s = Some d -> set_last_save_dir s d = s.
Proof. destruct s. simpl. now intros ->. Qed.

(** With a valid form and a path to save under, [print_receipt] comes to
    writing the receipt of the form under that path, with the directory of
    the path remembered; before that only the question for the previous
    directory may be shown. *)
Lemma print_receipt_to_path U float_of_str str_of_Path a s e path :
  valid_form float_of_str s ->
  save_path_of a s = Some path ->
  exists e0,
    print_receipt U float_of_str str_of_Path a s e
    = save_and_print str_of_Path a path
        (receipt_text_of U float_of_str s (now_text a))
        (set_last_save_dir s (parent path)) e0
    /\ disk e0 = disk e /\ log e0 = log e
    /\ exists asked, shown e0 = shown e ++ asked.
Proof.
  intros (Hn & Hw & Hp) Hs. unfold print_receipt, save_path_of in *.
  unfold receipt_text_of, receipt_customer.
  destruct (strip (customer_name_var s)) as [|c0 nm] eqn:En; [congruence|].
  rewrite Hw, Hp. cbv zeta.
  destruct (last_save_dir s) as [[|d0 d]|] eqn:Ed.
  - unfold ask_save_path. rewrite Hs. exists e.
    split; [reflexivity|]. split; [reflexivity|]. split; [reflexivity|].
    exists []. now rewrite app_nil_r.
  - destruct (use_prev a).
    + injection Hs as <-. eexists. split.
      * unfold previous_dir_path. cbn [parent].
        rewrite (set_last_save_dir_same s (d0 :: d) Ed). reflexivity.
      * split; [reflexivity|]. split; [reflexivity|]. eexists. reflexivity.
    + unfold ask_save_path. rewrite Hs. eexists.
      split; [reflexivity|]. split; [reflexivity|]. split; [reflexivity|].
      eexists. reflexivity.
  - unfold ask_save_path. rewrite Hs. exists e.
    split; [reflexivity|]. split; [reflexivity|]. split; [reflexivity|].
    exists []. now rewrite app_nil_r.
Qed.

(** X10: a form that fails a test is refused and nothing happens but one
    warning: when the name is blank, when the weight or the price is
    empty or is not read as a number, and when one of them is zero or
    negative, [print_receipt] leaves the form, the files and the log as
    they are and shows one message. *)
Theorem print_receipt_refuses (U : unicode)
  (float_of_str : str -> option float) (str_of_Path : Path -> str)
  (a : PrintAnswers) (s : ReceiptApp) (e : Env) :
  strip (customer_name_var s) = []
  \/ weight_var s = []
  \/ float_of_str (replace1 44%N 46%N (weight_var s)) = None
  \/ (_parse_number float_of_str (weight_var s) <=? 0)%float = true
  \/ price_per_kg_var s = []
  \/ float_of_str (replace1 44%N 46%N (price_per_kg_var s)) = None
  \/ (_parse_number float_of_str (price_per_kg_var s) <=? 0)%float = true ->
  let r := print_receipt U float_of_str str_of_Path a s e in
  fst (fst r) = s
  /\ disk (snd (fst r)) = disk e
  /\ log (snd (fst r)) = log e
  /\ (exists message, shown (snd (fst r)) = shown e ++ [message])
  /\ snd r = PyNone.
Proof.
  intros H r.
  assert (H' : strip (customer_name_var s) = []
               \/ (_parse_number float_of_str (weight_var s) <=? 0)%float
                  = true
               \/ (_parse_number float_of_str (price_per_kg_var s) <=? 0)%float
                  = true).
  { destruct H as [H|[H|[H|[H|[H|[H|H]]]]]]; auto.
    - right. left. rewrite H. reflexivity.
    - right. left. unfold _parse_number.
      destruct (weight_var s); [reflexivity|]. now rewrite H.
    - right. right. rewrite H. reflexivity.
    - right. right. unfold _parse_number.
      destruct (price_per_kg_var s); [reflexivity|]. now rewrite H. }
  clear H. unfold r, print_receipt.
  destruct (strip (customer_name_var s)) as [|c0 nm].
  { cbn [fst snd disk log shown messagebox].
    repeat split; eexists; reflexivity. }
  destruct (_parse_number float_of_str (weight_var s) <=? 0)%float.
  { cbn [fst snd disk log shown messagebox].
    repeat split; eexists; reflexivity. }
  destruct (_parse_number float_of_str (price_per_kg_var s) <=? 0)%float.
  { cbn [fst snd disk log shown messagebox].
    repeat split; eexists; reflexivity. }
  destruct H' as [H|[H|H]]; discriminate.
Qed.

Lemma print_receipt_refuses_witness :
  fst (fst (print_receipt Ucd.py float_of_decimal fname zeynep_answers
              (set_customer_name_var (fst zeynep_form) (u "   "))
              (snd zeynep_form)))
  = set_customer_name_var (fst zeynep_form) (u "   ").
Proof.
  apply (print_receipt_refuses Ucd.py float_of_decimal fname zeynep_answers
           (set_customer_name_var (fst zeynep_form) (u "   "))
           (snd zeynep_form)).
  left. reflexivity.
Defined.

(** X11: a save dialog that is cancelled ends [print_receipt] without a
    trace: for a valid form the form stays as it is, filled, no file is
    written, nothing is logged, the directory remembered is the one before,
    and no message follows the question for the previous directory. *)
Theorem print_receipt_cancelled (U : unicode)
  (float_of_str : str -> option float) (str_of_Path : Path -> str)
  (a : PrintAnswers) (s : ReceiptApp) (e : Env) :
  valid_form float_of_str s ->
  save_path_of a s = None ->
  let r := print_receipt U float_of_str str_of_Path a s e in
  chosen a = None
  /\ fst (fst r) = s
  /\ disk (snd (fst r)) = disk e
  /\ log (snd (fst r)) = log e
  /\ (shown (snd (fst r)) = shown e
      \/ exists dir,
           last_save_dir s = Some dir
           /\ shown (snd (fst r))
              = shown e
                ++ [(u "Kaydetme yeri",
                     u "Önceki konuma kaydetmek istiyor musunuz?"
                     ++ [10%N] ++ dir)]).
Proof.
  intros (Hn & Hw & Hp) Hs r. unfold r, print_receipt, save_path_of in *.
  destruct (strip (customer_name_var s)) as [|c0 nm] eqn:En; [congruence|].
  rewrite Hw, Hp. cbv zeta.
  destruct (last_save_dir s) as [[|d0 d]|] eqn:Ed.
  - unfold ask_save_path. rewrite Hs. repeat split; auto.
  - destruct (use_prev a); [discriminate|].
    unfold ask_save_path. rewrite Hs. repeat split; auto.
    right. exists (d0 :: d). split; reflexivity.
  - unfold ask_save_path. rewrite Hs. repeat split; auto.
Qed.

Lemma print_receipt_cancelled_witness :
  fst (fst (print_receipt Ucd.py float_of_decimal fname
              {| use_prev := false; chosen := None;
                 now_text := u "2026-01-05 10:00:00";
                 now_file := u "20260105_100000";
                 tmp_written := Written; tmp_replaced := true;
                 printed := true |}
              (fst zeynep_form) (snd zeynep_form)))
  = fst zeynep_form.
Proof.
  apply (print_receipt_cancelled Ucd.py float_of_decimal fname
           {| use_prev := false; chosen := None;
              now_text := u "2026-01-05 10:00:00";
              now_file := u "20260105_100000";
              tmp_written := Written; tmp_replaced := true;
              printed := true |}
           (fst zeynep_form) (snd zeynep_form)).
  - split; [vm_compute; discriminate | split; vm_compute; reflexivity].
  - reflexivity.
Defined.

(** X12: a receipt that is written: for a valid form and a path to save
    under, when the temporary file is written and moved, the path holds
    the text of the receipt of the form, the temporary file is gone, every
    other file is as before; the piece count, the weight and the price of
    the form are emptied and the total reads "0.00", while the name, the
    item, the role and the customers stay; the directory of the path is
    remembered; the last message tells the path; and printing that fails
    leaves one record in the log and changes nothing else. *)
Theorem print_receipt_saved (U : unicode)
  (float_of_str : str -> option float) (str_of_Path : Path -> str)
  (a : PrintAnswers) (s : ReceiptApp) (e : Env) (path tmp : Path) :
  valid_form float_of_str s ->
  save_path_of a s = Some path ->
  with_suffix path (u ".tmp") = Some tmp ->
  tmp_written a = Written ->
  tmp_replaced a = true ->
  let r := print_receipt U float_of_str str_of_Path a s e in
  disk (snd (fst r)) path
  = Some (Text (receipt_text_of U float_of_str s (now_text a)))
  /\ (tmp <> path -> disk (snd (fst r)) tmp = None)
  /\ (forall q, q <> path -> q <> tmp -> disk (snd (fst r)) q = disk e q)
  /\ fst (fst r)
     = _clear_form_after_print (set_last_save_dir s (parent path))
  /\ (piece_count_var (fst (fst r)) = [] /\ weight_var (fst (fst r)) = []
      /\ price_per_kg_var (fst (fst r)) = []
      /\ total_var (fst (fst r)) = u "0.00"
      /\ customer_name_var (fst (fst r)) = customer_name_var s
      /\ item_type_var (fst (fst r)) = item_type_var s
      /\ role_var (fst (fst r)) = role_var s
      /\ customers (fst (fst r)) = customers s
      /\ last_save_dir (fst (fst r)) = Some (parent path))
  /\ log (snd (fst r))
     = log e ++ (if printed a then [] else [u "Printing failed"])
  /\ exists before,
       shown (snd (fst r))
       = before ++ [(u "Tamam", u "Fiş kaydedildi: " ++ str_of_Path path)].
Proof.
  intros Hv Hs Ht Hw Hr r.
  destruct (print_receipt_to_path U float_of_str str_of_Path a s e path Hv Hs)
    as (e0 & E & Hd & Hl & asked & Ha).
  unfold r. rewrite E. unfold save_and_print, _write_receipt_atomic.
  rewrite Ht, Hw, Hr. cbn [fst snd].
  assert (Hp : disk (_do_print (printed a)
                       (set_disk
                          (set_disk e0 (write_file (disk e0) tmp
                             (Text (receipt_text_of U float_of_str s
                                      (now_text a)))))
                          (replace_file
                             (disk (set_disk e0 (write_file (disk e0) tmp
                                (Text (receipt_text_of U float_of_str s
                                         (now_text a))))))
                             tmp path)))
               = replace_file
                   (write_file (disk e) tmp
                      (Text (receipt_text_of U float_of_str s (now_text a))))
                   tmp path).
  { unfold _do_print. destruct (printed a); cbn [disk set_disk
      logging_exception]; now rewrite Hd. }
  cbn [disk messagebox]. rewrite Hp.
  split; [now rewrite replace_file_dst, write_file_same|].
  split.
  { intros Hne. unfold replace_file.
    rewrite (Path_eqb_neq tmp path Hne), Path_eqb_refl. reflexivity. }
  split.
  { intros q H1 H2. now rewrite replace_file_other, write_file_other. }
  split; [reflexivity|].
  split; [repeat split|].
  split.
  { cbn [log messagebox]. unfold _do_print.
    destruct (printed a); cbn [log set_disk logging_exception];
      rewrite Hl; [now rewrite app_nil_r | reflexivity]. }
  eexists. cbn [shown messagebox]. reflexivity.
Qed.

Lemma print_receipt_saved_witness :
  disk (snd (fst (print_receipt Ucd.py float_of_decimal fname zeynep_answers
                    (fst zeynep_form) (snd zeynep_form))))
    {| parent := u "."; fname := u "fis.txt" |}
  = Some (Text (receipt_text_of Ucd.py float_of_decimal (fst zeynep_form)
                  (now_text zeynep_answers))).
Proof.
  apply (print_receipt_saved Ucd.py float_of_decimal fname zeynep_answers
           (fst zeynep_form) (snd zeynep_form)
           {| parent := u "."; fname := u "fis.txt" |}
           {| parent := u "."; fname := u "fis.tmp" |}).
  - split; [vm_compute; discriminate | split; vm_compute; reflexivity].
  - reflexivity.
  - vm_compute. reflexivity.
  - reflexivity.
  - reflexivity.
Defined.

(** ** The temporary file of a receipt *)

Lemma rfind_none c s : forall i, ~ In c s -> rfind c s i = None.
Proof.
  induction s as [|d s IH]; intros i H; simpl; [reflexivity|].
  rewrite IH by (intros H'; apply H; now right).
  destruct (N.eqb_spec d c) as [->|_]; [|reflexivity].
  exfalso. apply H. now left.
Qed.

Lemma rfind_last c x y : forall i,
  ~ In c y -> rfind c (x ++ c :: y) i = Some (i + length x).
Proof.
  induction x as [|d x IH]; intros i H; simpl.
  - rewrite rfind_none by exact H. rewrite N.eqb_refl. f_equal. lia.
  - rewrite IH by exact H. f_equal. lia.
Qed.

Lemma rfind_bound c s : forall i j, rfind c s i = Some j -> j < i + length s.
Proof.
  induction s as [|d s IH]; intros i j; simpl; [discriminate|].
  destruct (rfind c s (S i)) as [k|] eqn:E.
  - intros H. injection H as <-. apply IH in E. lia.
  - destruct (d =? c)%N; [|discriminate]. intros H. injection H as <-. lia.
Qed.

Lemma stem_suffix (nm : str) :
  firstn (length nm - length (suffix nm)) nm ++ suffix nm = nm.
Proof.
  unfold suffix. destruct (rfind 46%N nm 0) as [i|] eqn:E.
  - apply rfind_bound in E.
    destruct ((0 <? i) && (i <? length nm - 1)).
    + rewrite length_skipn.
      replace (length nm - (length nm - i)) with i by lia.
      apply firstn_skipn.
    + simpl. rewrite Nat.sub_0_r, firstn_all. apply app_nil_r.
  - simpl. rewrite Nat.sub_0_r, firstn_all. apply app_nil_r.
Qed.

Lemma with_suffix_stem p sfx :
  with_suffix p sfx
  = match fname p with
    | [] => None
    | _ :: _ =>
      Some {| parent := parent p;
              fname :=
                firstn (length (fname p) - length (suffix (fname p))) (fname p)
                ++ sfx |}
    end.
Proof.
  unfold with_suffix. destruct (fname p) as [|c n] eqn:E; [reflexivity|].
  cbv zeta. destruct (suffix (c :: n)) eqn:Es; [|reflexivity].
  replace (length (c :: n) - length (@nil char)) with (length (c :: n))
    by (simpl; lia).
  now rewrite firstn_all.
Qed.

Lemma with_suffix_some p sfx :
  fname p <> [] ->
  with_suffix p sfx
  = Some {| parent := parent p;
            fname :=
              firstn (length (fname p) - length (suffix (fname p))) (fname p)
              ++ sfx |}.
Proof.
  intros H. rewrite with_suffix_stem. destruct (fname p); congruence.
Qed.

(** X13: the temporary file of a path is the path with its suffix replaced
    by ".tmp", in the same directory; there is none for a path with an
    empty name; and the temporary file is the path itself exactly when the
    suffix of the path is ".tmp". *)
Theorem with_suffix_tmp (p : Path) :
  (with_suffix p (u ".tmp") = None <-> fname p = [])
  /\ (forall q,
        with_suffix p (u ".tmp") = Some q ->
        parent q = parent p
        /\ exists stem,
             fname p = stem ++ suffix (fname p)
             /\ fname q = stem ++ u ".tmp")
  /\ (with_suffix p (u ".tmp") = Some p
      <-> fname p <> [] /\ suffix (fname p) = u ".tmp").
Proof.
  rewrite with_suffix_stem. pose proof (stem_suffix (fname p)) as Hs.
  destruct (fname p) as [|c n] eqn:E.
  - split; [tauto|]. split; [discriminate|]. split; [discriminate|].
    intros [H _]. congruence.
  - rewrite <- E in *. split; [split; [discriminate | congruence]|]. split.
    + intros q H. injection H as <-. cbn [parent fname].
      split; [reflexivity|]. eexists. split; [symmetry; exact Hs | reflexivity].
    + split.
      * intros H. injection H as H. split; [congruence|].
        destruct p as [d nm]. cbn [fname parent] in *.
        apply (f_equal fname) in H. cbn [fname] in H.
        pose proof (eq_trans H (eq_sym Hs)) as H'.
        apply app_inv_head in H'. now symmetry.
      * intros [_ H]. destruct p as [d nm]. cbn [fname parent] in *.
        f_equal. f_equal. rewrite <- H. exact Hs.
Qed.

Lemma tmp_other_suffix path :
  fname path <> [] -> suffix (fname path) <> u ".tmp" ->
  exists tmp, with_suffix path (u ".tmp") = Some tmp /\ tmp <> path.
Proof.
  intros Hn Hs. rewrite with_suffix_stem.
  destruct (fname path) as [|c n] eqn:E; [congruence|]. rewrite <- E in *.
  eexists. split; [reflexivity|]. intros H. apply Hs.
  apply (f_equal fname) in H. cbn [fname] in H.
  pose proof (eq_trans H (eq_sym (stem_suffix (fname path)))) as H'.
  apply app_inv_head in H'. now symmetry.
Qed.

(** X14: a receipt is written whole or not at all under every path whose
    suffix is not ".tmp": either the call returns and the path holds the
    new content, or it raises [OSError], the path holds what it held
    before and the failure is logged; no file but the path and its
    temporary file changes, and a failure may leave the temporary file
    behind. *)
Theorem write_receipt_whole_or_not (w : write_result) (replaced : bool)
  (path : Path) (content : str) (e : Env) :
  fname path <> [] ->
  suffix (fname path) <> u ".tmp" ->
  let r := _write_receipt_atomic w replaced path content e in
  exists tmp,
    with_suffix path (u ".tmp") = Some tmp /\ tmp <> path
    /\ ((w = Written /\ replaced = true /\ snd r = Returned
         /\ disk (fst r) path = Some (Text content)
         /\ disk (fst r) tmp = None /\ log (fst r) = log e)
        \/ ((w <> Written \/ replaced = false) /\ snd r = Raised OSError
            /\ disk (fst r) path = disk e path
            /\ log (fst r) = log e ++ [u "Atomic write of receipt failed"]
            /\ (w = OpenError -> disk (fst r) tmp = disk e tmp)))
    /\ (forall q, q <> path -> q <> tmp -> disk (fst r) q = disk e q)
    /\ shown (fst r) = shown e.
Proof.
  intros Hn Hs r. destruct (tmp_other_suffix path Hn Hs) as (tmp & Ht & Hne).
  exists tmp. split; [exact Ht|]. split; [exact Hne|].
  assert (Hne' : path <> tmp) by congruence.
  split; [|split].
  - unfold r, _write_receipt_atomic. rewrite Ht.
    destruct w; [destruct replaced|..]; cbn [fst snd disk log set_disk
      logging_exception].
    + left. rewrite replace_file_dst, write_file_same.
      unfold replace_file. rewrite (Path_eqb_neq tmp path Hne), Path_eqb_refl.
      repeat split.
    + right. rewrite write_file_other by exact Hne'.
      repeat split; auto; discriminate.
    + right. repeat split; auto. left. discriminate.
    + right. rewrite write_file_other by exact Hne'.
      repeat split; auto; try discriminate. left. discriminate.
  - intros q H1 H2. apply (write_receipt_other _ _ _ _ _ tmp); assumption.
  - unfold r, _write_receipt_atomic. rewrite Ht.
    destruct w; [destruct replaced|..]; reflexivity.
Qed.

Lemma write_receipt_whole_or_not_witness :
  exists tmp,
    with_suffix {| parent := u "."; fname := u "fis.txt" |} (u ".tmp")
    = Some tmp
    /\ tmp <> {| parent := u "."; fname := u "fis.txt" |}.
Proof.
  destruct (write_receipt_whole_or_not (WriteError 4) true
              {| parent := u "."; fname := u "fis.txt" |} (u "Toplam: 99.00")
              no_files ltac:(discriminate) ltac:(discriminate))
    as (tmp & H1 & H2 & _).
  exists tmp. split; assumption.
Defined.

Lemma suffix_last (x y : str) :
  x <> [] -> y <> [] -> ~ In 46%N y -> suffix (x ++ 46%N :: y) = 46%N :: y.
Proof.
  intros Hx Hy Hd. unfold suffix. rewrite rfind_last by exact Hd.
  rewrite Nat.add_0_l.
  assert (H : (0 <? length x) && (length x <? length (x ++ 46%N :: y) - 1)
              = true).
  { apply andb_true_iff. rewrite !Nat.ltb_lt, length_app. cbn [length].
    destruct x; [congruence|]. destruct y; [congruence|]. cbn [length]. lia. }
  rewrite H, skipn_app, skipn_all, Nat.sub_diag. reflexivity.
Qed.

Lemma previous_dir_tmp a dir :
  with_suffix (previous_dir_path a dir) (u ".tmp")
  = Some {| parent := dir; fname := u "fis_" ++ now_file a ++ u ".tmp" |}
  /\ {| parent := dir; fname := u "fis_" ++ now_file a ++ u ".tmp" |}
     <> previous_dir_path a dir.
Proof.
  assert (Hs : suffix ((u "fis_" ++ now_file a) ++ 46%N :: u "txt")
               = 46%N :: u "txt").
  { apply suffix_last; [discriminate | discriminate |].
    vm_compute. intuition discriminate. }
  split.
  - rewrite with_suffix_some by discriminate.
    unfold previous_dir_path. cbn [fname parent].
    change (u "fis_" ++ now_file a ++ u ".txt")
      with ((u "fis_" ++ now_file a) ++ 46%N :: u "txt").
    rewrite Hs. f_equal. f_equal.
    rewrite length_app.
    rewrite Nat.add_sub, firstn_app, firstn_all, Nat.sub_diag. cbn [firstn].
    now rewrite app_nil_r, <- app_assoc.
  - unfold previous_dir_path. intros H. apply (f_equal fname) in H.
    cbn [fname] in H. rewrite !app_assoc in H. apply app_inv_head in H.
    discriminate.
Qed.

(** ** Receipts that are not written, and the receipt after *)

(** X15: a receipt that cannot be written: for a valid form and a path to
    save under that is not its own temporary file, when writing or moving
    the temporary file fails, the path holds what it held before, the form
    stays filled, the customers stay, two records are logged, nothing is
    printed and the last message is the error; the directory of the path
    is remembered all the same. *)
Theorem print_receipt_write_failure (U : unicode)
  (float_of_str : str -> option float) (str_of_Path : Path -> str)
  (a : PrintAnswers) (s : ReceiptApp) (e : Env) (path tmp : Path) :
  valid_form float_of_str s ->
  save_path_of a s = Some path ->
  with_suffix path (u ".tmp") = Some tmp ->
  tmp <> path ->
  tmp_written a <> Written \/ tmp_replaced a = false ->
  let r := print_receipt U float_of_str str_of_Path a s e in
  disk (snd (fst r)) path = disk e path
  /\ (forall q, q <> tmp -> disk (snd (fst r)) q = disk e q)
  /\ fst (fst r) = set_last_save_dir s (parent path)
  /\ log (snd (fst r))
     = log e ++ [u "Atomic write of receipt failed";
                 u "print_receipt failed during overall process"]
  /\ (exists before,
        shown (snd (fst r))
        = before
          ++ [(u "Hata",
               u "Fiş oluşturulurken beklenmedik bir hata oluştu. Lütfen tekrar deneyin.")])
  /\ snd r = PyNone.
Proof.
  intros Hv Hs Ht Hne Hf r.
  destruct (print_receipt_to_path U float_of_str str_of_Path a s e path Hv Hs)
    as (e0 & E & Hd & Hl & asked & Ha).
  assert (Hne' : path <> tmp) by congruence.
  unfold r. rewrite E. unfold save_and_print, _write_receipt_atomic.
  rewrite Ht.
  destruct (tmp_written a) as [| |n];
    [destruct (tmp_replaced a);
       [destruct Hf as [Hf|Hf]; [congruence | discriminate]|]|..];
    cbn [fst snd disk log shown set_disk logging_exception messagebox];
    rewrite ?Hd, ?Hl, <- ?app_assoc;
    (split; [now rewrite ?write_file_other by exact Hne'|]);
    (split; [intros q Hq; now rewrite ?write_file_other by exact Hq|]);
    (split; [reflexivity|]); (split; [reflexivity|]);
    (split; [eexists; reflexivity | reflexivity]).
Qed.

Lemma print_receipt_write_failure_witness :
  disk (snd (fst (print_receipt Ucd.py float_of_decimal fname
                    {| use_prev := false;
                       chosen := Some {| parent := u "."; fname := u "fis.txt" |};
                       now_text := u "2026-01-05 10:00:00";
                       now_file := u "20260105_100000";
                       tmp_written := WriteError 10; tmp_replaced := true;
                       printed := true |}
                    (fst zeynep_form) (snd zeynep_form))))
    {| parent := u "."; fname := u "fis.txt" |}
  = disk (snd zeynep_form) {| parent := u "."; fname := u "fis.txt" |}.
Proof.
  refine (proj1 (print_receipt_write_failure Ucd.py float_of_decimal fname
           {| use_prev := false;
              chosen := Some {| parent := u "."; fname := u "fis.txt" |};
              now_text := u "2026-01-05 10:00:00";
              now_file := u "20260105_100000";
              tmp_written := WriteError 10; tmp_replaced := true;
              printed := true |}
           (fst zeynep_form) (snd zeynep_form)
           {| parent := u "."; fname := u "fis.txt" |}
           {| parent := u "."; fname := u "fis.tmp" |} _ _ _ _ _)).
  - split; [vm_compute; discriminate | split; vm_compute; reflexivity].
  - reflexivity.
  - vm_compute. reflexivity.
  - discriminate.
  - left. discriminate.
Defined.

(** X16: a receipt for the previous directory: when a directory is
    remembered and the user agrees to it, a valid form is saved in that
    directory as "fis_" with the time stamp and ".txt", whatever the save
    dialog would give, and always whole or not at all: the file holds the
    receipt of the form when the temporary file is written and moved, and
    what it held before otherwise; the directory stays remembered. *)
Theorem print_receipt_previous_dir (U : unicode)
  (float_of_str : str -> option float) (str_of_Path : Path -> str)
  (a : PrintAnswers) (s : ReceiptApp) (e : Env) (dir : str) :
  valid_form float_of_str s ->
  last_save_dir s = Some dir ->
  dir <> [] ->
  use_prev a = true ->
  let r := print_receipt U float_of_str str_of_Path a s e in
  let path := {| parent := dir; fname := u "fis_" ++ now_file a ++ u ".txt" |} in
  (if match tmp_written a with Written => tmp_replaced a | _ => false end
   then disk (snd (fst r)) path
        = Some (Text (receipt_text_of U float_of_str s (now_text a)))
   else disk (snd (fst r)) path = disk e path)
  /\ last_save_dir (fst (fst r)) = Some dir
  /\ customers (fst (fst r)) = customers s.
Proof.
  intros Hv Hd Hn Hu. destruct dir as [|d0 d]; [congruence|].
  set (dir := d0 :: d) in *. intros r path.
  assert (Hs : save_path_of a s = Some path).
  { unfold save_path_of. rewrite Hd, Hu. reflexivity. }
  destruct (print_receipt_to_path U float_of_str str_of_Path a s e path Hv Hs)
    as (e0 & E & Hd0 & Hl & asked & Ha).
  destruct (previous_dir_tmp a dir) as [Ht Hne].
  change (previous_dir_path a dir) with path in Ht, Hne.
  assert (Hne' : path <> {| parent := dir;
                            fname := u "fis_" ++ now_file a ++ u ".tmp" |})
    by congruence.
  unfold r. rewrite E. unfold save_and_print, _write_receipt_atomic.
  rewrite Ht.
  destruct (tmp_written a) as [| |n]; [destruct (tmp_replaced a)|..];
    cbn [fst snd disk log shown set_disk logging_exception messagebox
         customers last_save_dir set_last_save_dir _clear_form_after_print
         set_form_after_print parent];
    (split; [|split; reflexivity]).
  - unfold _do_print. destruct (printed a);
      cbn [disk set_disk logging_exception];
      now rewrite replace_file_dst, write_file_same.
  - now rewrite write_file_other, Hd0 by exact Hne'.
  - now rewrite Hd0.
  - now rewrite write_file_other, Hd0 by exact Hne'.
Qed.

Lemma print_receipt_previous_dir_witness :
  last_save_dir
    (fst (fst (print_receipt Ucd.py float_of_decimal fname
                 {| use_prev := true; chosen := None;
                    now_text := u "2026-01-05 10:00:00";
                    now_file := u "20260105_100000";
                    tmp_written := Written; tmp_replaced := true;
                    printed := true |}
                 (set_last_save_dir (fst zeynep_form) (u "fisler"))
                 (snd zeynep_form))))
  = Some (u "fisler").
Proof.
  apply (print_receipt_previous_dir Ucd.py float_of_decimal fname
           {| use_prev := true; chosen := None;
              now_text := u "2026-01-05 10:00:00";
              now_file := u "20260105_100000";
              tmp_written := Written; tmp_replaced := true;
              printed := true |}
           (set_last_save_dir (fst zeynep_form) (u "fisler"))
           (snd zeynep_form) (u "fisler")).
  - split; [vm_compute; discriminate | split; vm_compute; reflexivity].
  - reflexivity.
  - discriminate.
  - reflexivity.
Defined.

(** X17: after a receipt is saved the form must be filled again: the
    weight was emptied, so the next [print_receipt], whatever the answers,
    asks for a positive weight and does nothing else. *)
Theorem print_receipt_twice (U : unicode)
  (float_of_str : str -> option float) (str_of_Path : Path -> str)
  (a a' : PrintAnswers) (s : ReceiptApp) (e e' : Env) (path tmp : Path) :
  valid_form float_of_str s ->
  save_path_of a s = Some path ->
  with_suffix path (u ".tmp") = Some tmp ->
  tmp_written a = Written ->
  tmp_replaced a = true ->
  let s1 := fst (fst (print_receipt U float_of_str str_of_Path a s e)) in
  print_receipt U float_of_str str_of_Path a' s1 e'
  = (s1, messagebox e' (u "Geçersiz") (u "Kilo pozitif bir sayı olmalı."),
     PyNone).
Proof.
  intros Hv Hs Ht Hw Hr s1.
  destruct (print_receipt_to_path U float_of_str str_of_Path a s e path Hv Hs)
    as (e0 & E & _).
  assert (E1 : s1 = _clear_form_after_print
                      (set_last_save_dir s (parent path))).
  { unfold s1. rewrite E. unfold save_and_print, _write_receipt_atomic.
    rewrite Ht, Hw, Hr. reflexivity. }
  destruct Hv as (Hn & _).
  unfold print_receipt.
  replace (customer_name_var s1) with (customer_name_var s)
    by (rewrite E1; reflexivity).
  destruct (strip (customer_name_var s)) as [|c0 nm]; [congruence|].
  replace (weight_var s1) with (@nil char) by (rewrite E1; reflexivity).
  reflexivity.
Qed.

Lemma print_receipt_twice_witness :
  print_receipt Ucd.py float_of_decimal fname zeynep_answers
    (fst (fst (print_receipt Ucd.py float_of_decimal fname zeynep_answers
                 (fst zeynep_form) (snd zeynep_form))))
    no_files
  = (fst (fst (print_receipt Ucd.py float_of_decimal fname zeynep_answers
                 (fst zeynep_form) (snd zeynep_form))),
     messagebox no_files (u "Geçersiz") (u "Kilo pozitif bir sayı olmalı."),
     PyNone).
Proof.
  apply (print_receipt_twice Ucd.py float_of_decimal fname zeynep_answers
           zeynep_answers (fst zeynep_form) (snd zeynep_form) no_files
           {| parent := u "."; fname := u "fis.txt" |}
           {| parent := u "."; fname := u "fis.tmp" |}).
  - split; [vm_compute; discriminate | split; vm_compute; reflexivity].
  - reflexivity.
  - vm_compute. reflexivity.
  - reflexivity.
  - reflexivity.
Defined.

(** ** A weight that is not a number *)

Lemma format_f_nan prec x : Prim2SF x = S754_nan -> format_f prec x = u "nan".
Proof. intros H. unfold format_f. now rewrite H. Qed.

Lemma nan_mul_l x : Prim2SF (nan * x) = S754_nan.
Proof. rewrite mul_spec. destruct (Prim2SF x); reflexivity. Qed.

Lemma nan_mul_nan x y : Prim2SF x = S754_nan -> Prim2SF (x * y) = S754_nan.
Proof. intros H. rewrite mul_spec, H. destruct (Prim2SF y); reflexivity. Qed.

Lemma nan_add_nan x y : Prim2SF x = S754_nan -> Prim2SF (x + y) = S754_nan.
Proof. intros H. rewrite add_spec, H. destruct (Prim2SF y); reflexivity. Qed.

Lemma print_receipt_file U float_of_str str_of_Path a s e path tmp :
  valid_form float_of_str s ->
  save_path_of a s = Some path ->
  with_suffix path (u ".tmp") = Some tmp ->
  tmp_written a = Written ->
  tmp_replaced a = true ->
  disk (snd (fst (print_receipt U float_of_str str_of_Path a s e))) path
  = Some (Text (receipt_text_of U float_of_str s (now_text a))).
Proof.
  intros Hv Hs Ht Hw Hr.
  destruct (print_receipt_to_path U float_of_str str_of_Path a s e path Hv Hs)
    as (e0 & E & _).
  rewrite E. unfold save_and_print, _write_receipt_atomic.
  rewrite Ht, Hw, Hr. cbn [fst snd disk messagebox]. unfold _do_print.
  destruct (printed a); cbn [disk set_disk logging_exception];
    now rewrite replace_file_dst, write_file_same.
Qed.

(** X18: the tests of [print_receipt] let a weight pass that is not a
    number: when the weight entered is read by [float] as "nan", the form
    is valid if the name is not blank and the price passes its test, the
    receipt of the form gives the weight as "nan kg" and the total as
    "nan", and this receipt is saved under the path chosen. *)
Theorem nan_weight_accepted (U : unicode)
  (float_of_str : str -> option float) (str_of_Path : Path -> str)
  (a : PrintAnswers) (s : ReceiptApp) (e : Env) :
  strip (customer_name_var s) <> [] ->
  weight_var s <> [] ->
  float_of_str (replace1 44%N 46%N (weight_var s)) = Some nan ->
  (_parse_number float_of_str (price_per_kg_var s) <=? 0)%float = false ->
  valid_form float_of_str s
  /\ (forall now,
        exists pre post,
          receipt_text_of U float_of_str s now
          = pre ++ u "Kilo: nan kg" ++ [10%N] ++ post
            ++ u "Toplam: nan" ++ [10%N])
  /\ (forall path tmp,
        save_path_of a s = Some path ->
        with_suffix path (u ".tmp") = Some tmp ->
        tmp_written a = Written ->
        tmp_replaced a = true ->
        disk (snd (fst (print_receipt U float_of_str str_of_Path a s e))) path
        = Some (Text (receipt_text_of U float_of_str s (now_text a)))).
Proof.
  intros Hn Hw Hf Hp.
  assert (Ew : _parse_number float_of_str (weight_var s) = nan).
  { unfold _parse_number. destruct (weight_var s); [congruence|].
    now rewrite Hf. }
  assert (Hv : valid_form float_of_str s).
  { split; [exact Hn|]. split; [|exact Hp]. rewrite Ew. reflexivity. }
  split; [exact Hv|]. split.
  - intros now. unfold receipt_text_of, _generate_receipt_text, receipt_amounts.
    rewrite Ew.
    rewrite (format_f_nan 2 nan) by reflexivity.
    rewrite (format_f_nan 2 (nan * _ + _)%float)
      by (apply nan_add_nan, nan_mul_l).
    exists (u "=== SEBZE-MEYVE FİŞİ ===" ++ [10%N]
            ++ u "Tarih: " ++ now ++ [10%N]
            ++ u "Müşteri Türü: " ++ role_var s ++ [10%N]
            ++ u "Müşteri Adı: " ++ name (receipt_customer U s) ++ [10%N]
            ++ u "Malın Cinsi: " ++ item_type_var s ++ [10%N]
            ++ u "Parça Adedi: " ++ piece_count_var s ++ [10%N]).
    exists (u "Birim Fiyat: "
            ++ format_f 2 (_parse_number float_of_str (price_per_kg_var s))
            ++ [10%N] ++ u "Net Tutar: "
            ++ format_f 2
                 (nan * _parse_number float_of_str (price_per_kg_var s))
            ++ [10%N] ++ u "KDV (%"
            ++ format_f 0 (ROLE_VAT_MAP_get (role_var s) * 100) ++ u "): "
            ++ format_f 2
                 (nan * _parse_number float_of_str (price_per_kg_var s)
                  * ROLE_VAT_MAP_get (role_var s))
            ++ [10%N]).
    change (u "Kilo: nan kg") with (u "Kilo: " ++ u "nan" ++ u " kg").
    change (u "Toplam: nan") with (u "Toplam: " ++ u "nan").
    rewrite <- !app_assoc. reflexivity.
  - intros path tmp Hs Ht Hwr Hr.
    now apply (print_receipt_file U float_of_str str_of_Path a s e path tmp).
Qed.

Lemma nan_weight_accepted_witness :
  valid_form float_of_literal nan_form
  /\ disk (snd (fst (print_receipt Ucd.py float_of_literal fname
                       zeynep_answers nan_form (snd zeynep_form))))
       {| parent := u "."; fname := u "fis.txt" |}
     = Some (Text (receipt_text_of Ucd.py float_of_literal nan_form
                     (now_text zeynep_answers))).
Proof.
  destruct (nan_weight_accepted Ucd.py float_of_literal fname zeynep_answers
              nan_form (snd zeynep_form)
              ltac:(vm_compute; discriminate) ltac:(discriminate)
              ltac:(vm_compute; reflexivity) ltac:(vm_compute; reflexivity))
    as (H1 & _ & H3).
  split; [exact H1|].
  apply (H3 {| parent := u "."; fname := u "fis.txt" |}
            {| parent := u "."; fname := u "fis.tmp" |});
    vm_compute; reflexivity.
Defined.

Example nan_receipt :
  total_var (calculate_total float_of_literal nan_form) = u "nan TL"
  /\ receipt_text_of Ucd.py float_of_literal nan_form (u "2026-01-05 10:00:00")
     = u "=== SEBZE-MEYVE FİŞİ ===" ++ [10%N]
       ++ u "Tarih: 2026-01-05 10:00:00" ++ [10%N]
       ++ u "Müşteri Türü: Pazarcı Esnafı" ++ [10%N]
       ++ u "Müşteri Adı: Zeynep" ++ [10%N]
       ++ u "Malın Cinsi: ELMA" ++ [10%N]
       ++ u "Parça Adedi: 2" ++ [10%N]
       ++ u "Kilo: nan kg" ++ [10%N]
       ++ u "Birim Fiyat: 5.00" ++ [10%N]
       ++ u "Net Tutar: nan" ++ [10%N]
       ++ u "KDV (%2): nan" ++ [10%N]
       ++ u "Toplam: nan" ++ [10%N].
Proof. vm_compute. split; reflexivity. Qed.

(** ** More on adding and removing *)

(** X19: a name that was added is refused the second time if
    display-casing keeps its key: after [raw] is added, adding any name
    with the key of [raw] changes nothing and tells that the customer is
    there already. *)
Theorem add_twice_refused (U : unicode) (w w' : write_result)
  (s : ReceiptApp) (e e' : Env) (raw' : str) :
  _normalize_for_comparison U (new_customer_var s) <> [] ->
  key_kept U (new_customer_var s) ->
  _normalize_for_comparison U raw'
  = _normalize_for_comparison U (new_customer_var s) ->
  let s1 := fst (fst (_add_new_customer U w s e)) in
  In (_normalize_for_comparison U (new_customer_var s)) (keys U (customers s1))
  /\ _add_new_customer U w' (set_new_customer_var s1 raw') e'
     = (set_new_customer_var s1 raw',
        messagebox e' (u "Bilgi") (u "Bu müşteri zaten mevcut."), PyNone).
Proof.
  intros Hne Hk Hq s1.
  assert (Hin : In (_normalize_for_comparison U (new_customer_var s))
                   (keys U (customers s1))).
  { unfold s1.
    destruct (in_dec (list_eq_dec N.eq_dec)
                (_normalize_for_comparison U (new_customer_var s))
                (keys U (customers s))) as [Hin|Hn].
    - now rewrite add_duplicate.
    - destruct (add_fresh U w s e Hne Hn) as (-> & _).
      rewrite keys_app, in_app_iff. right. left. exact Hk. }
  split; [exact Hin|].
  apply add_duplicate; cbn [new_customer_var set_new_customer_var customers];
    rewrite Hq; assumption.
Qed.

Lemma add_twice_refused_witness :
  _add_new_customer Ucd.py Written
    (set_new_customer_var
       (fst (fst (_add_new_customer Ucd.py Written
                    (set_new_customer_var fresh_app (u "Ali")) no_files)))
       (u " ALI "))
    no_files
  = (set_new_customer_var
       (fst (fst (_add_new_customer Ucd.py Written
                    (set_new_customer_var fresh_app (u "Ali")) no_files)))
       (u " ALI "),
     messagebox no_files (u "Bilgi") (u "Bu müşteri zaten mevcut."), PyNone).
Proof.
  refine (proj2 (add_twice_refused Ucd.py Written Written
                   (set_new_customer_var fresh_app (u "Ali")) no_files
                   no_files (u " ALI ") _ _ _)).
  - vm_compute. discriminate.
  - vm_compute. reflexivity.
  - vm_compute. reflexivity.
Defined.

(** X20: without a row selected, or with the question answered no,
    removing changes nothing: the form, the customers, the files and the
    log are as before; only the notice or the question was shown. *)
Theorem remove_declined (U : unicode) (confirmed : bool) (w : write_result)
  (s : ReceiptApp) (e : Env) :
  curselection s = None \/ confirmed = false ->
  let r := _remove_selected_customer U confirmed w s e in
  fst (fst r) = s
  /\ disk (snd (fst r)) = disk e
  /\ log (snd (fst r)) = log e
  /\ exists message, shown (snd (fst r)) = shown e ++ [message].
Proof.
  intros H r. unfold r, _remove_selected_customer.
  destruct (curselection s) as [i|].
  - destruct H as [H| ->]; [discriminate|].
    cbn [fst snd disk log shown messagebox].
    repeat split. eexists. reflexivity.
  - cbn [fst snd disk log shown messagebox].
    repeat split. eexists. reflexivity.
Qed.

Lemma remove_declined_witness :
  fst (fst (_remove_selected_customer Ucd.py false Written ali_selected
              no_files))
  = ali_selected.
Proof.
  refine (proj1 (remove_declined Ucd.py false Written ali_selected no_files _)).
  right. reflexivity.
Defined.

(** X21: a customer that was removed is not found by its name again:
    after the row selected is removed, the lookup of its name returns
    nobody or a customer that is still stored and has another key, one of
    a similar name. *)
Theorem remove_then_find (U : unicode) (w : write_result) (s : ReceiptApp)
  (e : Env) (i : nat) (c : Customer) :
  curselection s = Some i ->
  let nm := nth i (listbox s) [] in
  let s' := fst (fst (_remove_selected_customer U true w s e)) in
  _find_customer_by_name U (customers s') nm = Some c ->
  In c (customers s') /\ In c (customers s)
  /\ _normalize_for_comparison U (name c) <> _normalize_for_comparison U nm
  /\ (7 # 10 <= difflib.ratio (_normalize_for_comparison U (name c))
                  (_normalize_for_comparison U nm))%Q.
Proof.
  intros Hsel nm s'.
  assert (Hc : forall d, In d (customers s') <->
                 In d (customers s)
                 /\ _normalize_for_comparison U (name d)
                    <> _normalize_for_comparison U nm).
  { intros d. unfold s'. rewrite remove_customers, Hsel, filter_In.
    rewrite negb_true_iff, eqb_neq. reflexivity. }
  intros Hf.
  assert (Hnm : nm <> []) by (intros E; rewrite E in Hf; discriminate).
  rewrite find_nonempty in Hf by exact Hnm.
  destruct (find _ (customers s')) as [c'|] eqn:Ef.
  - apply find_some in Ef as [H1 H2]. apply eqb_eq in H2.
    apply Hc in H1 as [_ H1]. contradiction.
  - pose proof (get_close_matches_spec (_normalize_for_comparison U nm)
                  (map fst (candidates_of U (customers s'))) (7 # 10)) as Hm.
    destruct (difflib.get_close_matches _ _ _) as [|k rest]; [discriminate|].
    destruct Hm as (_ & _ & Hcut & _).
    destruct (candidates_of_spec U (customers s')) as [Hg _].
    apply Hg in Hf as [H1 H2]. split; [exact H1|].
    apply Hc in H1 as [H1 H3]. split; [exact H1|]. split; [exact H3|].
    now rewrite H2.
Qed.

Lemma remove_then_find_witness :
  let s := select_row
             (_refresh_listbox Ucd.py
                (set_customers fresh_app
                   [Customer_named (u "Ahmet"); Customer_named (u "Ahmed")]))
             1 in
  In (Customer_named (u "Ahmed"))
     (customers
        (fst (fst (_remove_selected_customer Ucd.py true Written s no_files))))
  /\ _normalize_for_comparison Ucd.py (name (Customer_named (u "Ahmed")))
     <> _normalize_for_comparison Ucd.py (nth 1 (listbox s) []).
Proof.
  intros s.
  destruct (remove_then_find Ucd.py Written s no_files 1
              (Customer_named (u "Ahmed")) eq_refl
              ltac:(vm_compute; reflexivity)) as (H1 & _ & H3 & _).
  split; [exact H1 | exact H3].
Defined.

(** X22: what is removed while the customers file cannot be opened comes
    back: if the file held the directory before, the customers with the
    key selected leave the directory in memory, the file still holds all
    of them, the failure is logged and not shown, and the next start loads
    the directory as it was before the removal. *)
Theorem remove_save_failure (U : unicode) (s : ReceiptApp) (e : Env)
  (i : nat) :
  curselection s = Some i ->
  disk e CUSTOMER_FILE = Some (Json (JArray (map to_dict (customers s)))) ->
  let r := _remove_selected_customer U true OpenError s e in
  (forall c,
     In c (customers (fst (fst r)))
     <-> In c (customers s)
         /\ _normalize_for_comparison U (name c)
            <> _normalize_for_comparison U (nth i (listbox s) []))
  /\ disk (snd (fst r)) = disk e
  /\ log (snd (fst r)) = log e ++ [u "save_customers failed"]
  /\ shown (snd (fst r))
     = shown e
       ++ [(u "Sil",
            u "'" ++ nth i (listbox s) []
            ++ u "' müşterisini silmek istiyor musunuz?")]
  /\ fst (load_customers true (snd (fst r))) = customers s.
Proof.
  intros Hsel Hd r.
  assert (He : snd (fst r)
               = logging_exception
                   (messagebox e (u "Sil")
                      (u "'" ++ nth i (listbox s) []
                       ++ u "' müşterisini silmek istiyor musunuz?"))
                   (u "save_customers failed")).
  { unfold r. rewrite (remove_env U OpenError s e i Hsel). reflexivity. }
  split.
  - intros c. unfold r. rewrite remove_customers, Hsel, filter_In.
    rewrite negb_true_iff, eqb_neq. reflexivity.
  - rewrite He. cbn [disk log shown logging_exception messagebox].
    repeat split.
    unfold load_customers. cbn [disk logging_exception messagebox].
    rewrite Hd, from_dicts_to_dict. reflexivity.
Qed.

Lemma remove_save_failure_witness :
  fst (load_customers true
         (snd (fst (_remove_selected_customer Ucd.py true OpenError
                      ali_selected
                      (snd (add_customer Ucd.py (u "Ali")
                              (fresh_app, no_files)))))))
  = customers ali_selected.
Proof.
  refine (proj2 (proj2 (proj2 (proj2
            (remove_save_failure Ucd.py ali_selected
               (snd (add_customer Ucd.py (u "Ali") (fresh_app, no_files)))
               0 eq_refl _))))).
  vm_compute. reflexivity.
Defined.

(** ** Filtering the list box while a name is typed *)

Lemma startswith_spec (s p : str) :
  startswith s p = true <-> exists post, s = p ++ post.
Proof.
  revert s. induction p as [|d p IH]; intros s.
  - destruct s; simpl; split; eauto.
  - destruct s as [|c s]; simpl.
    + split; [discriminate | intros (post & H); discriminate].
    + rewrite andb_true_iff, N.eqb_eq, IH. split.
      * intros (-> & post & ->). eauto.
      * intros (post & H). injection H as -> ->. eauto.
Qed.

Lemma contains_spec (s p : str) :
  contains s p = true <-> exists pre post, s = pre ++ p ++ post.
Proof.
  induction s as [|c s IH].
  - cbn [contains]. rewrite orb_false_r, startswith_spec. split.
    + intros (post & H). exists [], post. exact H.
    + intros (pre & post & H). destruct pre as [|x pre]; [|discriminate].
      eauto.
  - cbn [contains]. rewrite orb_true_iff, startswith_spec, IH. split.
    + intros [(post & H)|(pre & post & H)].
      * exists [], post. exact H.
      * exists (c :: pre), post. now rewrite H.
    + intros (pre & post & H). destruct pre as [|x pre].
      * left. eauto.
      * right. injection H as _ H. eauto.
Qed.

Lemma insert_desc_perm item l : Permutation (insert_desc item l) (item :: l).
Proof.
  induction l as [|x l IH]; simpl; [reflexivity|].
  destruct (difflib.scored_gtb item x); [reflexivity|].
  rewrite IH. apply perm_swap.
Qed.

Lemma nlargest_In n result x : In x (nlargest n result) -> In x result.
Proof.
  assert (P : Permutation (fold_right insert_desc [] result) result).
  { induction result as [|y l IH]; simpl; [reflexivity|].
    eapply Permutation_trans; [apply insert_desc_perm | now apply perm_skip]. }
  unfold nlargest. intros H. apply In_firstn in H.
  eapply Permutation_in; eassumption.
Qed.

(** The close matches are possibilities, at most [n], each as similar to
    the word as the cutoff asks. *)
Lemma get_close_matches_n_spec word possibilities n cutoff :
  length (get_close_matches_n word possibilities n cutoff) <= n
  /\ forall k, In k (get_close_matches_n word possibilities n cutoff) ->
               In k possibilities /\ (cutoff <= difflib.ratio k word)%Q.
Proof.
  unfold get_close_matches_n. split.
  - rewrite length_map. unfold nlargest. rewrite length_firstn. lia.
  - intros k H. apply in_map_iff in H as ([q x] & <- & H).
    apply nlargest_In in H. apply in_map_iff in H as (y & E & H).
    injection E as _ ->. apply filter_In in H as [H1 H2].
    rewrite close_enough_ratio in H2. apply Qle_bool_iff in H2. auto.
Qed.

Lemma insert_by_lower_perm U x l : Permutation (insert_by_lower U x l) (x :: l).
Proof.
  induction l as [|y l IH]; simpl; [reflexivity|].
  destruct (Str.ltb _ _); [reflexivity|].
  rewrite IH. apply perm_swap.
Qed.

Lemma sorted_by_lower_perm U l : Permutation (sorted_by_lower U l) l.
Proof.
  unfold sorted_by_lower.
  assert (H : forall acc,
            Permutation (fold_left (fun acc x => insert_by_lower U x acc) l acc)
              (acc ++ l)).
  { induction l as [|x l IH]; intros acc; simpl.
    - now rewrite app_nil_r.
    - rewrite IH, insert_by_lower_perm. simpl.
      now rewrite Permutation_middle. }
  apply (H []).
Qed.

Lemma insert_by_lower_sorted U x l :
  StronglySorted (fun x y => Str.ltb (lower U y) (lower U x) = false) l ->
  StronglySorted (fun x y => Str.ltb (lower U y) (lower U x) = false)
    (insert_by_lower U x l).
Proof.
  induction 1 as [|y l Hs IH Hf]; simpl.
  - repeat constructor.
  - destruct (Str.ltb (lower U x) (lower U y)) eqn:E.
    + constructor; [now constructor|].
      constructor; [now apply ltb_asym|].
      rewrite Forall_forall in *. intros z Hz.
      eapply leb_trans; [|apply Hf; exact Hz]. now apply ltb_asym.
    + constructor; [exact IH|].
      rewrite (insert_by_lower_perm U x l). constructor; assumption.
Qed.

Lemma sorted_by_lower_sorted U l :
  StronglySorted (fun x y => Str.ltb (lower U y) (lower U x) = false)
    (sorted_by_lower U l).
Proof.
  unfold sorted_by_lower.
  assert (H : forall acc,
            StronglySorted
              (fun x y => Str.ltb (lower U y) (lower U x) = false) acc ->
            StronglySorted
              (fun x y => Str.ltb (lower U y) (lower U x) = false)
              (fold_left (fun acc x => insert_by_lower U x acc) l acc)).
  { induction l as [|x l IH]; intros acc Ha; simpl; [exact Ha|].
    apply IH. now apply insert_by_lower_sorted. }
  apply H. constructor.
Qed.

Lemma first_added_set l :
  NoDup (first_added l) /\ forall x, In x (first_added l) <-> In x l.
Proof.
  unfold first_added. split.
  - apply NoDup_rev, NoDup_nodup.
  - intros x. now rewrite <- in_rev, nodup_In, <- in_rev.
Qed.

(** X23: the list box while a name is typed.  Whatever the order in which
    the set of matches gives its elements: the customers stay and no row
    is selected; with an empty entry the list box shows all customers as
    [_refresh_listbox] does; otherwise it shows no name twice, in
    ascending order of the lowercased names, and every row is the name of
    a stored customer whose key contains the key typed or is similar to it
    with a ratio of at least 0.6, so that an entry of blanks only, whose
    key is empty, empties the list box; and every customer whose key
    contains the key typed has its name in the list box. *)
Theorem on_name_typing_rows (U : unicode) (set_order : list str -> list str)
  (s : ReceiptApp) :
  (forall l, NoDup (set_order l) /\ forall x, In x (set_order l) <-> In x l) ->
  let typed := _normalize_for_comparison U (customer_name_var s) in
  let s' := _on_name_typing U set_order s in
  customers s' = customers s
  /\ curselection s' = None
  /\ (customer_name_var s = [] ->
      listbox s' = listbox (_refresh_listbox U s))
  /\ (customer_name_var s <> [] ->
      NoDup (listbox s')
      /\ StronglySorted (fun x y => Str.ltb (lower U y) (lower U x) = false)
           (listbox s')
      /\ (forall row,
            In row (listbox s') ->
            typed <> []
            /\ exists c,
                 In c (customers s) /\ name c = row
                 /\ ((exists pre post,
                        _normalize_for_comparison U (name c)
                        = pre ++ typed ++ post)
                     \/ (6 # 10
                         <= difflib.ratio
                              (_normalize_for_comparison U (name c)) typed)%Q))
      /\ (forall c pre post,
            In c (customers s) ->
            typed <> [] ->
            _normalize_for_comparison U (name c) = pre ++ typed ++ post ->
            In (name c) (listbox s'))).
Proof.
  intros Hset typed s'. unfold s', _on_name_typing. fold typed.
  clearbody typed.
  destruct (customer_name_var s) as [|c0 nm0] eqn:En.
  - repeat split; congruence.
  - split; [reflexivity|]. split; [reflexivity|]. split; [discriminate|].
    intros _. cbn [listbox set_listbox].
    match goal with
    | |- context [sorted_by_lower U (set_order ?l)] => set (adds := l)
    end.
    pose proof (sorted_by_lower_perm U (set_order adds)) as Hp.
    destruct (Hset adds) as [Hnd Hin].
    assert (Hrow : forall row,
              In row (sorted_by_lower U (set_order adds)) <-> In row adds).
    { intros row. rewrite <- Hin. split; apply Permutation_in;
        [exact Hp | now apply Permutation_sym]. }
    split; [|split; [|split]].
    + eapply Permutation_NoDup; [apply Permutation_sym; exact Hp | exact Hnd].
    + apply sorted_by_lower_sorted.
    + intros row Hr. apply Hrow in Hr. unfold adds in Hr.
      destruct typed as [|t0 typed0]; [destruct Hr|].
      split; [discriminate|].
      apply in_app_iff in Hr as [Hr|Hr].
      * apply in_map_iff in Hr as (c & E & Hc).
        apply filter_In in Hc as [Hc1 Hc2]. apply contains_spec in Hc2.
        exists c. auto.
      * apply in_flat_map in Hr as (k & Hk & Hr).
        apply get_close_matches_n_spec in Hk as [_ Hk].
        destruct (dict_get (candidates_of U (customers s)) k) as [c|] eqn:Eg;
          [|destruct Hr].
        destruct Hr as [<-|[]].
        apply candidates_of_spec in Eg as [Hc1 Hc2].
        exists c. split; [exact Hc1|]. split; [reflexivity|].
        right. now rewrite Hc2.
    + intros c pre post Hc Ht Hk. apply Hrow. unfold adds.
      destruct typed as [|t0 typed0]; [congruence|].
      apply in_app_iff. left. apply in_map_iff. exists c.
      split; [reflexivity|].
      apply filter_In. split; [exact Hc|]. apply contains_spec. eauto.
Qed.

Lemma on_name_typing_rows_witness :
  customers
    (_on_name_typing Ucd.py first_added
       (set_customer_name_var
          (set_customers fresh_app
             [Customer_named (u "Ahmet"); Customer_named (u "Mehmet");
              Customer_named (u "Veli")])
          (u "hme")))
  = customers
      (set_customer_name_var
         (set_customers fresh_app
            [Customer_named (u "Ahmet"); Customer_named (u "Mehmet");
             Customer_named (u "Veli")])
         (u "hme")).
Proof.
  refine (proj1 (on_name_typing_rows Ucd.py first_added
                   (set_customer_name_var
                      (set_customers fresh_app
                         [Customer_named (u "Ahmet"); Customer_named (u "Mehmet");
                          Customer_named (u "Veli")])
                      (u "hme")) first_added_set)).
Defined.

Example typing_examples :
  let s :=
    set_customers fresh_app
      [Customer_named (u "Ahmet"); Customer_named (u "Mehmet");
       Customer_named (u "Veli"); Customer_named (u "Ahmed")] in
  map (fun typed =>
         listbox (_on_name_typing Ucd.py first_added
                    (set_customer_name_var s typed)))
    [u "hme"; u "veil"; u "  "; []; u "x"]
  = [[u "Ahmed"; u "Ahmet"; u "Mehmet"]; [u "Veli"]; [];
     [u "Ahmed"; u "Ahmet"; u "Mehmet"; u "Veli"]; []].
Proof. vm_compute. reflexivity. Qed.

(** ** Names whose key display-casing keeps *)

Lemma plain_in_chars c : plain c = true -> In c plain_chars.
Proof.
  unfold plain, plain_chars. rewrite orb_true_iff, in_app_iff.
  intros [H|H].
  - left. apply N.ltb_lt in H. apply in_map_iff. exists (N.to_nat c).
    split; [apply N2Nat.id|]. apply in_seq. lia.
  - right. apply existsb_exists in H as (x & Hx & E).
    apply N.eqb_eq in E. now subst.
Qed.

Lemma plain_facts_hold c : plain c = true -> plain_facts c = true.
Proof.
  intros H. apply plain_in_chars in H.
  assert (A : forallb plain_facts plain_chars = true)
    by (vm_compute; reflexivity).
  rewrite forallb_forall in A. now apply A.
Qed.

Lemma plain_maps c :
  plain c = true ->
  Ucd.mapped Ucd.lower_tbl c = [map1 Ucd.lower_tbl c]
  /\ plain (map1 Ucd.lower_tbl c) = true
  /\ Ucd.mapped Ucd.title_tbl c = [map1 Ucd.title_tbl c]
  /\ plain (map1 Ucd.title_tbl c) = true
  /\ Ucd.mapped Ucd.fold_tbl c = [map1 Ucd.fold_tbl c]
  /\ map1 Ucd.fold_tbl (map1 Ucd.lower_tbl (map1 Ucd.lower_tbl c))
     = map1 Ucd.fold_tbl c
  /\ (c <> 305%N ->
      map1 Ucd.fold_tbl (map1 Ucd.title_tbl (map1 Ucd.lower_tbl c))
      = map1 Ucd.fold_tbl c)
  /\ ((map1 Ucd.lower_tbl c =? 105)%N = ((c =? 105) || (c =? 73))%N)
  /\ (isspace c = false ->
      isspace (map1 Ucd.lower_tbl c) = false
      /\ isspace (map1 Ucd.title_tbl c) = false).
Proof.
  intros H. apply plain_facts_hold in H. unfold plain_facts in H.
  cbv zeta in H. rewrite !andb_true_iff in H.
  destruct H as [[[[[[[[[[H1 H2] H3] H4] H5] H6] H7] H8] H9] _] _].
  apply eqb_eq in H1, H3, H5. apply N.eqb_eq in H6.
  apply Bool.eqb_prop in H8.
  split; [exact H1|]. split; [exact H2|]. split; [exact H3|].
  split; [exact H4|]. split; [exact H5|]. split; [exact H6|].
  split; [|split; [exact H8|]].
  - intros Hc. apply orb_true_iff in H7 as [H7|H7].
    + apply N.eqb_eq in H7. contradiction.
    + now apply N.eqb_eq.
  - intros Hs. rewrite Hs in H9. simpl in H9.
    apply andb_true_iff in H9 as [H9 H9'].
    split; now apply negb_true_iff.
Qed.

Lemma plain_unit c :
  plain c = true ->
  Ucd.ccc c = 0%N
  /\ (Ucd.mapped Ucd.kd_tbl c = [c]
      \/ exists b m,
           Ucd.mapped Ucd.kd_tbl c = [b; m]
           /\ Ucd.ccc b = 0%N /\ (0 <? Ucd.ccc m)%N = true
           /\ Ucd.composite b m Ucd.comp_tbl = Some c).
Proof.
  intros H. apply plain_facts_hold in H. unfold plain_facts in H.
  cbv zeta in H. rewrite !andb_true_iff in H.
  destruct H as [[_ Hc] H]. apply N.eqb_eq in Hc. split; [exact Hc|].
  destruct (Ucd.mapped Ucd.kd_tbl c) as [|x [|m [|? ?]]]; try discriminate.
  - left. apply N.eqb_eq in H. now subst.
  - right. rewrite !andb_true_iff in H. destruct H as [[Hb Hm] Hy].
    destruct (Ucd.composite x m Ucd.comp_tbl) as [y|] eqn:E; [|discriminate].
    apply N.eqb_eq in Hb, Hy. subst. exists x, m. auto.
Qed.

(** *** NFKC leaves plain text alone *)

Lemma composite_mark x c t y :
  Ucd.composite x c t = Some y -> In c (map (fun e => snd (fst e)) t).
Proof.
  induction t as [|[[a b] z] t IH]; simpl; [discriminate|].
  destruct ((x =? a)%N && (c =? b)%N) eqn:E.
  - intros _. apply andb_true_iff in E as [_ E]. apply N.eqb_eq in E. auto.
  - intros H. right. now apply IH.
Qed.

Lemma composite_starter x c :
  Ucd.ccc c = 0%N -> Ucd.composite x c Ucd.comp_tbl = None.
Proof.
  intros H. destruct (Ucd.composite x c Ucd.comp_tbl) as [y|] eqn:E;
    [|reflexivity].
  apply composite_mark in E.
  assert (A : forallb (fun m => (0 <? Ucd.ccc m)%N)
                (map (fun e => snd (fst e)) Ucd.comp_tbl) = true)
    by (vm_compute; reflexivity).
  rewrite forallb_forall in A. apply A in E. rewrite H in E. discriminate.
Qed.

Lemma place_starter c out : Ucd.ccc c = 0%N -> Ucd.place c out = c :: out.
Proof. intros H. destruct out; simpl; [reflexivity|]. now rewrite H. Qed.

Lemma place_after_starter m b out :
  Ucd.ccc b = 0%N -> Ucd.place m (b :: out) = m :: b :: out.
Proof.
  intros H. simpl. rewrite H.
  replace (Ucd.ccc m <? 0)%N with false
    by (symmetry; apply N.ltb_ge; lia).
  now rewrite andb_false_r.
Qed.

Lemma order_plain s :
  forallb plain s = true ->
  forall out,
    fold_left (fun out c => Ucd.place c out) (Ucd.decompose s) out
    = rev (Ucd.decompose s) ++ out.
Proof.
  unfold Ucd.decompose.
  induction s as [|c s IH]; intros H out; [reflexivity|].
  cbn [forallb] in H. apply andb_true_iff in H as [Hc H].
  cbn [flat_map]. rewrite fold_left_app, rev_app_distr, <- app_assoc.
  rewrite (IH H). f_equal.
  destruct (plain_unit c Hc) as [H0 [->|(b & m & -> & Hb & Hm & _)]].
  - cbn [fold_left rev app]. now rewrite place_starter.
  - cbn [fold_left rev app].
    now rewrite (place_starter b) by exact Hb; rewrite place_after_starter.
Qed.

Lemma compose_from_starter done x c s :
  Ucd.ccc c = 0%N ->
  Ucd.compose_from done (Some x) [] 0%N (c :: s)
  = Ucd.compose_from (x :: done) (Some c) [] 0%N s.
Proof.
  intros H. cbn [Ucd.compose_from]. cbv zeta.
  rewrite N.eqb_refl, orb_true_l, (composite_starter x c H), H.
  reflexivity.
Qed.

Lemma compose_from_mark done b m c s :
  Ucd.composite b m Ucd.comp_tbl = Some c ->
  Ucd.compose_from done (Some b) [] 0%N (m :: s)
  = Ucd.compose_from done (Some c) [] 0%N s.
Proof.
  intros H. cbn [Ucd.compose_from]. cbv zeta.
  now rewrite N.eqb_refl, orb_true_l, H.
Qed.

Lemma compose_from_first done c s :
  Ucd.ccc c = 0%N ->
  Ucd.compose_from done None [] 0%N (c :: s)
  = Ucd.compose_from done (Some c) [] 0%N s.
Proof. intros H. cbn [Ucd.compose_from]. cbv zeta. now rewrite H. Qed.

Lemma compose_plain s :
  forallb plain s = true ->
  forall done x,
    Ucd.compose_from done (Some x) [] 0%N (Ucd.decompose s)
    = rev done ++ x :: s.
Proof.
  unfold Ucd.decompose.
  induction s as [|c s IH]; intros H done x.
  - simpl. reflexivity.
  - cbn [forallb] in H. apply andb_true_iff in H as [Hc H].
    cbn [flat_map].
    destruct (plain_unit c Hc) as [H0 [->|(b & m & -> & Hb & Hm & Hy)]];
      cbn [app].
    + rewrite compose_from_starter by exact H0. rewrite (IH H).
      cbn [rev]. now rewrite <- app_assoc.
    + rewrite compose_from_starter by exact Hb.
      rewrite (compose_from_mark _ b m c) by exact Hy. rewrite (IH H).
      cbn [rev]. now rewrite <- app_assoc.
Qed.

Lemma nfkc_plain s : forallb plain s = true -> nfkc Ucd.py s = s.
Proof.
  intros H. change (nfkc Ucd.py s) with (Ucd.str_nfkc s).
  unfold Ucd.str_nfkc, Ucd.canonical_order.
  rewrite (order_plain s H), app_nil_r, rev_involutive.
  unfold Ucd.compose. destruct s as [|c s]; [reflexivity|].
  cbn [forallb] in H. apply andb_true_iff in H as [Hc H].
  unfold Ucd.decompose. cbn [flat_map]. fold (Ucd.decompose s).
  destruct (plain_unit c Hc) as [H0 [->|(b & m & -> & Hb & Hm & Hy)]];
    cbn [app].
  - rewrite compose_from_first by exact H0. now rewrite compose_plain.
  - rewrite compose_from_first by exact Hb.
    rewrite (compose_from_mark _ b m c) by exact Hy.
    now rewrite compose_plain.
Qed.

(** *** Words *)

Lemma split_from_words (Q : char -> bool) (s : str) :
  forallb Q s = true ->
  forall w,
    forallb Q w = true ->
    forallb (fun c => negb (isspace c)) w = true ->
    Forall (fun x => x <> []
                     /\ forallb (fun c => negb (isspace c)) x = true
                     /\ forallb Q x = true)
      (split_from w s).
Proof.
  assert (R : forall (P : char -> bool) w,
            forallb P w = true -> forallb P (rev w) = true).
  { intros P w H. rewrite forallb_forall in *. intros x Hx. apply H.
    now apply in_rev. }
  induction s as [|c s IH]; intros Hs w Hq Hw; simpl.
  - destruct w as [|d w]; constructor; [|constructor].
    split; [|split; now apply R].
    intros E. apply (f_equal (@rev _)) in E. rewrite rev_involutive in E.
    discriminate.
  - cbn [forallb] in Hs. apply andb_true_iff in Hs as [Hc Hs].
    destruct (isspace c) eqn:Ec.
    + destruct w as [|d w]; [now apply IH|].
      constructor; [|now apply IH].
      split; [|split; now apply R].
      intros E. apply (f_equal (@rev _)) in E. rewrite rev_involutive in E.
      discriminate.
    + apply IH; [exact Hs | |]; cbn [forallb].
      * now rewrite Hc, Hq.
      * now rewrite Ec, Hw.
Qed.

Lemma split_words (Q : char -> bool) (s : str) :
  forallb Q s = true ->
  Forall (fun x => x <> []
                   /\ forallb (fun c => negb (isspace c)) x = true
                   /\ forallb Q x = true)
    (split s).
Proof. intros H. now apply split_from_words. Qed.

Lemma split_from_nonspace (w x s : str) :
  forallb (fun c => negb (isspace c)) x = true ->
  split_from w (x ++ s) = split_from (rev x ++ w) s.
Proof.
  revert w. induction x as [|c x IH]; intros w H; [reflexivity|].
  cbn [forallb] in H. apply andb_true_iff in H as [Hc H].
  apply negb_true_iff in Hc. cbn [app split_from]. rewrite Hc.
  rewrite (IH _ H). cbn [rev]. now rewrite <- app_assoc.
Qed.

Lemma split_from_end (w : str) :
  w <> [] -> split_from (rev w) [] = [w].
Proof.
  intros H. cbn [split_from]. destruct (rev w) eqn:E.
  - apply (f_equal (@rev _)) in E. rewrite rev_involutive in E. contradiction.
  - now rewrite <- E, rev_involutive.
Qed.

Lemma split_from_gap (w s : str) :
  w <> [] -> split_from (rev w) (32%N :: s) = w :: split_from [] s.
Proof.
  intros H. cbn [split_from]. change (isspace 32%N) with true. cbv iota.
  destruct (rev w) eqn:E.
  - apply (f_equal (@rev _)) in E. rewrite rev_involutive in E. contradiction.
  - now rewrite <- E, rev_involutive.
Qed.

Lemma split_join (ws : list str) :
  Forall (fun x => x <> []
                   /\ forallb (fun c => negb (isspace c)) x = true) ws ->
  split (join (u " ") ws) = ws.
Proof.
  unfold split. induction 1 as [|w ws [Hw Hn] _ IH]; [reflexivity|].
  rewrite join_cons. destruct ws as [|w' ws].
  - pose proof (split_from_nonspace [] w [] Hn) as E.
    rewrite !app_nil_r in E. rewrite E. now apply split_from_end.
  - rewrite split_from_nonspace by exact Hn. rewrite app_nil_r.
    change (u " " ++ join (u " ") (w' :: ws))
      with (32%N :: join (u " ") (w' :: ws)).
    rewrite split_from_gap by exact Hw. now rewrite IH.
Qed.

Lemma strip_nonspace (s : str) :
  forallb (fun c => negb (isspace c)) s = true -> strip s = s.
Proof.
  assert (L : forall t, forallb (fun c => negb (isspace c)) t = true ->
                        lstrip t = t).
  { intros [|c t] H; [reflexivity|]. cbn [forallb] in H.
    apply andb_true_iff in H as [H _]. apply negb_true_iff in H.
    simpl. now rewrite H. }
  intros H. unfold strip, rstrip. rewrite (L s H), L.
  - apply rev_involutive.
  - rewrite forallb_forall in *. intros x Hx. apply H. now apply in_rev.
Qed.

Lemma flat_map_single (f : char -> str) (g : char -> char) (s : str) :
  (forall c, In c s -> f c = [g c]) -> flat_map f s = map g s.
Proof.
  induction s as [|c s IH]; intros H; simpl; [reflexivity|].
  rewrite H by now left. simpl. f_equal. apply IH. intros. apply H.
  now right.
Qed.

Lemma lower_plain s :
  forallb plain s = true ->
  lower Ucd.py s = map (map1 Ucd.lower_tbl) s
  /\ forallb plain (map (map1 Ucd.lower_tbl) s) = true.
Proof.
  intros H. rewrite forallb_forall in H. split.
  - change (lower Ucd.py s) with (flat_map (Ucd.mapped Ucd.lower_tbl) s).
    apply (flat_map_single (Ucd.mapped Ucd.lower_tbl) (map1 Ucd.lower_tbl)).
    intros c Hc. destruct (plain_maps c (H c Hc)) as (E & _). exact E.
  - apply forallb_forall. intros x Hx. apply in_map_iff in Hx as (c & <- & Hc).
    destruct (plain_maps c (H c Hc)) as (_ & E & _). exact E.
Qed.

Lemma casefold_plain s :
  forallb plain s = true -> casefold Ucd.py s = map (map1 Ucd.fold_tbl) s.
Proof.
  intros H. rewrite forallb_forall in H.
  change (casefold Ucd.py s) with (flat_map (Ucd.mapped Ucd.fold_tbl) s).
  apply (flat_map_single (Ucd.mapped Ucd.fold_tbl) (map1 Ucd.fold_tbl)).
  intros c Hc. destruct (plain_maps c (H c Hc)) as (_ & _ & _ & _ & E & _).
  exact E.
Qed.

Lemma casefold_join (ws : list str) :
  casefold Ucd.py (join (u " ") ws)
  = join (u " ") (map (casefold Ucd.py) ws).
Proof.
  change (casefold Ucd.py) with Ucd.str_casefold. unfold Ucd.str_casefold.
  induction ws as [|w ws IH]; [reflexivity|].
  cbn [map]. rewrite !join_cons. destruct ws as [|w' ws]; [reflexivity|].
  cbn [map] in *. rewrite !flat_map_app, IH. reflexivity.
Qed.

Lemma forallb_join (P : char -> bool) (ws : list str) :
  P 32%N = true ->
  Forall (fun w => forallb P w = true) ws ->
  forallb P (join (u " ") ws) = true.
Proof.
  intros Hs. induction 1 as [|w ws Hw _ IH]; [reflexivity|].
  rewrite join_cons. destruct ws as [|w' ws]; [exact Hw|].
  rewrite !forallb_app, Hw, IH. cbn. now rewrite Hs.
Qed.

(** The display form of a plain word that does not start with "i", "I" or
    "ı" is plain, has no white space and folds as the word does. *)
Lemma turkish_title_plain (w : str) :
  w <> [] ->
  forallb (fun c => negb (isspace c)) w = true ->
  forallb plain w = true ->
  initial_i w = false ->
  turkish_title Ucd.py w <> []
  /\ forallb (fun c => negb (isspace c)) (turkish_title Ucd.py w) = true
  /\ forallb plain (turkish_title Ucd.py w) = true
  /\ casefold Ucd.py (turkish_title Ucd.py w) = casefold Ucd.py w.
Proof.
  intros Hne Hs Hp Hi. unfold turkish_title.
  rewrite (strip_nonspace w Hs).
  destruct (lower_plain w Hp) as [-> Hpl].
  destruct w as [|c r]; [congruence|]. clear Hne.
  cbn [forallb] in Hs, Hp. apply andb_true_iff in Hs as [Hsc Hsr].
  apply andb_true_iff in Hp as [Hpc Hpr]. apply negb_true_iff in Hsc.
  cbn [initial_i] in Hi. rewrite !orb_false_iff in Hi.
  destruct Hi as [[Hi1 Hi2] Hi3].
  destruct (plain_maps c Hpc) as (_ & Hl & _ & _ & _ & _ & Hft & Hli & Hsp).
  destruct (Hsp Hsc) as [Hsl _].
  destruct (plain_maps _ Hl) as (_ & _ & Ht & Htp & _ & _ & _ & _ & Hsp').
  destruct (Hsp' Hsl) as [_ Hst].
  cbn [map].
  assert (Es : startswith (map1 Ucd.lower_tbl c :: map (map1 Ucd.lower_tbl) r)
                 (u "i") = false).
  { change (u "i") with [105%N]. cbn [startswith].
    rewrite Hli, Hi1, Hi2. reflexivity. }
  rewrite Es.
  change (capitalize Ucd.py
            (map1 Ucd.lower_tbl c :: map (map1 Ucd.lower_tbl) r))
    with (Ucd.mapped Ucd.title_tbl (map1 Ucd.lower_tbl c)
          ++ lower Ucd.py (map (map1 Ucd.lower_tbl) r)).
  rewrite Ht.
  destruct (lower_plain r Hpr) as [_ Hplr].
  destruct (lower_plain _ Hplr) as [-> Hpll]. cbn [app].
  split; [discriminate|]. split; [|split].
  - cbn [forallb]. rewrite Hst. cbn [negb andb].
    apply forallb_forall. intros x Hx.
    apply in_map_iff in Hx as (y & <- & Hy).
    apply in_map_iff in Hy as (z & <- & Hz).
    rewrite forallb_forall in Hsr, Hpr.
    specialize (Hsr z Hz). apply negb_true_iff in Hsr.
    destruct (plain_maps z (Hpr z Hz)) as (_ & Hzl & _ & _ & _ & _ & _ & _ & Hz1).
    destruct (Hz1 Hsr) as [Hz2 _].
    destruct (plain_maps _ Hzl) as (_ & _ & _ & _ & _ & _ & _ & _ & Hz3).
    destruct (Hz3 Hz2) as [Hz4 _]. now rewrite Hz4.
  - cbn [forallb]. now rewrite Htp, Hpll.
  - rewrite casefold_plain by (cbn [forallb]; now rewrite Htp, Hpll).
    rewrite casefold_plain by (cbn [forallb]; now rewrite Hpc, Hpr).
    cbn [map]. f_equal.
    + apply Hft. intros E. subst c. discriminate.
    + rewrite !map_map. apply map_ext_in. intros z Hz.
      rewrite forallb_forall in Hpr.
      destruct (plain_maps z (Hpr z Hz)) as (_ & _ & _ & _ & _ & E & _).
      exact E.
Qed.

(** X24: display-casing keeps the key of every plain name: for a name
    written in ASCII characters and the letters Ç ç Ğ ğ ı Ö ö Ş ş Ü ü
    Â â Î î Û û, in which no word starts with "i", "I" or "ı", the
    normalized name of the display form is the normalized name of the name
    itself, with the interpreter's tables; so such a name is stored once,
    however it is typed. *)
Theorem plain_name_key_kept (raw : str) :
  plain_name raw = true -> key_kept Ucd.py raw.
Proof.
  unfold plain_name, key_kept. intros H.
  apply andb_true_iff in H as [Hp Hi].
  pose proof (split_words plain raw Hp) as Hw.
  assert (Ht : Forall (fun w =>
                  turkish_title Ucd.py w <> []
                  /\ forallb (fun c => negb (isspace c))
                       (turkish_title Ucd.py w) = true
                  /\ forallb plain (turkish_title Ucd.py w) = true
                  /\ casefold Ucd.py (turkish_title Ucd.py w)
                     = casefold Ucd.py w) (split raw)).
  { rewrite Forall_forall in *. intros w Hin.
    destruct (Hw w Hin) as (H1 & H2 & H3).
    rewrite forallb_forall in Hi. specialize (Hi w Hin).
    apply negb_true_iff in Hi. now apply turkish_title_plain. }
  unfold _format_for_display, _normalize_for_comparison.
  rewrite (nfkc_plain raw Hp). rewrite !split_strip.
  set (ws := split raw) in *.
  assert (Hd : forallb plain (join (u " ") (map (turkish_title Ucd.py) ws))
               = true).
  { apply forallb_join; [reflexivity|]. apply Forall_map.
    eapply Forall_impl; [|exact Ht]. cbv beta. tauto. }
  rewrite (nfkc_plain _ Hd), split_join.
  - rewrite !casefold_join, map_map. f_equal.
    apply map_ext_in. intros w Hin. rewrite Forall_forall in Ht.
    now apply Ht.
  - apply Forall_map. eapply Forall_impl; [|exact Ht]. cbv beta. tauto.
Qed.

Lemma plain_name_key_kept_witness :
  _normalize_for_comparison Ucd.py
    (_format_for_display Ucd.py (u "  ayşe   YILMAZ çiğdem"))
  = _normalize_for_comparison Ucd.py (u "  ayşe   YILMAZ çiğdem").
Proof.
  apply (plain_name_key_kept (u "  ayşe   YILMAZ çiğdem")).
  vm_compute. reflexivity.
Defined.

(** ** The directory in memory and the customers file *)


